(** * kilo.c: document buffer, coordinate translation, key decoding,
      edit engine, prompt, screen drawing and main loop of the terminal
      text editor, embedded in Rocq.

    Conventions of the embedding.
    - A C [int] is a [Z]; signed overflow (undefined in C) is not
      modelled: it needs lines or documents of 2^31 bytes.
    - A C [char] is the [Z] value of a signed 8-bit byte.
    - A heap buffer [chars]/[render] of a row is the list of its bytes;
      [size] and the line count [numrows] are the lengths of the lists
      (the code keeps them equal to the allocated extents), the cached
      [rsize] is a field of its own.  The terminating NUL of [chars] is
      not stored; a read at index [size] sees it.
    - A row pointer [&E.row[i]] is the index [i].  A dereference outside
      the array, or any other undefined behaviour, is [None].
    - [malloc] and [realloc] are taken to succeed. *)

From stdpp Require Import base numbers option list strings.

Local Open Scope Z_scope.

(* ================================================================= *)
(** ** Constants, characters and keys *)

Definition KILO_TAB_STOP : Z := 8.
Definition KILO_QUIT_TIMES : Z := 3.

Definition CTRL_KEY (k : Z) : Z := Z.land k 0x1f.

(** Character literals used by the source. *)
Definition NUL : Z := 0.
Definition TAB : Z := 9.        (* '\t' *)
Definition NEWLINE : Z := 10.   (* '\n' *)
Definition CR : Z := 13.        (* '\r' *)
Definition ESC : Z := 27.       (* '\x1b' *)
Definition SPACE : Z := 32.     (* ' ' *)
Definition LBRACKET : Z := 91.  (* '[' *)
Definition TILDE : Z := 126.    (* '~' *)
Definition CH_0 : Z := 48.
Definition CH_1 : Z := 49.
Definition CH_2 : Z := 50.
Definition CH_3 : Z := 51.
Definition CH_4 : Z := 52.
Definition CH_5 : Z := 53.
Definition CH_6 : Z := 54.
Definition CH_7 : Z := 55.
Definition CH_8 : Z := 56.
Definition CH_9 : Z := 57.
Definition CH_A : Z := 65.
Definition CH_B : Z := 66.
Definition CH_C : Z := 67.
Definition CH_D : Z := 68.
Definition CH_F : Z := 70.
Definition CH_H : Z := 72.
Definition CH_O : Z := 79.
Definition CH_h : Z := 104.
Definition CH_l : Z := 108.
Definition CH_q : Z := 113.
Definition CH_s : Z := 115.

(** [enum editorKey]. *)
Definition BACKSPACE : Z := 127.
Definition ARROW_LEFT : Z := 1000.
Definition ARROW_RIGHT : Z := 1001.
Definition ARROW_UP : Z := 1002.
Definition ARROW_DOWN : Z := 1003.
Definition DEL_KEY : Z := 1004.
Definition HOME_KEY : Z := 1005.
Definition END_KEY : Z := 1006.
Definition PAGE_UP : Z := 1007.
Definition PAGE_DOWN : Z := 1008.

(** Conversion of an [int] to the (signed, 8-bit) [char] it is stored as. *)
Definition char_of_int (c : Z) : Z := (c + 128) mod 256 - 128.

(* ================================================================= *)
(** ** Data *)

(** [struct erow]. *)
Record erow := mk_erow {
  chars : list Z;
  rsize : Z;
  render : list Z
}.

Definition size (r : erow) : Z := Z.of_nat (length (chars r)).

(** The texts [editorSetStatusMessage] is called with, one constructor
    per call site; the [%d] and [%s] arguments are carried. *)
Inductive status_message :=
  | MsgEmpty                      (* "" *)
  | MsgHelp                       (* "HELP: Ctrl-Q to quit | Ctrl S to save" *)
  | MsgQuitWarning (times : Z)    (* "WARNING! File has unsaved changes. Press Ctrl Q %d more times to quit." *)
  | MsgSaveAborted                (* "Save aborted" *)
  | MsgBytesWritten (len : Z)     (* "%d bytes written to disk" *)
  | MsgSaveError (err : string).  (* "Can't save! I/O error: %s" *)

(** [struct editorConfig], with the static local [quit_times] of
    [editorProcessKeypress] as one more field.  [statusmsg_time] and
    [orig_termios] are left out. *)
Record editorConfig := mk_editor {
  cx : Z;
  cy : Z;
  rx : Z;
  rowoff : Z;
  coloff : Z;
  screenrows : Z;
  screencols : Z;
  row : list erow;
  dirty : Z;
  filename : option string;
  statusmsg : status_message;
  quit_times : Z
}.

Definition numrows (E : editorConfig) : Z := Z.of_nat (length (row E)).

Definition set_cx (v : Z) (E : editorConfig) : editorConfig :=
  mk_editor v (cy E) (rx E) (rowoff E) (coloff E) (screenrows E) (screencols E)
            (row E) (dirty E) (filename E) (statusmsg E) (quit_times E).
Definition set_cy (v : Z) (E : editorConfig) : editorConfig :=
  mk_editor (cx E) v (rx E) (rowoff E) (coloff E) (screenrows E) (screencols E)
            (row E) (dirty E) (filename E) (statusmsg E) (quit_times E).
Definition set_rx (v : Z) (E : editorConfig) : editorConfig :=
  mk_editor (cx E) (cy E) v (rowoff E) (coloff E) (screenrows E) (screencols E)
            (row E) (dirty E) (filename E) (statusmsg E) (quit_times E).
Definition set_rowoff (v : Z) (E : editorConfig) : editorConfig :=
  mk_editor (cx E) (cy E) (rx E) v (coloff E) (screenrows E) (screencols E)
            (row E) (dirty E) (filename E) (statusmsg E) (quit_times E).
Definition set_coloff (v : Z) (E : editorConfig) : editorConfig :=
  mk_editor (cx E) (cy E) (rx E) (rowoff E) v (screenrows E) (screencols E)
            (row E) (dirty E) (filename E) (statusmsg E) (quit_times E).
Definition set_row (v : list erow) (E : editorConfig) : editorConfig :=
  mk_editor (cx E) (cy E) (rx E) (rowoff E) (coloff E) (screenrows E) (screencols E)
            v (dirty E) (filename E) (statusmsg E) (quit_times E).
Definition set_dirty (v : Z) (E : editorConfig) : editorConfig :=
  mk_editor (cx E) (cy E) (rx E) (rowoff E) (coloff E) (screenrows E) (screencols E)
            (row E) v (filename E) (statusmsg E) (quit_times E).
Definition set_filename (v : option string) (E : editorConfig) : editorConfig :=
  mk_editor (cx E) (cy E) (rx E) (rowoff E) (coloff E) (screenrows E) (screencols E)
            (row E) (dirty E) v (statusmsg E) (quit_times E).
Definition editorSetStatusMessage (v : status_message) (E : editorConfig) : editorConfig :=
  mk_editor (cx E) (cy E) (rx E) (rowoff E) (coloff E) (screenrows E) (screencols E)
            (row E) (dirty E) (filename E) v (quit_times E).
Definition set_quit_times (v : Z) (E : editorConfig) : editorConfig :=
  mk_editor (cx E) (cy E) (rx E) (rowoff E) (coloff E) (screenrows E) (screencols E)
            (row E) (dirty E) (filename E) (statusmsg E) v.

(** [E.row[i]]: defined for [0 <= i < numrows] only. *)
Definition row_at (E : editorConfig) (i : Z) : option erow :=
  if i <? 0 then None else row E !! Z.to_nat i.

(** [row->chars[j]]: the bytes of the line, then the terminating NUL. *)
Definition char_at (cs : list Z) (j : nat) : option Z := (cs ++ [NUL]) !! j.

(* ================================================================= *)
(** ** Row operations *)

(** Body of the loop of [editorRowCxtoRx]. *)
Definition cxtorx_step (rx0 c : Z) : Z :=
  (if c =? TAB
   then rx0 + ((KILO_TAB_STOP - 1) - Z.rem rx0 KILO_TAB_STOP)
   else rx0) + 1.

(** [for (int j = 0; j < cx; j++)], with [n] iterations left. *)
Fixpoint cxtorx_loop (cs : list Z) (j n : nat) (rx0 : Z) : option Z :=
  match n with
  | O => Some rx0
  | S n' => c ← char_at cs j; cxtorx_loop cs (S j) n' (cxtorx_step rx0 c)
  end.

Definition editorRowCxtoRx (r : erow) (cx0 : Z) : option Z :=
  cxtorx_loop (chars r) 0 (Z.to_nat cx0) 0.

(** [while (idx % KILO_TAB_STOP != 0) row->render[idx++] = ' ';]
    The buffer written so far is [buf], of which [idx] is the length. *)
Fixpoint pad_loop (fuel : nat) (buf : list Z) (idx : Z) : list Z * Z :=
  match fuel with
  | O => (buf, idx)
  | S fuel' =>
      if Z.rem idx KILO_TAB_STOP =? 0 then (buf, idx)
      else pad_loop fuel' (buf ++ [SPACE]) (idx + 1)
  end.

(** The second loop of [editorUpdateRow], over the bytes still to copy. *)
Fixpoint update_loop (cs : list Z) (buf : list Z) (idx : Z) : list Z * Z :=
  match cs with
  | [] => (buf, idx)
  | c :: cs' =>
      if c =? TAB then
        let '(buf1, idx1) :=
          pad_loop (Z.to_nat KILO_TAB_STOP) (buf ++ [SPACE]) (idx + 1) in
        update_loop cs' buf1 idx1
      else update_loop cs' (buf ++ [c]) (idx + 1)
  end.

(** [editorUpdateRow]: the render buffer is freed and rebuilt from
    [chars]; [rsize] becomes the final [idx]. *)
Definition editorUpdateRow (r : erow) : erow :=
  let '(buf, idx) := update_loop (chars r) [] 0 in
  mk_erow (chars r) idx buf.

(** [memmove] of the tail and the store of [c] in [editorRowInsertChar]. *)
Definition insert_at {A} (n : nat) (x : A) (l : list A) : list A :=
  take n l ++ x :: drop n l.

(** [editorInsertRow(at, s, len)]: [s] is the [len] bytes copied. *)
Definition editorInsertRow (at0 : Z) (s : list Z) (E : editorConfig) : editorConfig :=
  if (at0 <? 0) || (at0 >? numrows E) then E
  else
    let r := editorUpdateRow (mk_erow s 0 []) in
    set_dirty (dirty E + 1) (set_row (insert_at (Z.to_nat at0) r (row E)) E).

Definition editorDelRow (at0 : Z) (E : editorConfig) : editorConfig :=
  if (at0 <? 0) || (at0 >=? numrows E) then E
  else set_dirty (dirty E + 1) (set_row (delete (Z.to_nat at0) (row E)) E).

(** [editorRowInsertChar(&E.row[ri], at, c)]. *)
Definition editorRowInsertChar (ri at0 c : Z) (E : editorConfig) : option editorConfig :=
  r ← row_at E ri;
  let at1 := if (at0 <? 0) || (at0 >? size r) then size r else at0 in
  let r' := editorUpdateRow
              (mk_erow (insert_at (Z.to_nat at1) (char_of_int c) (chars r))
                       (rsize r) (render r)) in
  Some (set_dirty (dirty E + 1) (set_row (<[Z.to_nat ri := r']> (row E)) E)).

(** [editorRowAppendString(&E.row[ri], s, len)]. *)
Definition editorRowAppendString (ri : Z) (s : list Z) (E : editorConfig) : option editorConfig :=
  r ← row_at E ri;
  let r' := editorUpdateRow (mk_erow (chars r ++ s) (rsize r) (render r)) in
  Some (set_dirty (dirty E + 1) (set_row (<[Z.to_nat ri := r']> (row E)) E)).

(** [editorRowDelChar(&E.row[ri], at)]. *)
Definition editorRowDelChar (ri at0 : Z) (E : editorConfig) : option editorConfig :=
  r ← row_at E ri;
  if (at0 <? 0) || (at0 >=? size r) then Some E
  else
    let r' := editorUpdateRow
                (mk_erow (delete (Z.to_nat at0) (chars r)) (rsize r) (render r)) in
    Some (set_dirty (dirty E + 1) (set_row (<[Z.to_nat ri := r']> (row E)) E)).

(* ================================================================= *)
(** ** Editor operations *)

Definition editorInsertChar (c : Z) (E : editorConfig) : option editorConfig :=
  let E1 := if cy E =? numrows E then editorInsertRow (numrows E) [] E else E in
  E2 ← editorRowInsertChar (cy E1) (cx E1) c E1;
  Some (set_cx (cx E2 + 1) E2).

(** In the second branch [&row->chars[E.cx]] with length
    [row->size - E.cx] is the tail of the line from [cx]; a negative
    length (or [cx < 0]) is outside the buffer. *)
Definition editorInsertNewline (E : editorConfig) : option editorConfig :=
  E1 ← (if cx E =? 0 then Some (editorInsertRow (cy E) [] E)
        else
          r ← row_at E (cy E);
          if (cx E <? 0) || (size r <? cx E) then None
          else
            let E' := editorInsertRow (cy E + 1) (drop (Z.to_nat (cx E)) (chars r)) E in
            r' ← row_at E' (cy E');
            let r'' := editorUpdateRow
                         (mk_erow (take (Z.to_nat (cx E')) (chars r')) (rsize r') (render r')) in
            Some (set_row (<[Z.to_nat (cy E') := r'']> (row E')) E'));
  Some (set_cx 0 (set_cy (cy E1 + 1) E1)).

Definition editorDeleteChar (E : editorConfig) : option editorConfig :=
  if cy E =? numrows E then Some E
  else if (cx E =? 0) && (cy E =? 0) then Some E
  else if cx E >? 0 then
    E1 ← editorRowDelChar (cy E) (cx E - 1) E;
    Some (set_cx (cx E1 - 1) E1)
  else
    prev ← row_at E (cy E - 1);
    cur ← row_at E (cy E);
    let E1 := set_cx (size prev) E in
    E2 ← editorRowAppendString (cy E1 - 1) (chars cur) E1;
    let E3 := editorDelRow (cy E2) E2 in
    Some (set_cy (cy E3 - 1) E3).

(* ================================================================= *)
(** ** File input and output *)

(** [editorRowsToString]: the first loop sums the lengths into
    [*buflen], the second copies every row followed by ['\n']. *)
Definition editorRowsToString (E : editorConfig) : list Z * Z :=
  let totlen := fold_left (λ t r, t + (size r + 1)) (row E) 0 in
  let buf := fold_left (λ p r, p ++ chars r ++ [NEWLINE]) (row E) [] in
  (buf, totlen).

(** The bytes [getline] hands out: up to and including the first
    ['\n'], or up to the end of the stream. *)
Fixpoint read_line (fp : list Z) : list Z * list Z :=
  match fp with
  | [] => ([], [])
  | c :: fp' =>
      if c =? NEWLINE then ([c], fp')
      else let '(l, rest) := read_line fp' in (c :: l, rest)
  end.

(** [getline]: [None] is the [-1] of end of file. *)
Definition getline (fp : list Z) : option (list Z * list Z) :=
  match fp with
  | [] => None
  | _ => Some (read_line fp)
  end.

(** [while (linelen > 0 && (line[linelen - 1] == '\n' ||
    line[linelen - 1] == '\r')) linelen--;] *)
Fixpoint strip_loop (line : list Z) (linelen : nat) : nat :=
  match linelen with
  | O => O
  | S n =>
      match line !! n with
      | Some c => if (c =? NEWLINE) || (c =? CR) then strip_loop line n else linelen
      | None => linelen
      end
  end.

(** The [while] loop of [editorOpen] over the unread part [fp] of the
    file; every [getline] takes at least one byte, [fuel] bounds their
    number.  The unread part is returned with the editor. *)
Fixpoint open_loop (fuel : nat) (fp : list Z) (E : editorConfig) : editorConfig * list Z :=
  match fuel with
  | O => (E, fp)
  | S fuel' =>
      match getline fp with
      | None => (E, fp)
      | Some (line, fp') =>
          let linelen := strip_loop line (length line) in
          open_loop fuel' fp' (editorInsertRow (numrows E) (take linelen line) E)
      end
  end.

(** [editorOpen] on a file that [fopen] opened, of bytes [content]. *)
Definition editorOpen (name : string) (content : list Z) (E : editorConfig) : editorConfig :=
  set_dirty 0 (open_loop (length content) content (set_filename (Some name) E)).1.

(* ================================================================= *)
(** ** Output: scrolling *)

Definition editorScroll (E : editorConfig) : option editorConfig :=
  E1 ← (if cy E <? numrows E then
          r ← row_at E (cy E);
          v ← editorRowCxtoRx r (cx E);
          Some (set_rx v E)
        else Some (set_rx 0 E));
  let E2 := if cy E1 <? rowoff E1 then set_rowoff (cy E1) E1 else E1 in
  let E3 := if cy E2 >=? rowoff E2 + screenrows E2
            then set_rowoff (cy E2 - screenrows E2 + 1) E2 else E2 in
  let E4 := if rx E3 <? coloff E3 then set_coloff (rx E3) E3 else E3 in
  let E5 := if rx E4 >=? coloff E4 + screencols E4
            then set_coloff (rx E4 - screencols E4 + 1) E4 else E4 in
  Some E5.

(* ================================================================= *)
(** ** Saving *)

(** What the terminal and the file system answer during one
    [editorSave]: the name [editorPrompt] returns ([None] for NULL,
    after Escape), and whether [open], [ftruncate] and [write] succeed. *)
Record save_io := mk_save_io {
  prompt_answer : option string;
  open_ok : bool;
  ftruncate_ok : bool;
  write_ok : bool;
  strerror_errno : string
}.

(** [editorPrompt]: the keys typed at the prompt are read from the
    terminal inside the call; of its effects the model keeps the screen
    refresh (one [editorScroll]; further ones repeat it) and the status
    message it leaves, which is empty on both returns.  It stands for
    a call that returns, with the answer [io] gives; a call in which
    the key decoder dies or waits, or a key makes [iscntrl] undefined,
    is in [editorSave_keys] below, where the prompt is read key by key. *)
Definition editorPrompt (io : save_io) (E : editorConfig) : option (option string * editorConfig) :=
  E1 ← editorScroll E;
  Some (prompt_answer io, editorSetStatusMessage MsgEmpty E1).

(** [editorSave] from the call of [editorRowsToString] on. *)
Definition save_to_disk (io : save_io) (E : editorConfig) : editorConfig :=
  let '(buf, len) := editorRowsToString E in
  if open_ok io then
    if ftruncate_ok io && write_ok io
    then set_dirty 0 (editorSetStatusMessage (MsgBytesWritten len) E)
    else E
  else editorSetStatusMessage (MsgSaveError (strerror_errno io)) E.

Definition editorSave (io : save_io) (E : editorConfig) : option editorConfig :=
  match filename E with
  | None =>
      '(ans, E1) ← editorPrompt io E;
      match ans with
      | None => Some (editorSetStatusMessage MsgSaveAborted (set_filename None E1))
      | Some name => Some (save_to_disk io (set_filename (Some name) E1))
      end
  | Some _ => Some (save_to_disk io E)
  end.

(* ================================================================= *)
(** ** Input: cursor movement *)

(** [(E.cy >= E.numrows) ? NULL : &E.row[E.cy]]; [None] is NULL. *)
Definition cur_row_ptr (E : editorConfig) : option Z :=
  if cy E >=? numrows E then None else Some (cy E).

(** [row ? row->size : 0] for the row of the cursor. *)
Definition rowlen_of (E : editorConfig) : option Z :=
  match cur_row_ptr E with
  | None => Some 0
  | Some i => r ← row_at E i; Some (size r)
  end.

Definition editorMoveCursor (key : Z) (E : editorConfig) : option editorConfig :=
  let rowp := cur_row_ptr E in
  E1 ← (if key =? ARROW_LEFT then
          if negb (cx E =? 0) then Some (set_cx (cx E - 1) E)
          else if cy E >? 0 then
            let E' := set_cy (cy E - 1) E in
            r ← row_at E' (cy E');
            Some (set_cx (size r) E')
          else Some E
        else if key =? ARROW_RIGHT then
          match rowp with
          | None => Some E
          | Some i =>
              r ← row_at E i;
              if cx E <? size r then Some (set_cx (cx E + 1) E)
              else if cx E =? size r then Some (set_cx 0 (set_cy (cy E + 1) E))
              else Some E
          end
        else if key =? ARROW_UP then
          Some (if negb (cy E =? 0) then set_cy (cy E - 1) E else E)
        else if key =? ARROW_DOWN then
          Some (if cx E <? numrows E then set_cy (cy E + 1) E else E)
        else Some E);
  rowlen ← rowlen_of E1;
  Some (if cx E1 >? rowlen then set_cx rowlen E1 else E1).

(** [while (times--) editorMoveCursor(key);] for [times >= 0]. *)
Fixpoint move_times (times : nat) (key : Z) (E : editorConfig) : option editorConfig :=
  match times with
  | O => Some E
  | S times' => E' ← editorMoveCursor key E; move_times times' key E'
  end.

(* ================================================================= *)
(** ** Input: the key decoder *)

(** What one [read(STDIN_FILENO, &c, 1)] returns: a byte ([nread == 1]),
    nothing within the timeout ([nread == 0]), or [-1] with [errno]
    equal to [EAGAIN] or not. *)
Inductive read_result :=
  | ReadByte (c : Z)
  | ReadTimeout
  | ReadError (eagain : bool).

(** One [read] on the pending input.  The list is the finite part of
    the terminal's answers; once it is used up every read times out. *)
Definition read1 (inp : list read_result) : option Z * list read_result :=
  match inp with
  | ReadByte c :: rest => (Some c, rest)
  | _ :: rest => (None, rest)
  | [] => (None, [])
  end.

(** The switch on [seq[1]] after [ESC [ <digit> ~]. *)
Definition tilde_key (s1 : Z) : Z :=
  if s1 =? CH_1 then HOME_KEY
  else if s1 =? CH_3 then DEL_KEY
  else if s1 =? CH_4 then END_KEY
  else if s1 =? CH_5 then PAGE_UP
  else if s1 =? CH_6 then PAGE_DOWN
  else if s1 =? CH_7 then HOME_KEY
  else if s1 =? CH_8 then END_KEY
  else ESC.

(** The switch on [seq[1]] after [ESC []. *)
Definition bracket_key (s1 : Z) : Z :=
  if s1 =? CH_A then ARROW_UP
  else if s1 =? CH_B then ARROW_DOWN
  else if s1 =? CH_C then ARROW_RIGHT
  else if s1 =? CH_D then ARROW_LEFT
  else if s1 =? CH_H then HOME_KEY
  else if s1 =? CH_F then END_KEY
  else ESC.

(** The switch on [seq[1]] after [ESC O]. *)
Definition o_key (s1 : Z) : Z :=
  if s1 =? CH_H then HOME_KEY
  else if s1 =? CH_F then END_KEY
  else ESC.

(** The branch [if (c == '\x1b')] of [editorReadKey]: the key and the
    input left. *)
Definition read_escape (inp : list read_result) : Z * list read_result :=
  match read1 inp with
  | (None, r0) => (ESC, r0)
  | (Some s0, r0) =>
      match read1 r0 with
      | (None, r1) => (ESC, r1)
      | (Some s1, r1) =>
          if s0 =? LBRACKET then
            if (s1 >=? CH_0) && (s1 <=? CH_9) then
              match read1 r1 with
              | (None, r2) => (ESC, r2)
              | (Some s2, r2) =>
                  if s2 =? TILDE then (tilde_key s1, r2) else (ESC, r2)
              end
            else (bracket_key s1, r1)
          else if s0 =? CH_O then (o_key s1, r1)
          else (ESC, r1)
      end
  end.

(** The result of [editorReadKey]: a key with the input left, [die],
    or a wait that never ends (every further read times out). *)
Inductive key_result :=
  | Key (c : Z) (rest : list read_result)
  | Died
  | Blocked.

Fixpoint editorReadKey (inp : list read_result) : key_result :=
  match inp with
  | [] => Blocked
  | ReadByte c :: rest =>
      if c =? ESC then let '(k, r) := read_escape rest in Key k r
      else Key c rest
  | ReadTimeout :: rest => editorReadKey rest
  | ReadError eagain :: rest => if eagain then editorReadKey rest else Died
  end.

(* ================================================================= *)
(** ** Input: key dispatch *)

(** How a call of [editorProcessKeypress] ends: it returns to the main
    loop, the process exits, or the behaviour is undefined. *)
Inductive outcome :=
  | Running (E : editorConfig)
  | Exited (status : Z)
  | Undefined.

(** [break;] out of the switch, then [quit_times = KILO_QUIT_TIMES;]. *)
Definition break_switch (o : option editorConfig) : outcome :=
  match o with
  | Some E => Running (set_quit_times KILO_QUIT_TIMES E)
  | None => Undefined
  end.

(** The switch of [editorProcessKeypress] on the key [c] read. *)
Definition editorProcessKey (io : save_io) (c : Z) (E : editorConfig) : outcome :=
  if c =? CR then break_switch (editorInsertNewline E)
  else if c =? CTRL_KEY CH_q then
    if negb (dirty E =? 0) && (quit_times E >? 0) then
      Running (set_quit_times (quit_times E - 1)
                 (editorSetStatusMessage (MsgQuitWarning (quit_times E)) E))
    else Exited 0
  else if c =? CTRL_KEY CH_s then break_switch (editorSave io E)
  else if c =? HOME_KEY then break_switch (Some (set_cx 0 E))
  else if c =? END_KEY then
    break_switch (if cy E <? numrows E
                  then r ← row_at E (cy E); Some (set_cx (size r) E)
                  else Some E)
  else if (c =? BACKSPACE) || (c =? CTRL_KEY CH_h) || (c =? DEL_KEY) then
    break_switch (E1 ← (if c =? DEL_KEY then editorMoveCursor ARROW_RIGHT E else Some E);
                  editorDeleteChar E1)
  else if (c =? PAGE_UP) || (c =? PAGE_DOWN) then
    let E1 :=
      if c =? PAGE_UP then set_cy (rowoff E) E
      else
        let E' := set_cy (rowoff E + screenrows E - 1) E in
        if cy E' >? numrows E' then set_cy (numrows E') E' else E' in
    break_switch
      (if screenrows E1 <? 0 then None
       else move_times (Z.to_nat (screenrows E1))
                       (if c =? PAGE_UP then ARROW_UP else ARROW_DOWN) E1)
  else if (c =? ARROW_UP) || (c =? ARROW_DOWN) || (c =? ARROW_LEFT) || (c =? ARROW_RIGHT) then
    break_switch (editorMoveCursor c E)
  else if (c =? CTRL_KEY CH_l) || (c =? ESC) then break_switch (Some E)
  else break_switch (editorInsertChar c E).

(** [editorProcessKeypress]: read a key, then dispatch on it.  [None]
    is the wait for a key that never comes. *)
Definition editorProcessKeypress (io : save_io) (inp : list read_result) (E : editorConfig)
  : option (outcome * list read_result) :=
  match editorReadKey inp with
  | Key c rest => Some (editorProcessKey io c E, rest)
  | Died => Some (Exited 1, [])
  | Blocked => None
  end.

(** The quit command issued [n] times in a row. *)
Fixpoint press_quit (io : save_io) (n : nat) (E : editorConfig) : outcome :=
  match n with
  | O => Running E
  | S n' =>
      match editorProcessKey io (CTRL_KEY CH_q) E with
      | Running E' => press_quit io n' E'
      | o => o
      end
  end.

(* ================================================================= *)
(** ** Start-up *)

(** [initEditor] in a terminal of [rows] by [cols] cells, which
    [getWindowSize] reported. *)
Definition initEditor (rows cols : Z) : editorConfig :=
  mk_editor 0 0 0 0 0 (rows - 2) cols [] 0 None MsgEmpty KILO_QUIT_TIMES.

(* ================================================================= *)
(** ** The render form as the specification words it *)

(** Section 4.1: recomputation walks the raw bytes, expands each tab to
    pad to the next multiple of 8 visual columns, and appends all other
    bytes unchanged.  [col] is the visual column reached so far. *)
Fixpoint renderOf_from (col : nat) (raw : list Z) : list Z :=
  match raw with
  | [] => []
  | c :: raw' =>
      if c =? TAB then
        let pad := (8 - col mod 8)%nat in
        replicate pad SPACE ++ renderOf_from (col + pad) raw'
      else c :: renderOf_from (S col) raw'
  end.

Definition renderOf (raw : list Z) : list Z := renderOf_from 0 raw.

(** The cached render of a row is in sync with its raw bytes. *)
Definition row_in_sync (r : erow) : Prop :=
  render r = renderOf (chars r) ∧ rsize r = Z.of_nat (length (render r)).

(** Every cached render of the document is in sync. *)
Definition renders_in_sync (E : editorConfig) : Prop :=
  Forall row_in_sync (row E).

(** Section 4.1, [logicalToVisual]: for each tab byte the accumulator
    advances by [(8 - 1) - (acc mod 8)] then by one more, otherwise by one. *)
Definition logicalToVisual_step (acc : Z) (c : Z) : Z :=
  if c =? TAB then acc + ((8 - 1) - acc mod 8) + 1 else acc + 1.

Definition logicalToVisual (raw : list Z) (logicalCol : nat) : Z :=
  fold_left logicalToVisual_step (take logicalCol raw) 0.

(* ================================================================= *)
(** ** The decoding table as the specification words it *)

(** Section 4.3: the bytes that follow the escape byte, and the key
    event they decode to.
    [ESC [ <digit> ~]: 1/7 Home, 3 Delete, 4/8 End, 5 PageUp, 6 PageDown;
    [ESC [ A/B/C/D]: Up/Down/Right/Left; [ESC [ H], [ESC O H]: Home;
    [ESC [ F], [ESC O F]: End. *)
Definition spec_decoding_table : list (list Z * Z) :=
  [ ([LBRACKET; CH_1; TILDE], HOME_KEY);
    ([LBRACKET; CH_7; TILDE], HOME_KEY);
    ([LBRACKET; CH_3; TILDE], DEL_KEY);
    ([LBRACKET; CH_4; TILDE], END_KEY);
    ([LBRACKET; CH_8; TILDE], END_KEY);
    ([LBRACKET; CH_5; TILDE], PAGE_UP);
    ([LBRACKET; CH_6; TILDE], PAGE_DOWN);
    ([LBRACKET; CH_A], ARROW_UP);
    ([LBRACKET; CH_B], ARROW_DOWN);
    ([LBRACKET; CH_C], ARROW_RIGHT);
    ([LBRACKET; CH_D], ARROW_LEFT);
    ([LBRACKET; CH_H], HOME_KEY);
    ([CH_O; CH_H], HOME_KEY);
    ([LBRACKET; CH_F], END_KEY);
    ([CH_O; CH_F], END_KEY) ].

(** The pending input starts with the bytes [seq], each read at once. *)
Definition starts_with (seq : list Z) (inp : list read_result) : Prop :=
  ∃ rest, inp = map ReadByte seq ++ rest.

(* ================================================================= *)
(** ** Serialization as the specification words it *)

(** A line of a file, without its newline: it holds no newline, and
    no carriage return at its end. *)
Definition plain_line (l : list Z) : Prop :=
  (NEWLINE ∉ l) ∧ last l ≠ Some CR.

(** Section 6: the Document serialized as its lines joined by ['\n'],
    with a trailing newline after every line, the last included. *)
Definition spec_saveBytes (lines : list (list Z)) : list Z :=
  concat (map (λ l, l ++ [NEWLINE]) lines).

(* ================================================================= *)
(** ** The scroll clamp in closed form *)

(** The two [if]s of [editorScroll] on one axis: the offset [off]
    after them, for the cursor position [pos] and the extent [ext]. *)
Definition scroll_clamp (off pos ext : Z) : Z :=
  let off1 := if pos <? off then pos else off in
  if pos >=? off1 + ext then pos - ext + 1 else off1.

(** [E.rx] as [editorScroll] recomputes it. *)
Definition visual_column (E : editorConfig) : Z :=
  match row_at E (cy E) with
  | Some r => logicalToVisual (chars r) (Z.to_nat (cx E))
  | None => 0
  end.

(* ================================================================= *)
(** ** Edit sequences and reachable states *)

Inductive edit_op :=
  | InsertChar (c : Z)
  | DeleteCharBackward
  | InsertNewline.

Definition apply_op (op : edit_op) (E : editorConfig) : option editorConfig :=
  match op with
  | InsertChar c => editorInsertChar c E
  | DeleteCharBackward => editorDeleteChar E
  | InsertNewline => editorInsertNewline E
  end.

(** The states after each operation of the sequence, in order. *)
Fixpoint run_ops (ops : list edit_op) (E : editorConfig) : option (list editorConfig) :=
  match ops with
  | [] => Some []
  | op :: ops' =>
      E' ← apply_op op E;
      tr ← run_ops ops' E';
      Some (E' :: tr)
  end.

(** [rowlen] as [editorMoveCursor] computes it: the length of the
    cursor's line, 0 off the document. *)
Definition cursor_rowlen (E : editorConfig) : Z :=
  match row_at E (cy E) with
  | Some r => size r
  | None => 0
  end.

(** The Cursor invariant of the data model: the row indexes the
    document or is the virtual row one past its end, the column lies
    within the line (column 0 on the virtual row). *)
Definition cursor_ok (E : editorConfig) : Prop :=
  0 ≤ cy E ≤ numrows E ∧ 0 ≤ cx E ≤ cursor_rowlen E.

(** The states the program reaches between two keys: the start, a
    file loaded, a status message set ([main] sets the help message), a
    screen refresh, and any key processed that returns to the loop.
    Nothing is asked of the cursor: ARROW_DOWN and PAGE_DOWN can take
    it past the virtual row.  A save that opens the prompt is taken
    with every answer [io] can give, which covers every name the
    prompt can return. *)
Inductive reachable : editorConfig → Prop :=
  | reach_init rows cols : reachable (initEditor rows cols)
  | reach_open rows cols name content :
      reachable (editorOpen name content (initEditor rows cols))
  | reach_message msg E :
      reachable E → reachable (editorSetStatusMessage msg E)
  | reach_refresh E E' :
      reachable E → editorScroll E = Some E' → reachable E'
  | reach_key io c E E' :
      reachable E → editorProcessKey io c E = Running E' → reachable E'.

(* ================================================================= *)
(** ** The document as bytes, and the cursor within them *)

(** The bytes [editorSave] writes for the document. *)
Definition doc_bytes (E : editorConfig) : list Z := (editorRowsToString E).1.

(** The number of bytes of [doc_bytes] that lie before the cursor:
    the lines above it, each with its newline, and [cx] bytes of its line. *)
Definition cursor_offset (E : editorConfig) : nat :=
  (length (spec_saveBytes (map chars (take (Z.to_nat (cy E)) (row E))))
   + Z.to_nat (cx E))%nat.

(** The dirty counter of [E'] accounts for the document of [E']
    against [E]: it has not gone down, and it is the same only if the
    rows are the same. *)
Definition dirty_tracks (E E' : editorConfig) : Prop :=
  dirty E ≤ dirty E' ∧ (dirty E' = dirty E → row E' = row E).

(* ================================================================= *)
(** ** The allocation of the render buffer *)

(** The first loop of [editorUpdateRow]: [tabs] after the bytes [cs]. *)
Fixpoint count_tabs (cs : list Z) (tabs : Z) : Z :=
  match cs with
  | [] => tabs
  | c :: cs' => count_tabs cs' (if c =? TAB then tabs + 1 else tabs)
  end.

(** The number of bytes [editorUpdateRow] allocates for [render]:
    [row->size + tabs * (KILO_TAB_STOP - 1) + 1]. *)
Definition render_alloc (r : erow) : Z :=
  size r + count_tabs (chars r) 0 * (KILO_TAB_STOP - 1) + 1.

(* ================================================================= *)
(** ** Reads that make the key decoder wait *)

(** A read on which the first loop of [editorReadKey] goes round
    again: no byte, or [-1] with [errno == EAGAIN]. *)
Definition read_waits (t : read_result) : Prop :=
  t = ReadTimeout ∨ t = ReadError true.

(* ================================================================= *)
(** ** The prompt, key by key *)

(** [iscntrl] of <ctype.h> in the "C" locale (the program never calls
    [setlocale]): defined on [EOF] (-1) and on the values of
    [unsigned char], true on 0..31 and 127; undefined elsewhere. *)
Definition iscntrl (c : Z) : option bool :=
  if (c <? -1) || (c >? 255) then None
  else Some ((0 <=? c) && (c <? 32) || (c =? 127)).

(** How the loop of [editorPrompt] ends: it returns the buffer or NULL
    with the input left, the key decoder dies or waits forever, or the
    behaviour is undefined.  [PromptOutOfFuel] is the bound of the
    model on the number of keys, not a behaviour of the code. *)
Inductive prompt_result :=
  | PromptReturn (answer : option (list Z)) (rest : list read_result)
  | PromptDied
  | PromptBlocked
  | PromptUndefined
  | PromptOutOfFuel.

(** The [while (1)] loop of [editorPrompt] on the pending input, with
    [buf] the text typed so far ([buflen] is its length; the buffer
    grows as needed).  The status message and the screen refresh of
    each round are output only and are left out. *)
Fixpoint prompt_loop (fuel : nat) (buf : list Z) (inp : list read_result) : prompt_result :=
  match fuel with
  | O => PromptOutOfFuel
  | S fuel' =>
      match editorReadKey inp with
      | Died => PromptDied
      | Blocked => PromptBlocked
      | Key c rest =>
          let buf1 :=
            if (c =? DEL_KEY) || (c =? CTRL_KEY CH_h) || (c =? BACKSPACE)
            then (if negb (Z.of_nat (length buf) =? 0) then removelast buf else buf)
            else buf in
          if c =? ESC then PromptReturn None rest
          else if c =? CR then
            if negb (Z.of_nat (length buf1) =? 0) then PromptReturn (Some buf1) rest
            else prompt_loop fuel' buf1 rest
          else
            match iscntrl c with
            | None => PromptUndefined
            | Some b =>
                if negb b && (c <? 128)
                then prompt_loop fuel' (buf1 ++ [char_of_int c]) rest
                else prompt_loop fuel' buf1 rest
            end
      end
  end.

(** [editorPrompt] from its first round: every round reads at least
    one element of the input, so one more than its length bounds them. *)
Definition editorPrompt_keys (inp : list read_result) : prompt_result :=
  prompt_loop (S (length inp)) [] inp.

(** A byte that the prompt takes as text: not a control character,
    in the ASCII range. *)
Definition printable (c : Z) : Prop := 32 ≤ c ≤ 126.

(* ================================================================= *)
(** ** Saving, with the prompt read key by key *)

(** The C string of the bytes typed at the prompt. *)
Definition string_of_bytes (bs : list Z) : string :=
  String.string_of_list_ascii (map (λ c, Ascii.ascii_of_N (Z.to_N (c mod 256))) bs).

(** How a call of [editorSave] ends on the pending input: it returns
    with the input left, the key decoder of the prompt dies or waits
    forever, or the behaviour is undefined.  [SaveOutOfFuel] is the
    bound of the prompt's model. *)
Inductive save_result :=
  | SaveReturns (E : editorConfig) (rest : list read_result)
  | SaveDied
  | SaveWaits
  | SaveUndefined
  | SaveOutOfFuel.

(** [editorSave] with the loop of [editorPrompt] run on the input.
    Every round of the prompt refreshes the screen, which is
    [editorScroll] on the state (the rounds after the first repeat
    it), and sets a message that the empty message replaces on return. *)
Definition editorSave_keys (io : save_io) (inp : list read_result) (E : editorConfig)
  : save_result :=
  match filename E with
  | Some _ => SaveReturns (save_to_disk io E) inp
  | None =>
      match editorScroll E with
      | None => SaveUndefined
      | Some E1 =>
          match editorPrompt_keys inp with
          | PromptReturn None rest =>
              SaveReturns (editorSetStatusMessage MsgSaveAborted
                             (set_filename None (editorSetStatusMessage MsgEmpty E1))) rest
          | PromptReturn (Some name) rest =>
              SaveReturns (save_to_disk io
                             (set_filename (Some (string_of_bytes name))
                                (editorSetStatusMessage MsgEmpty E1))) rest
          | PromptDied => SaveDied
          | PromptBlocked => SaveWaits
          | PromptUndefined => SaveUndefined
          | PromptOutOfFuel => SaveOutOfFuel
          end
      end
  end.

(** What the part of [editorSave] after the name is known leaves in
    [E'], for the state [E] it starts from: the three ways [open],
    [ftruncate] and [write] can go. *)
Definition disk_outcome (io : save_io) (E E' : editorConfig) : Prop :=
  (open_ok io = true → ftruncate_ok io = true → write_ok io = true →
     dirty E' = 0
     ∧ statusmsg E' = MsgBytesWritten (Z.of_nat (length (doc_bytes E))))
  ∧ (open_ok io = false →
       dirty E' = dirty E ∧ statusmsg E' = MsgSaveError (strerror_errno io))
  ∧ (open_ok io = true → ftruncate_ok io && write_ok io = false →
       dirty E' = dirty E ∧ statusmsg E' = statusmsg E).

(* ================================================================= *)
(** ** Output: the append buffer and the screen *)

(** The bytes of a string literal or of a file name, as [char]s. *)
Definition bytes_of_string (s : string) : list Z :=
  map (λ a, char_of_int (Z.of_N (Ascii.N_of_ascii a))) (String.list_ascii_of_string s).

(** [abAppend(ab, s, len)] with [s] the bytes readable at the source
    pointer: [len] of them are copied to the end of the buffer
    ([realloc] is taken to succeed).  A negative [len], or one past
    what [s] holds, is undefined. *)
Definition abAppend (ab s : list Z) (len : Z) : option (list Z) :=
  if (len <? 0) || (Z.of_nat (length s) <? len) then None
  else Some (ab ++ take (Z.to_nat len) s).

Definition ERASE_LINE : list Z := [27; 91; 75].        (* "\x1b[K" *)
Definition CRLF : list Z := [13; 10].                  (* "\r\n" *)
Definition INVERT : list Z := [27; 91; 55; 109].       (* "\x1b[7m" *)
Definition NORMAL : list Z := [27; 91; 109].           (* "\x1b[m" *)

(** What [snprintf] writes for "Kilo editor -- version %s" with
    [KILO_VERSION]: 28 bytes, within the 80 of [welcome]. *)
Definition welcome_text : list Z := bytes_of_string "Kilo editor -- version 0.0.1".

(** [while (padding--) abAppend(ab, " ", 1);] for a count that is not
    negative. *)
Fixpoint pad_spaces (n : nat) (ab : list Z) : option (list Z) :=
  match n with
  | O => Some ab
  | S n' => ab' ← abAppend ab [SPACE] 1; pad_spaces n' ab'
  end.

(** The welcome line of [editorDrawRows].  [welcomelen] is at most
    [screencols], so [padding] is never negative. *)
Definition draw_welcome (E : editorConfig) (ab : list Z) : option (list Z) :=
  let welcomelen := Z.of_nat (length welcome_text) in
  let welcomelen := if welcomelen >? screencols E then screencols E else welcomelen in
  let padding := (screencols E - welcomelen) ÷ 2 in
  ab1 ← (if padding =? 0 then Some ab else abAppend ab [TILDE] 1);
  let padding := if padding =? 0 then padding else padding - 1 in
  ab2 ← pad_spaces (Z.to_nat padding) ab1;
  abAppend ab2 welcome_text welcomelen.

(** One round of the loop of [editorDrawRows], for the screen line [y].
    [&E.row[filerow].render[E.coloff]] holds what is left of the render
    from column [coloff]; nothing is read of it when [len] is 0. *)
Definition draw_row (E : editorConfig) (y : Z) (ab : list Z) : option (list Z) :=
  let filerow := y + rowoff E in
  ab1 ← (if filerow >=? numrows E then
           if (y =? screenrows E ÷ 3) && (numrows E =? 0) then draw_welcome E ab
           else abAppend ab [TILDE] 1
         else
           r ← row_at E filerow;
           let len := rsize r - coloff E in
           let len := if len <? 0 then 0 else len in
           let len := if len >? screencols E then screencols E else len in
           if coloff E <? 0 then None
           else abAppend ab (drop (Z.to_nat (coloff E)) (render r)) len);
  ab2 ← abAppend ab1 ERASE_LINE 3;
  abAppend ab2 CRLF 2.

Fixpoint draw_rows_loop (n : nat) (y : Z) (E : editorConfig) (ab : list Z)
  : option (list Z) :=
  match n with
  | O => Some ab
  | S n' => ab' ← draw_row E y ab; draw_rows_loop n' (y + 1) E ab'
  end.

Definition editorDrawRows (E : editorConfig) (ab : list Z) : option (list Z) :=
  draw_rows_loop (Z.to_nat (screenrows E)) 0 E ab.

(** [%d]: the decimal digits of a number that is not negative, the
    last one first into [acc].  A number has no more digits than bits,
    which bounds the rounds. *)
Fixpoint digits (fuel : nat) (n : Z) (acc : list Z) : list Z :=
  match fuel with
  | O => acc
  | S fuel' =>
      let acc' := (CH_0 + n mod 10) :: acc in
      if n / 10 =? 0 then acc' else digits fuel' (n / 10) acc'
  end.

Definition fmt_d (n : Z) : list Z :=
  if n <? 0 then 45 :: digits (S (Z.to_nat (Z.log2 (- n)))) (- n) []
  else digits (S (Z.to_nat (Z.log2 n))) n [].

(** [snprintf(buf, 80, ...)] for the text [s] the format gives: what
    the buffer holds before its NUL, and the length returned. *)
Definition snprintf80 (s : list Z) : list Z * Z :=
  (take 79 s, Z.of_nat (length s)).

(** "%.20s - %d lines %s" of [editorDrawStatusBar]. *)
Definition status_text (E : editorConfig) : list Z :=
  take 20 (bytes_of_string (default "[No Name]"%string (filename E)))
  ++ bytes_of_string " - " ++ fmt_d (numrows E) ++ bytes_of_string " lines "
  ++ (if dirty E =? 0 then [] else bytes_of_string "(modified)").

(** "%d/%d" of [editorDrawStatusBar]. *)
Definition rstatus_text (E : editorConfig) : list Z :=
  fmt_d (cy E + 1) ++ bytes_of_string "/" ++ fmt_d (numrows E).

(** The [while (len < E.screencols)] loop of [editorDrawStatusBar].
    [None] at the end of the fuel is the bound of the model. *)
Fixpoint status_pad (fuel : nat) (len screencols0 : Z) (rstatus : list Z) (rlen : Z)
    (ab : list Z) : option (list Z) :=
  match fuel with
  | O => None
  | S fuel' =>
      if len <? screencols0 then
        if screencols0 - len =? rlen then abAppend ab rstatus rlen
        else ab' ← abAppend ab [SPACE] 1;
             status_pad fuel' (len + 1) screencols0 rstatus rlen ab'
      else Some ab
  end.

Definition editorDrawStatusBar (E : editorConfig) (ab : list Z) : option (list Z) :=
  ab1 ← abAppend ab INVERT 4;
  let '(status, len) := snprintf80 (status_text E) in
  let '(rstatus, rlen) := snprintf80 (rstatus_text E) in
  let len := if len >? screencols E then screencols E else len in
  ab2 ← abAppend ab1 status len;
  ab3 ← status_pad (S (Z.to_nat (screencols E - len))) len (screencols E) rstatus rlen ab2;
  ab4 ← abAppend ab3 NORMAL 3;
  abAppend ab4 CRLF 2.

(** The number a string of decimal digits denotes. *)
Definition decimal_value (ds : list Z) : Z :=
  fold_left (λ a d, 10 * a + (d - CH_0)) ds 0.

(* ================================================================= *)
(** ** The main loop *)

(** How the loop of [main] goes on the pending input: it waits for a
    key that never comes, in the state shown; the process exits; or the
    behaviour is undefined.  [MainOutOfFuel] is the bound of the model
    on the number of rounds. *)
Inductive main_result :=
  | MainWaits (E : editorConfig)
  | MainExited (status : Z)
  | MainUndefined
  | MainOutOfFuel.

(** [while (1) { editorRefreshScreen(); editorProcessKeypress(); }].
    Of [editorRefreshScreen] the state keeps [editorScroll]; what it
    writes is given by [editorDrawRows] and [editorDrawStatusBar].
    The answers of a save come from [io], as in [editorSave]. *)
Fixpoint main_loop (fuel : nat) (io : save_io) (inp : list read_result) (E : editorConfig)
  : main_result :=
  match fuel with
  | O => MainOutOfFuel
  | S fuel' =>
      match editorScroll E with
      | None => MainUndefined
      | Some E1 =>
          match editorProcessKeypress io inp E1 with
          | None => MainWaits E1
          | Some (Running E2, rest) => main_loop fuel' io rest E2
          | Some (Exited status, _) => MainExited status
          | Some (Undefined, _) => MainUndefined
          end
      end
  end.

(** The byte a text key puts in the file: Enter gives a newline. *)
Definition typed_byte (c : Z) : Z := if c =? CR then NEWLINE else c.

(* ================================================================= *)
(** * Properties *)

(** ** Tab expansion and coordinate translation *)

Lemma cxtorx_step_spec acc c :
  0 ≤ acc → cxtorx_step acc c = logicalToVisual_step acc c.
Proof.
  intros Hacc. unfold cxtorx_step, logicalToVisual_step, KILO_TAB_STOP.
  rewrite Z.rem_mod_nonneg by lia. destruct (c =? TAB); lia.
Qed.

Lemma logicalToVisual_step_grows acc c :
  0 ≤ acc → acc < logicalToVisual_step acc c.
Proof.
  intros Hacc. unfold logicalToVisual_step.
  pose proof (Z.mod_pos_bound acc 8). destruct (c =? TAB); lia.
Qed.

Lemma fold_logicalToVisual_bounds l acc :
  0 ≤ acc → acc + Z.of_nat (length l) ≤ fold_left logicalToVisual_step l acc.
Proof.
  revert acc. induction l as [|c l IH]; intros acc Hacc; simpl; [lia|].
  pose proof (logicalToVisual_step_grows acc c Hacc).
  specialize (IH (logicalToVisual_step acc c)). lia.
Qed.

Lemma cxtorx_loop_spec cs n : ∀ j acc,
  0 ≤ acc → (j + n ≤ length cs)%nat →
  cxtorx_loop cs j n acc
  = Some (fold_left logicalToVisual_step (take n (drop j cs)) acc).
Proof.
  induction n as [|n IH]; intros j acc Hacc Hlen; simpl; [done|].
  destruct (lookup_lt_is_Some_2 cs j) as [c Hc]; [lia|].
  unfold char_at. rewrite lookup_app_l by lia. rewrite Hc. simpl.
  rewrite (drop_S cs c j Hc). simpl.
  rewrite <- cxtorx_step_spec by done.
  apply IH; [|lia].
  rewrite cxtorx_step_spec by done.
  pose proof (logicalToVisual_step_grows acc c Hacc). lia.
Qed.

Lemma editorRowCxtoRx_spec r cx0 :
  cx0 ≤ size r →
  editorRowCxtoRx r cx0 = Some (logicalToVisual (chars r) (Z.to_nat cx0)).
Proof.
  intros Hcx. unfold editorRowCxtoRx, logicalToVisual, size in *.
  rewrite cxtorx_loop_spec by lia. by rewrite drop_0.
Qed.

Lemma logicalToVisual_nonneg raw n : 0 ≤ logicalToVisual raw n.
Proof.
  unfold logicalToVisual.
  pose proof (fold_logicalToVisual_bounds (take n raw) 0). lia.
Qed.

Lemma logicalToVisual_mono raw n1 n2 :
  (n1 ≤ n2)%nat → logicalToVisual raw n1 ≤ logicalToVisual raw n2.
Proof.
  intros Hle. unfold logicalToVisual.
  replace n2 with (n1 + (n2 - n1))%nat by lia.
  rewrite <- take_take_drop, fold_left_app.
  pose proof (logicalToVisual_nonneg raw n1) as H0. unfold logicalToVisual in H0.
  pose proof (fold_logicalToVisual_bounds (take (n2 - n1) (drop n1 raw)) _ H0).
  lia.
Qed.

Lemma mod8_succ (n : nat) :
  (n mod 8 ≠ 7 → (n + 1) mod 8 = n mod 8 + 1)%nat
  ∧ (n mod 8 = 7 → (n + 1) mod 8 = 0)%nat
  ∧ (n mod 8 < 8)%nat.
Proof.
  pose proof (Nat.mod_upper_bound n 8 ltac:(lia)).
  rewrite (Nat.Div0.add_mod n 1 8).
  change (1 mod 8)%nat with 1%nat.
  split; [|split]; [| |lia].
  - intros. apply Nat.mod_small. lia.
  - intros ->. done.
Qed.

(** The padding loop stops on a multiple of the tab stop before its
    fuel of [KILO_TAB_STOP] iterations is used up. *)
Lemma pad_loop_spec fuel : ∀ buf k,
  k = ((8 - length buf mod 8) mod 8)%nat →
  (k ≤ fuel)%nat →
  pad_loop fuel buf (Z.of_nat (length buf))
  = (buf ++ replicate k SPACE, Z.of_nat (length buf + k)).
Proof.
  induction fuel as [|fuel IH]; intros buf k Hk Hfuel.
  - assert (k = 0%nat) as -> by lia. simpl. by rewrite app_nil_r, Nat.add_0_r.
  - cbn [pad_loop]. unfold KILO_TAB_STOP. rewrite Z.rem_mod_nonneg by lia.
    change 8 with (Z.of_nat 8). rewrite <- Nat2Z.inj_mod.
    destruct (mod8_succ (length buf)) as (H1 & H2 & H3).
    destruct (Z.eqb_spec (Z.of_nat (length buf mod 8)) 0) as [Hz|Hnz].
    + assert (k = 0%nat) as ->.
      { subst k. assert (length buf mod 8 = 0)%nat as -> by lia. done. }
      simpl. by rewrite app_nil_r, Nat.add_0_r.
    + rewrite (Nat.mod_small (8 - length buf mod 8)) in Hk by lia.
      replace (Z.of_nat (length buf) + 1) with (Z.of_nat (length (buf ++ [SPACE])))
        by (rewrite length_app; simpl; lia).
      rewrite (IH (buf ++ [SPACE]) (k - 1)%nat); [| |lia].
      * rewrite length_app. cbn [length].
        f_equal; [|lia]. rewrite <- app_assoc. f_equal.
        destruct k; [lia|]. simpl. by rewrite Nat.sub_0_r.
      * rewrite length_app. cbn [length].
        destruct (decide (length buf mod 8 = 7)%nat) as [H7|H7].
        -- rewrite H2 by done. subst k. rewrite H7. done.
        -- rewrite H1 by done.
           rewrite (Nat.mod_small (8 - (length buf mod 8 + 1))) by lia. lia.
Qed.

Lemma update_loop_spec cs : ∀ buf,
  update_loop cs buf (Z.of_nat (length buf))
  = (buf ++ renderOf_from (length buf) cs,
     Z.of_nat (length (buf ++ renderOf_from (length buf) cs))).
Proof.
  induction cs as [|c cs IH]; intros buf; cbn [update_loop renderOf_from].
  - by rewrite app_nil_r.
  - destruct (c =? TAB).
    + destruct (mod8_succ (length buf)) as (H1 & H2 & H3).
      assert (∃ k, ((8 - (length buf + 1) mod 8) mod 8 = k
                    ∧ 8 - length buf mod 8 = S k ∧ k ≤ 7)%nat) as (k & Hk & Hk' & Hk7).
      { eexists; split; [done|].
        destruct (decide (length buf mod 8 = 7)%nat) as [H7|H7].
        - rewrite H2, H7 by done. change ((8 - 0) mod 8)%nat with 0%nat. lia.
        - rewrite H1 by done.
          rewrite (Nat.mod_small (8 - (length buf mod 8 + 1))) by lia. lia. }
      replace (Z.of_nat (length buf) + 1) with (Z.of_nat (length (buf ++ [SPACE])))
        by (rewrite length_app; simpl; lia).
      rewrite (pad_loop_spec _ (buf ++ [SPACE]) k).
      * rewrite Hk'.
        replace (Z.of_nat (length (buf ++ [SPACE]) + k))
          with (Z.of_nat (length ((buf ++ [SPACE]) ++ replicate k SPACE)))
          by (rewrite !length_app, length_replicate; done).
        rewrite IH. rewrite !length_app, length_replicate. cbn [length].
        replace (length buf + 1 + k)%nat with (length buf + S k)%nat by lia.
        cbn [replicate]. rewrite <- !app_assoc.
        f_equal. cbn [length]. rewrite length_replicate. lia.
      * rewrite length_app. cbn [length]. done.
      * unfold KILO_TAB_STOP. lia.
    + replace (Z.of_nat (length buf) + 1) with (Z.of_nat (length (buf ++ [c])))
        by (rewrite length_app; simpl; lia).
      rewrite IH. rewrite length_app. cbn [length].
      rewrite Nat.add_1_r. rewrite <- !app_assoc. done.
Qed.

Lemma update_loop_start cs :
  update_loop cs [] 0
  = (renderOf cs, Z.of_nat (length (renderOf cs))).
Proof. exact (update_loop_spec cs []). Qed.

(** [editorUpdateRow] keeps the raw bytes and leaves the row in sync. *)
Lemma editorUpdateRow_chars r : chars (editorUpdateRow r) = chars r.
Proof. unfold editorUpdateRow. by rewrite update_loop_start. Qed.

Lemma editorUpdateRow_render r : render (editorUpdateRow r) = renderOf (chars r).
Proof. unfold editorUpdateRow. by rewrite update_loop_start. Qed.

Lemma editorUpdateRow_in_sync r : row_in_sync (editorUpdateRow r).
Proof.
  unfold row_in_sync. rewrite editorUpdateRow_chars, editorUpdateRow_render.
  split; [done|]. unfold editorUpdateRow. by rewrite update_loop_start.
Qed.

Lemma editorUpdateRow_size r : size (editorUpdateRow r) = size r.
Proof. unfold size. by rewrite editorUpdateRow_chars. Qed.

(** C5. For every line and every logical column [cx0] in [0, line
    length], [editorRowCxtoRx] walks the bytes [0, cx0) and advances
    the accumulator by [(8 - 1) - (acc mod 8)] plus one for a tab byte
    and by one for any other byte; a line that is a single tab byte
    renders as exactly 8 spaces and its column 1 maps to 8; the mapping
    is monotonic in the column. *)
Theorem editorRowCxtoRx_walks_tabs :
  (∀ r cx0, 0 ≤ cx0 ≤ size r →
     editorRowCxtoRx r cx0
     = Some (fold_left logicalToVisual_step (take (Z.to_nat cx0) (chars r)) 0))
  ∧ (∀ r, chars r = [TAB] →
       render (editorUpdateRow r) = replicate 8 SPACE
       ∧ rsize (editorUpdateRow r) = 8
       ∧ editorRowCxtoRx r 1 = Some 8)
  ∧ (∀ r cx1 cx2, 0 ≤ cx1 → cx1 ≤ cx2 → cx2 ≤ size r →
       ∃ v1 v2, editorRowCxtoRx r cx1 = Some v1
                ∧ editorRowCxtoRx r cx2 = Some v2 ∧ v1 ≤ v2).
Proof.
  split; [|split].
  - intros r cx0 Hcx. apply editorRowCxtoRx_spec. lia.
  - intros [cs rs rd] Hcs. simpl in Hcs. subst cs. done.
  - intros r cx1 cx2 H0 H12 H2.
    exists (logicalToVisual (chars r) (Z.to_nat cx1)),
           (logicalToVisual (chars r) (Z.to_nat cx2)).
    rewrite !editorRowCxtoRx_spec by lia.
    split; [done|]. split; [done|]. apply logicalToVisual_mono. lia.
Qed.

Lemma editorRowCxtoRx_walks_tabs_witness :
  editorRowCxtoRx (mk_erow [97; TAB; 98] 0 []) 2 = Some 8
  ∧ ∃ v1 v2, editorRowCxtoRx (mk_erow [97; TAB; 98] 0 []) 1 = Some v1
             ∧ editorRowCxtoRx (mk_erow [97; TAB; 98] 0 []) 3 = Some v2 ∧ v1 ≤ v2.
Proof.
  destruct editorRowCxtoRx_walks_tabs as (Hwalk & _ & Hmono).
  split.
  - rewrite (Hwalk (mk_erow [97; TAB; 98] 0 []) 2); [reflexivity|].
    unfold size; simpl; lia.
  - apply (Hmono (mk_erow [97; TAB; 98] 0 []) 1 3); unfold size; simpl; lia.
Defined.

(* ================================================================= *)
(** ** Field access through the setters and row lookup *)

Lemma row_at_Some E i r :
  row_at E i = Some r ↔ 0 ≤ i ∧ row E !! Z.to_nat i = Some r.
Proof.
  unfold row_at. destruct (Z.ltb_spec i 0) as [Hi|Hi].
  - split; [done|]. intros [? _]. lia.
  - split; [|by intros [_ ?]]. intros ?. split; [lia|done].
Qed.

Lemma row_at_lt E i r : row_at E i = Some r → 0 ≤ i < numrows E.
Proof.
  intros [Hi Hl]%row_at_Some. apply lookup_lt_Some in Hl.
  unfold numrows. lia.
Qed.

Lemma row_at_is_Some E i : 0 ≤ i < numrows E → ∃ r, row_at E i = Some r.
Proof.
  unfold numrows. intros Hi.
  destruct (lookup_lt_is_Some_2 (row E) (Z.to_nat i)) as [r Hr]; [lia|].
  exists r. apply row_at_Some. split; [lia|done].
Qed.

Lemma row_at_None E i : numrows E ≤ i → row_at E i = None.
Proof.
  unfold numrows, row_at. intros Hi.
  destruct (Z.ltb_spec i 0); [done|]. apply lookup_ge_None. lia.
Qed.

Lemma length_insert_at {A} n (x : A) l :
  (n ≤ length l)%nat → length (insert_at n x l) = S (length l).
Proof.
  intros Hn. unfold insert_at.
  rewrite length_app, length_take. simpl. rewrite length_drop. lia.
Qed.

Lemma Forall_insert_at {A} (P : A → Prop) n x l :
  Forall P l → P x → Forall P (insert_at n x l).
Proof.
  intros Hl Hx. unfold insert_at. apply Forall_app. split.
  - by apply Forall_take.
  - constructor; [done|]. by apply Forall_drop.
Qed.

(* ================================================================= *)
(** ** The render cache under the row and editor operations *)

Lemma editorInsertRow_sync at0 s E :
  renders_in_sync E → renders_in_sync (editorInsertRow at0 s E).
Proof.
  unfold renders_in_sync, editorInsertRow. intros HE.
  destruct (_ || _); [done|]. simpl.
  apply Forall_insert_at; [done|]. apply editorUpdateRow_in_sync.
Qed.

Lemma editorDelRow_sync at0 E :
  renders_in_sync E → renders_in_sync (editorDelRow at0 E).
Proof.
  unfold renders_in_sync, editorDelRow. intros HE.
  destruct (_ || _); [done|]. simpl. by apply Forall_delete.
Qed.

Lemma editorRowInsertChar_sync ri at0 c E E' :
  editorRowInsertChar ri at0 c E = Some E' →
  renders_in_sync E → renders_in_sync E'.
Proof.
  unfold renders_in_sync, editorRowInsertChar. intros Hop HE.
  destruct (row_at E ri) as [r|]; simplify_eq/=.
  apply Forall_insert; [done|]. apply editorUpdateRow_in_sync.
Qed.

Lemma editorRowAppendString_sync ri s E E' :
  editorRowAppendString ri s E = Some E' →
  renders_in_sync E → renders_in_sync E'.
Proof.
  unfold renders_in_sync, editorRowAppendString. intros Hop HE.
  destruct (row_at E ri) as [r|]; simplify_eq/=.
  apply Forall_insert; [done|]. apply editorUpdateRow_in_sync.
Qed.

Lemma editorRowDelChar_sync ri at0 E E' :
  editorRowDelChar ri at0 E = Some E' →
  renders_in_sync E → renders_in_sync E'.
Proof.
  unfold renders_in_sync, editorRowDelChar. intros Hop HE.
  destruct (row_at E ri) as [r|]; simplify_eq/=.
  destruct (_ || _); simplify_eq/=; [done|].
  apply Forall_insert; [done|]. apply editorUpdateRow_in_sync.
Qed.

Lemma editorInsertChar_sync c E E' :
  editorInsertChar c E = Some E' →
  renders_in_sync E → renders_in_sync E'.
Proof.
  unfold editorInsertChar. intros Hop HE.
  destruct (editorRowInsertChar _ _ _ _) as [E2|] eqn:H2; simplify_eq/=.
  apply editorRowInsertChar_sync in H2; [done|].
  destruct (_ =? _); [|done]. by apply editorInsertRow_sync.
Qed.

Lemma editorInsertNewline_sync E E' :
  editorInsertNewline E = Some E' →
  renders_in_sync E → renders_in_sync E'.
Proof.
  unfold editorInsertNewline. intros Hop HE.
  destruct (cx E =? 0); simplify_eq/=.
  { by apply editorInsertRow_sync. }
  destruct (row_at E (cy E)) as [r|]; simplify_eq/=.
  destruct (_ || _); simplify_eq/=.
  destruct (row_at _ _) as [r'|]; simplify_eq/=.
  unfold renders_in_sync. simpl.
  apply Forall_insert; [|apply editorUpdateRow_in_sync].
  by apply editorInsertRow_sync.
Qed.

Lemma editorDeleteChar_sync E E' :
  editorDeleteChar E = Some E' →
  renders_in_sync E → renders_in_sync E'.
Proof.
  unfold editorDeleteChar. intros Hop HE.
  destruct (cy E =? numrows E); simplify_eq/=; [done|].
  destruct (_ && _); simplify_eq/=; [done|].
  destruct (cx E >? 0).
  - destruct (editorRowDelChar _ _ _) as [E1|] eqn:H1; simplify_eq/=.
    by apply editorRowDelChar_sync in H1.
  - destruct (row_at E (cy E - 1)) as [prev|]; simplify_eq/=.
    destruct (row_at E (cy E)) as [cur|]; simplify_eq/=.
    destruct (editorRowAppendString _ _ _) as [E2|] eqn:H2; simplify_eq/=.
    apply editorRowAppendString_sync in H2; [|done].
    by apply editorDelRow_sync.
Qed.


(* ================================================================= *)
(** ** The cursor invariant *)

Lemma size_nonneg r : 0 ≤ size r.
Proof. unfold size. lia. Qed.

Lemma cursor_ok_cases E :
  cursor_ok E →
  (cy E = numrows E ∧ cx E = 0)
  ∨ (∃ r, row_at E (cy E) = Some r ∧ 0 ≤ cx E ≤ size r ∧ 0 ≤ cy E < numrows E).
Proof.
  unfold cursor_ok, cursor_rowlen. intros [Hcy Hcx].
  destruct (row_at E (cy E)) as [r|] eqn:Hr.
  - right. exists r. split; [done|]. split; [done|]. by apply row_at_lt in Hr.
  - left. split; [|lia].
    destruct (decide (cy E = numrows E)) as [|Hne]; [done|].
    destruct (row_at_is_Some E (cy E)) as [r' Hr']; [lia|]. congruence.
Qed.

Lemma cursor_ok_row E r :
  row_at E (cy E) = Some r → 0 ≤ cx E ≤ size r → cursor_ok E.
Proof.
  intros Hr Hcx. unfold cursor_ok, cursor_rowlen. rewrite Hr.
  apply row_at_lt in Hr. lia.
Qed.

Lemma cursor_ok_end E :
  0 ≤ cy E ≤ numrows E → cx E = 0 → cursor_ok E.
Proof.
  intros Hcy Hcx. unfold cursor_ok, cursor_rowlen. split; [done|].
  rewrite Hcx. destruct (row_at E (cy E)) as [r|]; [|done].
  pose proof (size_nonneg r). lia.
Qed.

Lemma editorRowInsertChar_in_range E r at0 c :
  row_at E (cy E) = Some r → 0 ≤ at0 ≤ size r →
  editorRowInsertChar (cy E) at0 c E
  = Some (set_dirty (dirty E + 1)
            (set_row (<[Z.to_nat (cy E) :=
                         editorUpdateRow
                           (mk_erow (insert_at (Z.to_nat at0) (char_of_int c) (chars r))
                                    (rsize r) (render r))]> (row E)) E)).
Proof.
  intros Hr Hat. unfold editorRowInsertChar. rewrite Hr. simpl.
  destruct (Z.ltb_spec at0 0); [lia|].
  destruct (Z.gtb_spec at0 (size r)); [lia|]. done.
Qed.

Lemma editorDeleteChar_in_line E r :
  row_at E (cy E) = Some r → 0 < cx E ≤ size r →
  editorDeleteChar E
  = Some (set_cx (cx E - 1)
            (set_dirty (dirty E + 1)
               (set_row (<[Z.to_nat (cy E) :=
                            editorUpdateRow
                              (mk_erow (delete (Z.to_nat (cx E - 1)) (chars r))
                                       (rsize r) (render r))]> (row E)) E))).
Proof.
  intros Hr Hcx. pose proof (row_at_lt _ _ _ Hr) as Hcy.
  unfold editorDeleteChar.
  destruct (Z.eqb_spec (cy E) (numrows E)); [lia|].
  destruct (Z.eqb_spec (cx E) 0); [lia|]. simpl.
  destruct (Z.gtb_spec (cx E) 0); [|lia].
  unfold editorRowDelChar. rewrite Hr. simpl.
  destruct (Z.ltb_spec (cx E - 1) 0); [lia|].
  destruct (Z.geb_spec (cx E - 1) (size r)); [lia|]. done.
Qed.

Lemma editorDeleteChar_join E prev cur :
  cx E = 0 → 0 < cy E →
  row_at E (cy E - 1) = Some prev → row_at E (cy E) = Some cur →
  editorDeleteChar E
  = Some (set_cy (cy E - 1)
            (set_cx (size prev)
               (set_dirty (dirty E + 1 + 1)
                  (set_row (delete (Z.to_nat (cy E))
                              (<[Z.to_nat (cy E - 1) :=
                                   editorUpdateRow
                                     (mk_erow (chars prev ++ chars cur)
                                              (rsize prev) (render prev))]> (row E)))
                           E)))).
Proof.
  intros Hcx Hcy Hprev Hcur. pose proof (row_at_lt _ _ _ Hcur) as Hlt.
  unfold editorDeleteChar.
  destruct (Z.eqb_spec (cy E) (numrows E)); [lia|].
  destruct (Z.eqb_spec (cy E) 0); [lia|]. rewrite andb_false_r.
  destruct (Z.gtb_spec (cx E) 0); [lia|].
  rewrite Hprev, Hcur. simpl.
  unfold editorRowAppendString. simpl.
  replace (row_at (set_cx (size prev) E) (cy E - 1)) with (Some prev)
    by (symmetry; apply row_at_Some; apply row_at_Some in Hprev; done).
  simpl. unfold editorDelRow, numrows in *. simpl.
  rewrite length_insert.
  destruct (Z.ltb_spec (cy E) 0); [lia|].
  destruct (Z.geb_spec (cy E) (Z.of_nat (length (row E)))); [lia|]. done.
Qed.

Lemma insert_at_end {A} (x : A) l : insert_at (length l) x l = l ++ [x].
Proof. unfold insert_at. by rewrite take_ge, drop_ge by lia. Qed.

Lemma editorInsertRow_in_range at0 s E :
  0 ≤ at0 ≤ numrows E →
  editorInsertRow at0 s E
  = set_dirty (dirty E + 1)
      (set_row (insert_at (Z.to_nat at0) (editorUpdateRow (mk_erow s 0 [])) (row E)) E).
Proof.
  intros Hat. unfold editorInsertRow.
  destruct (Z.ltb_spec at0 0); [lia|].
  destruct (Z.gtb_spec at0 (numrows E)); [lia|]. done.
Qed.

Lemma editorInsertChar_cursor_ok c E :
  cursor_ok E → ∃ E', editorInsertChar c E = Some E' ∧ cursor_ok E'.
Proof.
  intros Hok. unfold editorInsertChar.
  destruct (cursor_ok_cases E Hok) as [[Hcy Hcx]|(r & Hr & Hcx & Hcy)].
  - rewrite Hcy, Z.eqb_refl.
    rewrite editorInsertRow_in_range by (unfold numrows; lia).
    unfold numrows in *. rewrite Nat2Z.id, insert_at_end.
    set (E1 := set_dirty _ _).
    assert (row_at E1 (cy E1) = Some (editorUpdateRow (mk_erow [] 0 []))) as Hr1.
    { apply row_at_Some. subst E1. simpl. rewrite Hcy.
      split; [lia|]. rewrite Nat2Z.id. by rewrite lookup_app_r, Nat.sub_diag by lia. }
    rewrite (editorRowInsertChar_in_range E1 _ (cx E1) c Hr1)
      by (subst E1; simpl; unfold size; simpl; lia).
    eexists. split; [done|].
    eapply cursor_ok_row.
    + apply row_at_Some. simpl. split; [lia|].
      apply list_lookup_insert_eq. rewrite length_app. simpl. lia.
    + simpl. rewrite editorUpdateRow_size. unfold size. simpl.
      rewrite Hcx. simpl. lia.
  - destruct (Z.eqb_spec (cy E) (numrows E)); [lia|].
    rewrite (editorRowInsertChar_in_range E r (cx E) c Hr Hcx).
    eexists. split; [done|].
    eapply cursor_ok_row.
    + apply row_at_Some. simpl. split; [lia|].
      apply list_lookup_insert_eq. unfold numrows in Hcy. lia.
    + simpl. rewrite editorUpdateRow_size. unfold size in *. simpl.
      rewrite length_insert_at by lia. lia.
Qed.

Lemma editorDeleteChar_cursor_ok E :
  cursor_ok E → ∃ E', editorDeleteChar E = Some E' ∧ cursor_ok E'.
Proof.
  intros Hok.
  destruct (cursor_ok_cases E Hok) as [[Hcy Hcx]|(r & Hr & Hcx & Hcy)].
  { exists E. split; [|done]. unfold editorDeleteChar. by rewrite Hcy, Z.eqb_refl. }
  destruct (decide (cx E = 0)) as [Hcx0|Hcx0].
  - destruct (decide (cy E = 0)) as [Hcy0|Hcy0].
    { exists E. split; [|done]. unfold editorDeleteChar.
      destruct (Z.eqb_spec (cy E) (numrows E)); [lia|].
      by rewrite Hcx0, Hcy0. }
    destruct (row_at_is_Some E (cy E - 1)) as [prev Hprev]; [lia|].
    rewrite (editorDeleteChar_join E prev r) by (done || lia).
    eexists. split; [done|].
    assert (Z.to_nat (cy E) = S (Z.to_nat (cy E - 1))) as Hsucc by lia.
    eapply cursor_ok_row.
    + apply row_at_Some. simpl. split; [lia|].
      rewrite list_lookup_delete_lt by lia.
      apply list_lookup_insert_eq. unfold numrows in Hcy. lia.
    + simpl. rewrite editorUpdateRow_size. unfold size. simpl.
      rewrite length_app. lia.
  - rewrite (editorDeleteChar_in_line E r) by (done || lia).
    eexists. split; [done|].
    eapply cursor_ok_row.
    + apply row_at_Some. simpl. split; [lia|].
      apply list_lookup_insert_eq. unfold numrows in Hcy. lia.
    + simpl. rewrite editorUpdateRow_size. unfold size in *. simpl.
      rewrite length_delete; [lia|]. apply lookup_lt_is_Some_2. lia.
Qed.

Lemma editorInsertNewline_at_col0 E :
  cx E = 0 → 0 ≤ cy E ≤ numrows E →
  editorInsertNewline E
  = Some (set_cx 0
            (set_cy (cy E + 1)
               (set_dirty (dirty E + 1)
                  (set_row (insert_at (Z.to_nat (cy E))
                                      (editorUpdateRow (mk_erow [] 0 [])) (row E)) E)))).
Proof.
  intros Hcx Hcy. unfold editorInsertNewline. rewrite Hcx. simpl.
  by rewrite editorInsertRow_in_range by done.
Qed.

Lemma lookup_insert_at_lt {A} n i (x : A) l :
  (i < n)%nat → (n ≤ length l)%nat → insert_at n x l !! i = l !! i.
Proof.
  intros Hi Hn. unfold insert_at.
  rewrite lookup_app_l by (rewrite length_take; lia).
  by apply lookup_take_lt.
Qed.

Lemma editorInsertNewline_split E r :
  row_at E (cy E) = Some r → 0 < cx E ≤ size r →
  editorInsertNewline E
  = Some (set_cx 0
            (set_cy (cy E + 1)
               (set_row
                  (<[Z.to_nat (cy E) :=
                       editorUpdateRow
                         (mk_erow (take (Z.to_nat (cx E)) (chars r)) (rsize r) (render r))]>
                     (insert_at (Z.to_nat (cy E + 1))
                        (editorUpdateRow
                           (mk_erow (drop (Z.to_nat (cx E)) (chars r)) 0 []))
                        (row E)))
                  (set_dirty (dirty E + 1) E)))).
Proof.
  intros Hr Hcx. pose proof (row_at_lt _ _ _ Hr) as Hcy.
  unfold editorInsertNewline.
  destruct (Z.eqb_spec (cx E) 0); [lia|].
  rewrite Hr. simpl.
  destruct (Z.ltb_spec (cx E) 0); [lia|].
  destruct (Z.ltb_spec (size r) (cx E)); [lia|]. simpl.
  rewrite editorInsertRow_in_range by lia.
  set (E' := set_dirty _ _).
  assert (row_at E' (cy E') = Some r) as Hr'.
  { apply row_at_Some. subst E'. simpl. split; [lia|].
    unfold numrows in Hcy.
    rewrite lookup_insert_at_lt by lia. by apply row_at_Some in Hr as [_ ?]. }
  rewrite Hr'. simpl. done.
Qed.

Lemma editorInsertNewline_cursor_ok E :
  cursor_ok E → ∃ E', editorInsertNewline E = Some E' ∧ cursor_ok E'.
Proof.
  intros Hok.
  assert (∀ E0 : editorConfig, 0 ≤ cy E0 ≤ numrows E0 → cx E0 = 0 → cursor_ok E0)
    as Hend by (intros; by apply cursor_ok_end).
  destruct (cursor_ok_cases E Hok) as [[Hcy Hcx]|(r & Hr & Hcx & Hcy)].
  - rewrite editorInsertNewline_at_col0 by (done || unfold numrows in *; lia).
    eexists. split; [done|]. apply Hend; [|done].
    unfold numrows in *. simpl. rewrite length_insert_at by lia. lia.
  - destruct (decide (cx E = 0)) as [Hcx0|Hcx0].
    + rewrite editorInsertNewline_at_col0 by (done || lia).
      eexists. split; [done|]. apply Hend; [|done].
      unfold numrows in *. simpl. rewrite length_insert_at by lia. lia.
    + rewrite (editorInsertNewline_split E r) by (done || lia).
      eexists. split; [done|]. apply Hend; [|done].
      unfold numrows in *. simpl.
      rewrite length_insert, length_insert_at by lia. lia.
Qed.


(* ================================================================= *)
(** ** Reachable states *)


Lemma open_loop_cursor fuel : ∀ fp E,
  cx (open_loop fuel fp E).1 = cx E ∧ cy (open_loop fuel fp E).1 = cy E.
Proof.
  induction fuel as [|fuel IH]; intros fp E; simpl; [done|].
  destruct (getline fp) as [[line fp']|]; [|done].
  destruct (IH fp' (editorInsertRow (numrows E) (take (strip_loop line (length line)) line) E))
    as [-> ->].
  unfold editorInsertRow. by destruct (_ || _).
Qed.



(** C1.  The claim fails on the code.  On an empty document the keys
    Enter and ARROW_DOWN are processed and leave the cursor on row 2
    of a document of one row: ARROW_DOWN moves down whenever the column
    is below the number of rows.  The state is reached with every
    render in sync, but there insertChar and deleteCharBackward index
    the row array out of bounds, so that no sequence of operations
    that starts with one of them runs, and a printable key typed next
    makes the main loop undefined. *)
Theorem edit_past_the_end_out_of_bounds :
  let io := mk_save_io None false false false EmptyString in
  let keys := [ReadByte CR; ReadByte ESC; ReadByte LBRACKET; ReadByte 66] in
  ∃ E, main_loop 3 io keys (initEditor 24 80) = MainWaits E
       ∧ reachable E
       ∧ cx E = 0 ∧ cy E = 2 ∧ numrows E = 1
       ∧ renders_in_sync E
       ∧ (∀ c ops, run_ops (InsertChar c :: ops) E = None)
       ∧ (∀ ops, run_ops (DeleteCharBackward :: ops) E = None)
       ∧ main_loop 4 io (keys ++ [ReadByte 120]) (initEditor 24 80) = MainUndefined.
Proof.
  intros io keys. eexists. split; [vm_compute; reflexivity|].
  split.
  { eapply reach_refresh;
      [eapply (reach_key io ARROW_DOWN);
         [eapply reach_refresh;
            [eapply (reach_key io CR);
               [eapply reach_refresh; [apply (reach_init 24 80)|]|]|]|]|];
      vm_compute; reflexivity. }
  do 3 (split; [reflexivity|]).
  split; [repeat constructor|].
  split; [intros c ops; reflexivity|].
  split; [intros ops; reflexivity|].
  vm_compute. reflexivity.
Qed.



(* ================================================================= *)
(** ** Backward deletion *)

Lemma editorDeleteChar_line_shape E r :
  row_at E (cy E) = Some r → 0 < cx E ≤ size r →
  ∃ E' r',
    editorDeleteChar E = Some E'
    ∧ cx E' = cx E - 1 ∧ cy E' = cy E
    ∧ chars r' = take (Z.to_nat (cx E - 1)) (chars r)
                 ++ drop (Z.to_nat (cx E)) (chars r)
    ∧ row_in_sync r'
    ∧ row E' = take (Z.to_nat (cy E)) (row E)
               ++ r' :: drop (Z.to_nat (cy E + 1)) (row E).
Proof.
  intros Hr Hcx. pose proof (row_at_lt _ _ _ Hr) as Hcy.
  rewrite (editorDeleteChar_in_line E r Hr Hcx).
  eexists _, (editorUpdateRow
                (mk_erow (delete (Z.to_nat (cx E - 1)) (chars r)) (rsize r) (render r))).
  split; [done|].
  split; [done|]. split; [done|].
  split; [|split; [apply editorUpdateRow_in_sync|]].
  - rewrite editorUpdateRow_chars. cbn [chars]. rewrite delete_take_drop.
    do 2 f_equal. lia.
  - cbn [row set_cy set_cx set_dirty set_row].
    rewrite insert_take_drop by (unfold numrows in Hcy; lia).
    do 3 f_equal. lia.
Qed.

Lemma editorDeleteChar_join_shape E prev cur :
  cx E = 0 → 0 < cy E →
  row_at E (cy E - 1) = Some prev → row_at E (cy E) = Some cur →
  ∃ E' joined,
    editorDeleteChar E = Some E'
    ∧ cx E' = size prev ∧ cy E' = cy E - 1
    ∧ chars joined = chars prev ++ chars cur
    ∧ row_in_sync joined
    ∧ row E' = take (Z.to_nat (cy E - 1)) (row E)
               ++ joined :: drop (Z.to_nat (cy E + 1)) (row E).
Proof.
  intros Hcx Hcy Hprev Hcur. pose proof (row_at_lt _ _ _ Hcur) as Hlt.
  rewrite (editorDeleteChar_join E prev cur Hcx Hcy Hprev Hcur).
  eexists _, (editorUpdateRow
                (mk_erow (chars prev ++ chars cur) (rsize prev) (render prev))).
  split; [done|].
  split; [done|]. split; [done|].
  split; [|split; [apply editorUpdateRow_in_sync|]].
  - by rewrite editorUpdateRow_chars.
  - unfold numrows in Hlt. cbn [row set_cy set_cx set_dirty set_row].
    rewrite insert_take_drop by lia. rewrite delete_take_drop.
    assert (Z.to_nat (cy E) = S (Z.to_nat (cy E - 1))) as -> by lia.
    assert (Z.to_nat (cy E + 1) = S (S (Z.to_nat (cy E - 1)))) as -> by lia.
    set (n := Z.to_nat (cy E - 1)).
    assert (length (take n (row E)) = n) as Hn by (rewrite length_take; lia).
    rewrite take_app_ge, drop_app_ge by lia. rewrite Hn.
    replace (S n - n)%nat with 1%nat by lia.
    replace (S (S n) - n)%nat with 2%nat by lia.
    simpl. rewrite take_0, drop_drop. rewrite <- app_assoc. simpl.
    do 3 f_equal. lia.
Qed.

(** C6. [editorDeleteChar] is a no-op at row 0, column 0 and a no-op
    when the cursor row equals the number of lines; with the cursor at
    a column [cx > 0] of a line it deletes the byte just before the
    cursor and decrements the column; at column 0 of a row [cy > 0] it
    appends the whole current line to the previous line, deletes the
    current line and leaves the cursor on the previous row at the
    previous line's former end. *)
Theorem editorDeleteChar_cases E :
  (cy E = 0 → cx E = 0 → editorDeleteChar E = Some E)
  ∧ (cy E = numrows E → editorDeleteChar E = Some E)
  ∧ (∀ r, row_at E (cy E) = Some r → 0 < cx E ≤ size r →
       ∃ E' r',
         editorDeleteChar E = Some E'
         ∧ cx E' = cx E - 1 ∧ cy E' = cy E
         ∧ chars r' = take (Z.to_nat (cx E - 1)) (chars r)
                      ++ drop (Z.to_nat (cx E)) (chars r)
         ∧ row_in_sync r'
         ∧ row E' = take (Z.to_nat (cy E)) (row E)
                    ++ r' :: drop (Z.to_nat (cy E + 1)) (row E))
  ∧ (∀ prev cur, cx E = 0 → 0 < cy E →
       row_at E (cy E - 1) = Some prev → row_at E (cy E) = Some cur →
       ∃ E' joined,
         editorDeleteChar E = Some E'
         ∧ cx E' = size prev ∧ cy E' = cy E - 1
         ∧ chars joined = chars prev ++ chars cur
         ∧ row_in_sync joined
         ∧ row E' = take (Z.to_nat (cy E - 1)) (row E)
                    ++ joined :: drop (Z.to_nat (cy E + 1)) (row E)).
Proof.
  split; [|split; [|split]].
  - intros Hcy Hcx. unfold editorDeleteChar.
    destruct (cy E =? numrows E); [done|]. by rewrite Hcx, Hcy.
  - intros Hcy. unfold editorDeleteChar. by rewrite Hcy, Z.eqb_refl.
  - apply editorDeleteChar_line_shape.
  - apply editorDeleteChar_join_shape.
Qed.

Lemma editorDeleteChar_cases_witness :
  let E := mk_editor 0 1 0 0 0 22 80
             [editorUpdateRow (mk_erow [97; 98] 0 []);
              editorUpdateRow (mk_erow [99] 0 [])]
             0 None MsgEmpty KILO_QUIT_TIMES in
  ∃ E' joined,
    editorDeleteChar E = Some E'
    ∧ cx E' = 2 ∧ cy E' = 0
    ∧ chars joined = [97; 98; 99]
    ∧ row_in_sync joined
    ∧ row E' = [joined].
Proof.
  intros E.
  destruct (editorDeleteChar_cases E) as (_ & _ & _ & Hjoin).
  apply (Hjoin (editorUpdateRow (mk_erow [97; 98] 0 []))
               (editorUpdateRow (mk_erow [99] 0 []))).
  - reflexivity.
  - subst E; simpl; lia.
  - reflexivity.
  - reflexivity.
Defined.

(* ================================================================= *)
(** ** Edits addressed out of range *)

(** C3 as stated fails on [editorRowInsertChar]: with [at] outside
    [0, line length] the character is not dropped but stored at the end
    of the line.  Inserting ['x'] at column 5 of the line "ab" gives
    "abx", with its render, and marks the document modified. *)
Lemma editorRowInsertChar_out_of_range_appends :
  let E := mk_editor 0 0 0 0 0 22 80 [mk_erow [97; 98] 2 [97; 98]]
             0 None MsgEmpty KILO_QUIT_TIMES in
  size (mk_erow [97; 98] 2 [97; 98]) < 5
  ∧ editorRowInsertChar 0 5 120 E
    = Some (mk_editor 0 0 0 0 0 22 80 [mk_erow [97; 98; 120] 3 [97; 98; 120]]
              1 None MsgEmpty KILO_QUIT_TIMES)
  ∧ (row <$> editorRowInsertChar 0 5 120 E) ≠ Some (row E).
Proof. intros E. split; [done|]. split; [done|]. by intros [=]. Qed.

(** C3, amended.  [editorInsertRow] with [at] outside [0, numrows],
    [editorDelRow] with [at] outside [0, numrows) and
    [editorRowDelChar] with [at] outside [0, line length) leave the
    whole editor state, and so the document, unchanged;
    [editorRowInsertChar] with [at] outside [0, line length] behaves as
    with [at] equal to the line length: the character is appended to
    the line, whose render is rebuilt, and no other line changes. *)
Theorem out_of_range_edits E :
  (∀ at0 s, at0 < 0 ∨ numrows E < at0 → editorInsertRow at0 s E = E)
  ∧ (∀ at0, at0 < 0 ∨ numrows E ≤ at0 → editorDelRow at0 E = E)
  ∧ (∀ ri r at0, row_at E ri = Some r → at0 < 0 ∨ size r ≤ at0 →
       editorRowDelChar ri at0 E = Some E)
  ∧ (∀ ri r at0 c, row_at E ri = Some r → at0 < 0 ∨ size r < at0 →
       editorRowInsertChar ri at0 c E = editorRowInsertChar ri (size r) c E
       ∧ ∃ E' r',
           editorRowInsertChar ri at0 c E = Some E'
           ∧ chars r' = chars r ++ [char_of_int c]
           ∧ row_in_sync r'
           ∧ row E' = <[Z.to_nat ri := r']> (row E)).
Proof.
  split; [|split; [|split]].
  - intros at0 s Hat. unfold editorInsertRow.
    destruct (Z.ltb_spec at0 0); [done|].
    destruct (Z.gtb_spec at0 (numrows E)); [done|]. lia.
  - intros at0 Hat. unfold editorDelRow.
    destruct (Z.ltb_spec at0 0); [done|].
    destruct (Z.geb_spec at0 (numrows E)); [done|]. lia.
  - intros ri r at0 Hr Hat. unfold editorRowDelChar. rewrite Hr. simpl.
    destruct (Z.ltb_spec at0 0); [done|].
    destruct (Z.geb_spec at0 (size r)); [done|]. lia.
  - intros ri r at0 c Hr Hat. pose proof (size_nonneg r) as Hsz.
    assert (editorRowInsertChar ri at0 c E
            = Some (set_dirty (dirty E + 1)
                      (set_row (<[Z.to_nat ri :=
                                   editorUpdateRow
                                     (mk_erow (insert_at (Z.to_nat (size r)) (char_of_int c)
                                                         (chars r))
                                              (rsize r) (render r))]> (row E)) E))) as ->.
    { unfold editorRowInsertChar. rewrite Hr. simpl.
      destruct (Z.ltb_spec at0 0); [done|].
      destruct (Z.gtb_spec at0 (size r)); [done|]. lia. }
    split.
    + unfold editorRowInsertChar. rewrite Hr. simpl.
      destruct (Z.ltb_spec (size r) 0); [lia|].
      destruct (Z.gtb_spec (size r) (size r)); [lia|]. done.
    + eexists _, (editorUpdateRow
                    (mk_erow (insert_at (Z.to_nat (size r)) (char_of_int c) (chars r))
                             (rsize r) (render r))).
      split; [done|].
      split; [|split; [apply editorUpdateRow_in_sync|done]].
      rewrite editorUpdateRow_chars. cbn [chars]. unfold size.
      by rewrite Nat2Z.id, insert_at_end.
Qed.

Lemma out_of_range_edits_witness :
  let E := mk_editor 0 0 0 0 0 22 80 [mk_erow [97; 98] 2 [97; 98]]
             0 None MsgEmpty KILO_QUIT_TIMES in
  editorInsertRow 2 [99] E = E
  ∧ editorDelRow 1 E = E
  ∧ editorRowDelChar 0 2 E = Some E
  ∧ editorRowInsertChar 0 (-1) 120 E = editorRowInsertChar 0 2 120 E.
Proof.
  intros E.
  destruct (out_of_range_edits E) as (Hins & Hdel & Hdelc & Hinsc).
  split; [|split; [|split]].
  - apply Hins. right. unfold numrows; simpl; lia.
  - apply Hdel. right. unfold numrows; simpl; lia.
  - apply (Hdelc 0 (mk_erow [97; 98] 2 [97; 98])); [reflexivity|].
    right. unfold size; simpl; lia.
  - apply (Hinsc 0 (mk_erow [97; 98] 2 [97; 98]) (-1) 120); [reflexivity|].
    left. lia.
Defined.

(* ================================================================= *)
(** ** The key decoder *)

Lemma editorReadKey_escape inp :
  editorReadKey (ReadByte ESC :: inp)
  = Key (read_escape inp).1 (read_escape inp).2.
Proof.
  simpl. by destruct (read_escape inp).
Qed.

Ltac in_table :=
  first [ left; reflexivity | right; in_table ].

(** A key other than Escape comes out of the escape branch only for a
    sequence of the table, of which exactly the bytes are consumed. *)
Lemma read_escape_recognised inp k rest :
  read_escape inp = (k, rest) → k ≠ ESC →
  ∃ seq, In (seq, k) spec_decoding_table ∧ inp = map ReadByte seq ++ rest.
Proof.
  unfold read_escape. intros Hrd Hk.
  destruct inp as [|[s0| |e0] r0]; simpl in Hrd; simplify_eq.
  destruct r0 as [|[s1| |e1] r1]; simpl in Hrd; simplify_eq.
  destruct (Z.eqb_spec s0 LBRACKET) as [->|Hs0].
  - destruct ((s1 >=? CH_0) && (s1 <=? CH_9)) eqn:Hdigit.
    + destruct r1 as [|[s2| |e2] r2]; simpl in Hrd; simplify_eq.
      destruct (Z.eqb_spec s2 TILDE) as [->|Hs2]; simplify_eq.
      unfold tilde_key in *.
      repeat match goal with
             | H : context [?a =? ?b] |- _ => destruct (Z.eqb_spec a b); subst
             end; try done;
        (eexists (_ :: _ :: _ :: []); split; [|reflexivity]; in_table).
    + unfold bracket_key in *. simplify_eq.
      repeat match goal with
             | H : context [?a =? ?b] |- _ => destruct (Z.eqb_spec a b); subst
             end; try done;
        (eexists (_ :: _ :: []); split; [|reflexivity]; in_table).
  - destruct (Z.eqb_spec s0 CH_O) as [->|Hs0']; simplify_eq.
    unfold o_key in *.
    repeat match goal with
           | H : context [?a =? ?b] |- _ => destruct (Z.eqb_spec a b); subst
           end; try done;
      (eexists (_ :: _ :: []); split; [|reflexivity]; in_table).
Qed.

(** C4. On every input the key decoder maps the sequences of the
    decoding table to their keys ([ESC [ d ~] with d = 1 or 7 to Home,
    3 to Delete, 4 or 8 to End, 5 to PageUp, 6 to PageDown; [ESC [ A/B/C/D]
    to Up/Down/Right/Left; [ESC [ H], [ESC O H] to Home; [ESC [ F],
    [ESC O F] to End), consuming exactly their bytes; returns every
    byte other than the escape byte verbatim; and after an escape byte
    followed by anything that is not a sequence of the table (other
    bytes, a read that times out or fails after ESC or in the middle of
    a sequence, no further input at all) returns a literal Escape key
    instead of failing.  Reads that time out before the first byte are
    waited through. *)
Theorem editorReadKey_decoding :
  (∀ seq k rest, In (seq, k) spec_decoding_table →
     editorReadKey (ReadByte ESC :: map ReadByte seq ++ rest) = Key k rest)
  ∧ (∀ c rest, c ≠ ESC → editorReadKey (ReadByte c :: rest) = Key c rest)
  ∧ (∀ inp, (∀ seq k, In (seq, k) spec_decoding_table → ¬ starts_with seq inp) →
       ∃ rest, editorReadKey (ReadByte ESC :: inp) = Key ESC rest)
  ∧ (∀ inp, ∃ k rest, editorReadKey (ReadByte ESC :: inp) = Key k rest)
  ∧ (∀ inp, editorReadKey (ReadTimeout :: inp) = editorReadKey inp
            ∧ editorReadKey (ReadError true :: inp) = editorReadKey inp)
  ∧ (editorReadKey [ReadByte ESC] = Key ESC []
     ∧ ∀ rest,
         editorReadKey (ReadByte ESC :: ReadTimeout :: rest) = Key ESC rest
         ∧ editorReadKey (ReadByte ESC :: ReadByte LBRACKET :: ReadTimeout :: rest)
           = Key ESC rest
         ∧ editorReadKey (ReadByte ESC :: ReadByte LBRACKET :: ReadByte CH_3
                            :: ReadTimeout :: rest)
           = Key ESC rest).
Proof.
  split; [|split; [|split; [|split; [|split]]]].
  - intros seq k rest Hin. simpl in Hin.
    repeat (destruct Hin as [Hin|Hin]; [by simplify_eq|]). done.
  - intros c rest Hc. simpl. by destruct (Z.eqb_spec c ESC).
  - intros inp Hnone. rewrite editorReadKey_escape.
    destruct (read_escape inp) as [k rest] eqn:Hrd. simpl.
    exists rest. destruct (decide (k = ESC)) as [->|Hk]; [done|].
    destruct (read_escape_recognised inp k rest Hrd Hk) as (seq & Hin & Heq).
    destruct (Hnone seq k Hin). by exists rest.
  - intros inp. rewrite editorReadKey_escape. by eexists _, _.
  - done.
  - split; [done|]. intros rest. by repeat split.
Qed.

Lemma editorReadKey_decoding_witness :
  editorReadKey (ReadByte ESC :: ReadByte LBRACKET :: ReadByte CH_3
                   :: ReadByte TILDE :: [ReadByte 120])
  = Key DEL_KEY [ReadByte 120]
  ∧ editorReadKey [ReadByte 120; ReadByte 121] = Key 120 [ReadByte 121]
  ∧ ∃ rest, editorReadKey [ReadByte ESC; ReadByte LBRACKET; ReadByte CH_2;
                           ReadByte TILDE; ReadByte 120]
            = Key ESC rest.
Proof.
  destruct editorReadKey_decoding as (Htable & Hbyte & Hother & _).
  split; [|split].
  - apply (Htable [LBRACKET; CH_3; TILDE] DEL_KEY [ReadByte 120]).
    simpl. tauto.
  - apply Hbyte. unfold ESC. lia.
  - apply Hother. intros seq k Hin [rest Heq]. simpl in Hin.
    repeat (destruct Hin as [Hin|Hin]; [by simplify_eq|]). done.
Defined.

(* ================================================================= *)
(** ** Cursor movement *)

Lemma cur_row_ptr_row E r :
  row_at E (cy E) = Some r → cur_row_ptr E = Some (cy E).
Proof.
  intros Hr%row_at_lt. unfold cur_row_ptr.
  destruct (Z.geb_spec (cy E) (numrows E)); [lia|done].
Qed.

Lemma rowlen_of_defined E : 0 ≤ cy E → rowlen_of E = Some (cursor_rowlen E).
Proof.
  intros Hcy. unfold rowlen_of, cur_row_ptr, cursor_rowlen.
  destruct (Z.geb_spec (cy E) (numrows E)) as [Hge|Hlt].
  - by rewrite row_at_None.
  - destruct (row_at_is_Some E (cy E)) as [r Hr]; [lia|]. by rewrite Hr.
Qed.

Lemma cursor_rowlen_nonneg E : 0 ≤ cursor_rowlen E.
Proof.
  unfold cursor_rowlen. destruct (row_at E (cy E)) as [r|]; [|done].
  apply size_nonneg.
Qed.

Lemma editorMoveCursor_right_in_line E r :
  row_at E (cy E) = Some r → cx E < size r →
  editorMoveCursor ARROW_RIGHT E = Some (set_cx (cx E + 1) E).
Proof.
  intros Hr Hcx. pose proof (row_at_lt _ _ _ Hr) as Hcy.
  unfold editorMoveCursor. cbn [Z.eqb ARROW_LEFT ARROW_RIGHT Pos.eqb].
  rewrite (cur_row_ptr_row E r Hr), Hr. cbn [mbind option_bind].
  destruct (Z.ltb_spec (cx E) (size r)); [|lia]. cbn [mbind option_bind].
  rewrite rowlen_of_defined by (simpl; lia). cbn [mbind option_bind].
  unfold cursor_rowlen. cbn [cy cx set_cx].
  replace (row_at (set_cx (cx E + 1) E) (cy E)) with (Some r) by done.
  destruct (Z.gtb_spec (cx E + 1) (size r)); [lia|done].
Qed.

Lemma editorMoveCursor_right_at_end E r :
  row_at E (cy E) = Some r → cx E = size r →
  editorMoveCursor ARROW_RIGHT E = Some (set_cx 0 (set_cy (cy E + 1) E)).
Proof.
  intros Hr Hcx. pose proof (row_at_lt _ _ _ Hr) as Hcy.
  unfold editorMoveCursor. cbn [Z.eqb ARROW_LEFT ARROW_RIGHT Pos.eqb].
  rewrite (cur_row_ptr_row E r Hr), Hr. cbn [mbind option_bind].
  destruct (Z.ltb_spec (cx E) (size r)); [lia|].
  destruct (Z.eqb_spec (cx E) (size r)); [|lia]. cbn [mbind option_bind].
  rewrite rowlen_of_defined by (simpl; lia). cbn [mbind option_bind].
  pose proof (cursor_rowlen_nonneg (set_cx 0 (set_cy (cy E + 1) E))).
  cbn [cx set_cx].
  destruct (Z.gtb_spec 0 (cursor_rowlen (set_cx 0 (set_cy (cy E + 1) E)))); [lia|done].
Qed.

(** C9. The move-down command advances the cursor row exactly when
    the cursor's logical column is below the number of rows; the row
    itself is not compared.  With one line "abc" and the cursor at row
    0, column 2, the row does not advance although it is below the row
    count; with the cursor on the virtual row 1, column 0, the row
    advances to 2, past the row count. *)
Theorem editorMoveCursor_down_compares_column :
  (∀ E, 0 ≤ cy E →
     ∃ E', editorMoveCursor ARROW_DOWN E = Some E'
           ∧ cy E' = (if cx E <? numrows E then cy E + 1 else cy E))
  ∧ (let E := mk_editor 2 0 0 0 0 22 80 [mk_erow [97; 98; 99] 3 [97; 98; 99]]
                0 None MsgEmpty KILO_QUIT_TIMES in
     cy E < numrows E ∧ cy <$> editorMoveCursor ARROW_DOWN E = Some 0)
  ∧ (let E := mk_editor 0 1 0 0 0 22 80 [mk_erow [97; 98; 99] 3 [97; 98; 99]]
                0 None MsgEmpty KILO_QUIT_TIMES in
     numrows E ≤ cy E ∧ cy <$> editorMoveCursor ARROW_DOWN E = Some 2).
Proof.
  split; [|split]; [|done|done].
  intros E Hcy. unfold editorMoveCursor.
  cbn [Z.eqb ARROW_LEFT ARROW_RIGHT ARROW_UP ARROW_DOWN Pos.eqb mbind option_bind].
  destruct (cx E <? numrows E).
  - rewrite rowlen_of_defined by (simpl; lia). cbn [mbind option_bind].
    eexists. split; [done|]. by destruct (_ >? _).
  - rewrite rowlen_of_defined by done. cbn [mbind option_bind].
    eexists. split; [done|]. by destruct (_ >? _).
Qed.

Lemma editorMoveCursor_down_compares_column_witness :
  let E := mk_editor 0 0 0 0 0 22 80 [mk_erow [97] 1 [97]; mk_erow [98] 1 [98]]
             0 None MsgEmpty KILO_QUIT_TIMES in
  ∃ E', editorMoveCursor ARROW_DOWN E = Some E'
        ∧ cy E' = (if cx E <? numrows E then cy E + 1 else cy E).
Proof.
  intros E. destruct editorMoveCursor_down_compares_column as (Hdown & _).
  apply (Hdown E). simpl. lia.
Defined.

(* ================================================================= *)
(** ** The Delete key *)

(** C10. The Delete key is processed as a move of the cursor one
    position right followed by a backward delete.  With the cursor on
    a line at a column before its end, Delete removes the byte under
    the cursor and the cursor stays; at the end of a line that has a
    following row, Delete joins the following line onto the end of the
    current one and the cursor stays. *)
Theorem delete_key_deletes_forward io E :
  editorProcessKey io DEL_KEY E
  = break_switch (E1 ← editorMoveCursor ARROW_RIGHT E; editorDeleteChar E1)
  ∧ (∀ r, row_at E (cy E) = Some r → 0 ≤ cx E < size r →
       ∃ E' r',
         editorProcessKey io DEL_KEY E = Running E'
         ∧ cx E' = cx E ∧ cy E' = cy E
         ∧ chars r' = take (Z.to_nat (cx E)) (chars r)
                      ++ drop (Z.to_nat (cx E + 1)) (chars r)
         ∧ row_in_sync r'
         ∧ row E' = take (Z.to_nat (cy E)) (row E)
                    ++ r' :: drop (Z.to_nat (cy E + 1)) (row E))
  ∧ (∀ r next, row_at E (cy E) = Some r → cx E = size r →
       row_at E (cy E + 1) = Some next →
       ∃ E' joined,
         editorProcessKey io DEL_KEY E = Running E'
         ∧ cx E' = cx E ∧ cy E' = cy E
         ∧ chars joined = chars r ++ chars next
         ∧ row_in_sync joined
         ∧ row E' = take (Z.to_nat (cy E)) (row E)
                    ++ joined :: drop (Z.to_nat (cy E + 2)) (row E)).
Proof.
  assert (editorProcessKey io DEL_KEY E
          = break_switch (E1 ← editorMoveCursor ARROW_RIGHT E; editorDeleteChar E1))
    as Hkey by done.
  split; [done|]. rewrite Hkey. split.
  - intros r Hr Hcx.
    rewrite (editorMoveCursor_right_in_line E r Hr) by lia. simpl.
    destruct (editorDeleteChar_line_shape (set_cx (cx E + 1) E) r Hr)
      as (E' & r' & -> & Hcx' & Hcy' & Hchars & Hsync & Hrow); [simpl; lia|].
    simpl in *. exists (set_quit_times KILO_QUIT_TIMES E'), r'.
    split; [done|]. split; [simpl; lia|]. split; [done|].
    split; [|done].
    rewrite Hchars. do 3 f_equal; lia.
  - intros r next Hr Hcx Hnext.
    rewrite (editorMoveCursor_right_at_end E r Hr Hcx). simpl.
    destruct (editorDeleteChar_join_shape (set_cx 0 (set_cy (cy E + 1) E)) r next)
      as (E' & joined & -> & Hcx' & Hcy' & Hchars & Hsync & Hrow).
    + done.
    + simpl. apply row_at_lt in Hr. lia.
    + simpl. by replace (cy E + 1 - 1) with (cy E) by lia.
    + done.
    + simpl in *. exists (set_quit_times KILO_QUIT_TIMES E'), joined.
      split; [done|]. split; [simpl; lia|]. split; [simpl; lia|].
      split; [done|]. split; [done|].
      simpl. rewrite Hrow. do 2 f_equal; [f_equal; lia|]. do 2 f_equal. lia.
Qed.

Lemma delete_key_deletes_forward_witness :
  let E := mk_editor 1 0 0 0 0 22 80
             [editorUpdateRow (mk_erow [97; 98; 99] 0 []);
              editorUpdateRow (mk_erow [100] 0 [])]
             0 None MsgEmpty KILO_QUIT_TIMES in
  ∃ E' r',
    editorProcessKey (mk_save_io None true true true "") DEL_KEY E = Running E'
    ∧ cx E' = 1 ∧ cy E' = 0
    ∧ chars r' = [97; 99]
    ∧ row_in_sync r'
    ∧ row E' = [r'; editorUpdateRow (mk_erow [100] 0 [])].
Proof.
  intros E.
  destruct (delete_key_deletes_forward (mk_save_io None true true true "") E)
    as (_ & Hline & _).
  apply (Hline (editorUpdateRow (mk_erow [97; 98; 99] 0 []))).
  - reflexivity.
  - subst E; unfold size; simpl; lia.
Defined.

(* ================================================================= *)
(** ** Saving and loading *)

Lemma rows_to_string_buf rows : ∀ acc,
  fold_left (λ p r, p ++ chars r ++ [NEWLINE]) rows acc
  = acc ++ spec_saveBytes (map chars rows).
Proof.
  unfold spec_saveBytes.
  induction rows as [|r rows IH]; intros acc; simpl.
  - by rewrite app_nil_r.
  - rewrite IH. by rewrite <- !app_assoc.
Qed.

Lemma rows_to_string_len rows : ∀ t,
  fold_left (λ t r, t + (size r + 1)) rows t
  = t + Z.of_nat (length (spec_saveBytes (map chars rows))).
Proof.
  unfold spec_saveBytes, size.
  induction rows as [|r rows IH]; intros t; simpl.
  - lia.
  - rewrite IH, !length_app. simpl. lia.
Qed.

Lemma editorRowsToString_spec E :
  editorRowsToString E
  = (spec_saveBytes (map chars (row E)),
     Z.of_nat (length (spec_saveBytes (map chars (row E))))).
Proof.
  unfold editorRowsToString.
  by rewrite rows_to_string_buf, rows_to_string_len.
Qed.

Lemma getline_line l rest :
  NEWLINE ∉ l → getline (l ++ NEWLINE :: rest) = Some (l ++ [NEWLINE], rest).
Proof.
  intros Hl.
  assert (read_line (l ++ NEWLINE :: rest) = (l ++ [NEWLINE], rest)) as Hrd.
  { induction l as [|c l IH]; simpl; [done|].
    apply not_elem_of_cons in Hl as [Hc Hl].
    destruct (Z.eqb_spec c NEWLINE); [done|].
    by rewrite (IH Hl). }
  unfold getline. rewrite Hrd. by destruct l.
Qed.

Lemma strip_loop_line l :
  NEWLINE ∉ l → last l ≠ Some CR →
  strip_loop (l ++ [NEWLINE]) (length (l ++ [NEWLINE])) = length l.
Proof.
  intros Hnl Hcr. rewrite length_app. simpl. rewrite Nat.add_1_r.
  cbn [strip_loop]. rewrite lookup_app_r, Nat.sub_diag by lia. simpl.
  destruct (last l) as [c|] eqn:Hlast.
  - apply last_Some in Hlast as [l' ->].
    rewrite length_app. simpl. rewrite Nat.add_1_r. cbn [strip_loop].
    rewrite <- app_assoc. rewrite lookup_app_r, Nat.sub_diag by lia. simpl.
    apply not_elem_of_app in Hnl as [_ Hc%not_elem_of_cons]. destruct Hc as [Hc _].
    destruct (Z.eqb_spec c NEWLINE); [done|].
    destruct (Z.eqb_spec c CR); [congruence|]. done.
  - apply last_None in Hlast as ->. done.
Qed.

Lemma open_loop_lines ls : ∀ fuel E,
  Forall plain_line ls →
  (length ls ≤ fuel)%nat →
  ∃ E', open_loop fuel (spec_saveBytes ls) E = (E', [])
        ∧ row E' = row E ++ map (λ l, editorUpdateRow (mk_erow l 0 [])) ls.
Proof.
  induction ls as [|l ls IH]; intros fuel E Hls Hfuel.
  - exists E. split; [by destruct fuel|]. simpl. by rewrite app_nil_r.
  - apply Forall_cons in Hls as [[Hnl Hcr] Hls].
    destruct fuel as [|fuel]; [simpl in Hfuel; lia|].
    unfold spec_saveBytes. cbn [map concat open_loop].
    rewrite <- app_assoc. cbn [app].
    rewrite getline_line by done.
    rewrite strip_loop_line by done.
    rewrite take_app_length.
    rewrite editorInsertRow_in_range by (unfold numrows; lia).
    unfold numrows. rewrite Nat2Z.id, insert_at_end.
    destruct (IH fuel (set_dirty (dirty E + 1)
                         (set_row (row E ++ [editorUpdateRow (mk_erow l 0 [])]) E))
                Hls) as (E' & HE' & Hrow); [simpl in Hfuel; lia|].
    exists E'. split; [exact HE'|].
    rewrite Hrow. simpl. by rewrite <- app_assoc.
Qed.

Lemma length_spec_saveBytes ls : (length ls ≤ length (spec_saveBytes ls))%nat.
Proof.
  unfold spec_saveBytes. induction ls as [|l ls IH]; simpl; [lia|].
  rewrite !length_app. simpl. lia.
Qed.

(** C8 as stated fails on a line that ends in a carriage return
    before its single newline: the file "ab\r\n" is loaded as the line
    "ab" and saved as "ab\n". *)
Lemma roundtrip_drops_carriage_return :
  [97; 98; CR; NEWLINE] = spec_saveBytes [[97; 98; CR]]
  ∧ (NEWLINE ∉ [97; 98; CR])
  ∧ (editorRowsToString
       (editorOpen "f" [97; 98; CR; NEWLINE] (initEditor 24 80))).1
    = [97; 98; NEWLINE]
  ∧ (editorRowsToString
       (editorOpen "f" [97; 98; CR; NEWLINE] (initEditor 24 80))).1
    ≠ [97; 98; CR; NEWLINE].
Proof.
  split; [done|]. split; [|split; [done|by intros [=]]].
  intros H. repeat (apply elem_of_cons in H as [H|H]; [by inversion H|]).
  by apply elem_of_nil in H.
Qed.

(** C8, amended.  [editorRowsToString] produces the lines of the
    document each followed by a newline, the last included, and their
    total length.  Loading a file in which every line ends in a single
    newline and no line has a carriage return just before its newline
    (for example "ab\ncd\n"), then saving, reproduces the original
    bytes exactly; the load reads the file to its end and stores the
    lines without their newline. *)
Theorem save_after_load_roundtrip :
  (∀ E, editorRowsToString E
        = (spec_saveBytes (map chars (row E)),
           Z.of_nat (length (spec_saveBytes (map chars (row E))))))
  ∧ (∀ name rows cols ls,
       Forall plain_line ls →
       (open_loop (length (spec_saveBytes ls)) (spec_saveBytes ls)
                  (set_filename (Some name) (initEditor rows cols))).2 = []
       ∧ map chars (row (editorOpen name (spec_saveBytes ls) (initEditor rows cols))) = ls
       ∧ (editorRowsToString
            (editorOpen name (spec_saveBytes ls) (initEditor rows cols))).1
         = spec_saveBytes ls)
  ∧ (editorRowsToString
       (editorOpen "f" [97; 98; NEWLINE; 99; 100; NEWLINE] (initEditor 24 80))).1
    = [97; 98; NEWLINE; 99; 100; NEWLINE].
Proof.
  split; [exact editorRowsToString_spec|]. split; [|done].
  intros name rows cols ls Hls.
  destruct (open_loop_lines ls (length (spec_saveBytes ls))
              (set_filename (Some name) (initEditor rows cols)) Hls
              (length_spec_saveBytes ls)) as (E' & HE' & Hrow).
  assert (map chars (row (editorOpen name (spec_saveBytes ls) (initEditor rows cols))) = ls)
    as Hchars.
  { unfold editorOpen. rewrite HE'. cbn [fst row set_dirty]. rewrite Hrow.
    cbn [row set_filename initEditor app]. rewrite <- list_fmap_compose.
    rewrite <- (list_fmap_id ls) at 2. apply list_fmap_ext.
    intros i l _. simpl. apply editorUpdateRow_chars. }
  split; [by rewrite HE'|]. split; [done|].
  by rewrite editorRowsToString_spec, Hchars.
Qed.

Lemma save_after_load_roundtrip_witness :
  (open_loop (length (spec_saveBytes [[97]; []; [CR; 98]]))
             (spec_saveBytes [[97]; []; [CR; 98]])
             (set_filename (Some "f") (initEditor 24 80))).2 = []
  ∧ map chars (row (editorOpen "f" (spec_saveBytes [[97]; []; [CR; 98]])
                               (initEditor 24 80)))
    = [[97]; []; [CR; 98]]
  ∧ (editorRowsToString
       (editorOpen "f" (spec_saveBytes [[97]; []; [CR; 98]]) (initEditor 24 80))).1
    = spec_saveBytes [[97]; []; [CR; 98]].
Proof.
  destruct save_after_load_roundtrip as (_ & Hround & _).
  apply (Hround "f" 24 80 [[97]; []; [CR; 98]]).
  repeat constructor; try (by intros [=]);
    intros H; repeat (apply elem_of_cons in H as [H|H]; [by inversion H|]);
    by apply elem_of_nil in H.
Defined.

(* ================================================================= *)
(** ** Scrolling *)

Lemma editorScroll_closed_form E :
  0 ≤ cy E → (∀ r, row_at E (cy E) = Some r → cx E ≤ size r) →
  editorScroll E
  = Some (set_coloff (scroll_clamp (coloff E) (visual_column E) (screencols E))
            (set_rowoff (scroll_clamp (rowoff E) (cy E) (screenrows E))
               (set_rx (visual_column E) E))).
Proof.
  intros Hcy Hcx. unfold editorScroll, visual_column.
  assert ((if cy E <? numrows E
           then r ← row_at E (cy E); v ← editorRowCxtoRx r (cx E); Some (set_rx v E)
           else Some (set_rx 0 E))
          = Some (set_rx (match row_at E (cy E) with
                          | Some r => logicalToVisual (chars r) (Z.to_nat (cx E))
                          | None => 0
                          end) E)) as ->.
  { destruct (Z.ltb_spec (cy E) (numrows E)) as [Hlt|Hge].
    - destruct (row_at_is_Some E (cy E)) as [r Hr]; [lia|].
      rewrite Hr. simpl. by rewrite editorRowCxtoRx_spec by auto.
    - by rewrite row_at_None. }
  cbn [mbind option_bind]. unfold scroll_clamp.
  generalize (match row_at E (cy E) with
              | Some r => logicalToVisual (chars r) (Z.to_nat (cx E))
              | None => 0
              end) as v.
  intros v. destruct E as [cx0 cy0 rx0 ro co sr sc rows d f m q].
  cbn [cx cy rx rowoff coloff screenrows screencols set_rx set_rowoff set_coloff].
  destruct (cy0 <? ro);
    cbn [cx cy rx rowoff coloff screenrows screencols set_rx set_rowoff set_coloff];
    destruct (cy0 >=? _);
    cbn [cx cy rx rowoff coloff screenrows screencols set_rx set_rowoff set_coloff];
    destruct (v <? co);
    cbn [cx cy rx rowoff coloff screenrows screencols set_rx set_rowoff set_coloff];
    destruct (v >=? _); reflexivity.
Qed.

Lemma scroll_clamp_visible off pos ext :
  off ≤ pos < off + ext → scroll_clamp off pos ext = off.
Proof.
  intros H. unfold scroll_clamp.
  destruct (Z.ltb_spec pos off); [lia|].
  destruct (Z.geb_spec pos (off + ext)); lia.
Qed.

Lemma scroll_clamp_reveals off pos ext :
  0 < ext →
  scroll_clamp off pos ext ≤ pos < scroll_clamp off pos ext + ext.
Proof.
  intros H. unfold scroll_clamp.
  destruct (Z.ltb_spec pos off);
    match goal with |- context [?a >=? ?b] => destruct (Z.geb_spec a b) end; lia.
Qed.

Lemma scroll_clamp_below off ext :
  scroll_clamp off (off + ext) ext = off + 1.
Proof.
  unfold scroll_clamp.
  destruct (Z.ltb_spec (off + ext) off);
    match goal with |- context [?a >=? ?b] => destruct (Z.geb_spec a b) end; lia.
Qed.

Lemma scroll_clamp_idemp off pos ext :
  scroll_clamp (scroll_clamp off pos ext) pos ext = scroll_clamp off pos ext.
Proof.
  unfold scroll_clamp.
  repeat match goal with
         | |- context [?a <? ?b] => destruct (Z.ltb_spec a b)
         | |- context [?a >=? ?b] => destruct (Z.geb_spec a b)
         end; lia.
Qed.

(** C7 as stated fails in a terminal of two rows: [initEditor] leaves
    no row for the text ([screenrows = 0]), and the first scroll puts
    [rowoff] at 1 with the cursor on row 0: the cursor row is not
    within [rowoff, rowoff + screenrows). *)
Lemma editorScroll_empty_viewport :
  screenrows (initEditor 2 80) = 0
  ∧ ∃ E', editorScroll (initEditor 2 80) = Some E'
          ∧ cy E' = 0 ∧ rowoff E' = 1
          ∧ ¬ (rowoff E' ≤ cy E' < rowoff E' + screenrows E').
Proof.
  split; [done|]. eexists. split; [done|]. simpl. repeat split; lia.
Qed.

(** C7, amended.  [editorScroll] recomputes the visual column and
    leaves the cursor, the document and the screen size alone; when the
    cursor's row and visual column already lie within the viewport it
    leaves [rowoff] and [coloff] unchanged; on an axis where the
    viewport has at least one row (one column) the cursor lies within
    the viewport after it runs; a cursor exactly one row below the last
    visible row increases [rowoff] by exactly one; and running it again
    changes nothing. *)
Theorem editorScroll_minimal E :
  0 ≤ cy E → (∀ r, row_at E (cy E) = Some r → cx E ≤ size r) →
  ∃ E', editorScroll E = Some E'
        ∧ (cx E' = cx E ∧ cy E' = cy E ∧ row E' = row E
           ∧ screenrows E' = screenrows E ∧ screencols E' = screencols E)
        ∧ rx E' = visual_column E
        ∧ (rowoff E ≤ cy E < rowoff E + screenrows E → rowoff E' = rowoff E)
        ∧ (coloff E ≤ rx E' < coloff E + screencols E → coloff E' = coloff E)
        ∧ (0 < screenrows E → rowoff E' ≤ cy E' < rowoff E' + screenrows E')
        ∧ (0 < screencols E → coloff E' ≤ rx E' < coloff E' + screencols E')
        ∧ (cy E = rowoff E + screenrows E → rowoff E' = rowoff E + 1)
        ∧ editorScroll E' = Some E'.
Proof.
  intros Hcy Hcx. rewrite (editorScroll_closed_form E Hcy Hcx).
  eexists. split; [done|].
  cbn [cx cy rx row rowoff coloff screenrows screencols set_rx set_rowoff set_coloff].
  split; [done|]. split; [done|].
  split; [apply scroll_clamp_visible|].
  split; [apply scroll_clamp_visible|].
  split; [apply scroll_clamp_reveals|].
  split; [apply scroll_clamp_reveals|].
  split; [intros ->; apply scroll_clamp_below|].
  rewrite editorScroll_closed_form by done.
  unfold visual_column.
  cbn [cx cy rx row rowoff coloff screenrows screencols set_rx set_rowoff set_coloff].
  replace (row_at (set_coloff _ _) (cy E)) with (row_at E (cy E)) by done.
  by rewrite !scroll_clamp_idemp.
Qed.

Lemma editorScroll_minimal_witness :
  let E := mk_editor 1 30 0 5 0 22 80
             (replicate 40 (editorUpdateRow (mk_erow [TAB; 97] 0 [])))
             0 None MsgEmpty KILO_QUIT_TIMES in
  ∃ E', editorScroll E = Some E'
        ∧ (cx E' = cx E ∧ cy E' = cy E ∧ row E' = row E
           ∧ screenrows E' = screenrows E ∧ screencols E' = screencols E)
        ∧ rx E' = visual_column E
        ∧ (rowoff E ≤ cy E < rowoff E + screenrows E → rowoff E' = rowoff E)
        ∧ (coloff E ≤ rx E' < coloff E + screencols E → coloff E' = coloff E)
        ∧ (0 < screenrows E → rowoff E' ≤ cy E' < rowoff E' + screenrows E')
        ∧ (0 < screencols E → coloff E' ≤ rx E' < coloff E' + screencols E')
        ∧ (cy E = rowoff E + screenrows E → rowoff E' = rowoff E + 1)
        ∧ editorScroll E' = Some E'.
Proof.
  intros E. apply (editorScroll_minimal E).
  - simpl. lia.
  - intros r Hr. vm_compute in Hr. injection Hr as <-. vm_compute. discriminate.
Defined.

(* ================================================================= *)
(** ** Key dispatch runs to its end on a valid state *)

Lemma editorMoveCursor_defined key E :
  cursor_ok E → ∃ E', editorMoveCursor key E = Some E' ∧ 0 ≤ cy E'.
Proof.
  intros Hok. pose proof Hok as [Hcy Hcx]. unfold editorMoveCursor.
  match goal with
  | |- ∃ E', (?blk ≫= _) = _ ∧ _ =>
      assert (∃ E1, blk = Some E1 ∧ 0 ≤ cy E1) as (E1 & -> & Hcy1)
  end.
  { destruct (key =? ARROW_LEFT).
    { destruct (Z.eqb_spec (cx E) 0); simpl; [|eexists; split; [done|simpl; lia]].
      destruct (Z.gtb_spec (cy E) 0); [|eexists; split; [done|lia]].
      destruct (row_at_is_Some (set_cy (cy E - 1) E) (cy E - 1)) as [r Hr];
        [unfold numrows in *; simpl; lia|].
      rewrite Hr. simpl. eexists; split; [done|simpl; lia]. }
    destruct (key =? ARROW_RIGHT).
    { unfold cur_row_ptr. destruct (Z.geb_spec (cy E) (numrows E));
        [eexists; split; [done|lia]|].
      destruct (row_at_is_Some E (cy E)) as [r Hr]; [lia|].
      rewrite Hr. simpl.
      destruct (cx E <? size r); [eexists; split; [done|simpl; lia]|].
      destruct (cx E =? size r); eexists; (split; [done|simpl; lia]). }
    destruct (key =? ARROW_UP).
    { eexists; split; [done|]. destruct (Z.eqb_spec (cy E) 0); simpl; lia. }
    destruct (key =? ARROW_DOWN).
    { eexists; split; [done|]. destruct (cx E <? numrows E); simpl; lia. }
    eexists; split; [done|lia]. }
  cbn [mbind option_bind]. rewrite rowlen_of_defined by done.
  cbn [mbind option_bind]. eexists. split; [done|].
  by destruct (_ >? _).
Qed.

Lemma editorMoveCursor_vertical key E :
  key = ARROW_UP ∨ key = ARROW_DOWN → 0 ≤ cy E →
  ∃ E', editorMoveCursor key E = Some E' ∧ 0 ≤ cy E'.
Proof.
  intros Hkey Hcy. unfold editorMoveCursor.
  match goal with
  | |- ∃ E', (?blk ≫= _) = _ ∧ _ =>
      assert (∃ E1, blk = Some E1 ∧ 0 ≤ cy E1) as (E1 & -> & Hcy1)
  end.
  { destruct Hkey as [-> | ->];
      cbn [Z.eqb ARROW_LEFT ARROW_RIGHT ARROW_UP ARROW_DOWN Pos.eqb].
    - eexists; split; [done|]. destruct (Z.eqb_spec (cy E) 0); simpl; lia.
    - eexists; split; [done|]. destruct (cx E <? numrows E); simpl; lia. }
  cbn [mbind option_bind]. rewrite rowlen_of_defined by done.
  cbn [mbind option_bind]. eexists. split; [done|].
  by destruct (_ >? _).
Qed.

Lemma move_times_vertical n key : ∀ E,
  key = ARROW_UP ∨ key = ARROW_DOWN → 0 ≤ cy E →
  ∃ E', move_times n key E = Some E'.
Proof.
  induction n as [|n IH]; intros E Hkey Hcy; simpl; [by eexists|].
  destruct (editorMoveCursor_vertical key E Hkey Hcy) as (E1 & -> & Hcy1).
  simpl. by apply IH.
Qed.

Lemma editorMoveCursor_right_cursor_ok E :
  cursor_ok E → ∃ E', editorMoveCursor ARROW_RIGHT E = Some E' ∧ cursor_ok E'.
Proof.
  intros Hok.
  destruct (cursor_ok_cases E Hok) as [[Hcy Hcx]|(r & Hr & Hcx & Hcy)].
  - exists E. split; [|done]. unfold editorMoveCursor.
    cbn [Z.eqb ARROW_LEFT ARROW_RIGHT Pos.eqb]. unfold cur_row_ptr at 1.
    destruct (Z.geb_spec (cy E) (numrows E)); [|lia]. cbn [mbind option_bind].
    rewrite rowlen_of_defined by (destruct Hok; lia). cbn [mbind option_bind].
    pose proof (cursor_rowlen_nonneg E). rewrite Hcx.
    by destruct (Z.gtb_spec 0 (cursor_rowlen E)); [lia|].
  - destruct (decide (cx E = size r)) as [Heq|Hne].
    + rewrite (editorMoveCursor_right_at_end E r Hr Heq).
      eexists. split; [done|]. apply cursor_ok_end; [|done].
      unfold numrows in *. simpl. lia.
    + rewrite (editorMoveCursor_right_in_line E r Hr) by lia.
      eexists. split; [done|]. apply (cursor_ok_row _ r); [done|]. simpl. lia.
Qed.

Lemma editorScroll_defined E : cursor_ok E → ∃ E', editorScroll E = Some E'.
Proof.
  intros Hok. rewrite editorScroll_closed_form; [by eexists|destruct Hok; lia|].
  intros r Hr. destruct Hok as [_ Hcx]. unfold cursor_rowlen in Hcx.
  rewrite Hr in Hcx. lia.
Qed.

Lemma editorSave_defined io E : cursor_ok E → ∃ E', editorSave io E = Some E'.
Proof.
  intros Hok. unfold editorSave, editorPrompt.
  destruct (filename E); [by eexists|].
  destruct (editorScroll_defined E Hok) as [E1 ->]. simpl.
  destruct (prompt_answer io); by eexists.
Qed.

(** Every key but the quit command leaves the switch by [break]. *)
Lemma editorProcessKey_breaks io c E :
  c ≠ CTRL_KEY CH_q → ∃ o, editorProcessKey io c E = break_switch o.
Proof.
  intros Hc. unfold editorProcessKey.
  destruct (c =? CR); [by eexists|].
  destruct (Z.eqb_spec c (CTRL_KEY CH_q)); [done|].
  destruct (c =? CTRL_KEY CH_s); [by eexists|].
  destruct (c =? HOME_KEY); [by eexists|].
  destruct (c =? END_KEY); [by eexists|].
  destruct (_ || _); [by eexists|].
  destruct (_ || _); [by eexists|].
  destruct (_ || _); [by eexists|].
  destruct (_ || _); by eexists.
Qed.

Lemma editorProcessKey_defined io c E :
  c ≠ CTRL_KEY CH_q → cursor_ok E → 0 ≤ rowoff E → 0 < screenrows E →
  ∃ E', editorProcessKey io c E = Running E'.
Proof.
  intros Hc Hok Hro Hsr.
  assert (∀ o, (∃ E', o = Some E') → ∃ E', break_switch o = Running E') as Hbrk.
  { intros o [E' ->]. by eexists. }
  unfold editorProcessKey.
  destruct (c =? CR).
  { apply Hbrk. destruct (editorInsertNewline_cursor_ok E Hok) as (E' & -> & _).
    by eexists. }
  destruct (Z.eqb_spec c (CTRL_KEY CH_q)); [done|].
  destruct (c =? CTRL_KEY CH_s).
  { apply Hbrk. apply editorSave_defined, Hok. }
  destruct (c =? HOME_KEY); [apply Hbrk; by eexists|].
  destruct (c =? END_KEY).
  { apply Hbrk. destruct (Z.ltb_spec (cy E) (numrows E)); [|by eexists].
    destruct (row_at_is_Some E (cy E)) as [r ->]; [destruct Hok; lia|]. by eexists. }
  destruct (_ || _).
  { apply Hbrk. destruct (c =? DEL_KEY).
    - destruct (editorMoveCursor_right_cursor_ok E Hok) as (E1 & -> & Hok1). simpl.
      destruct (editorDeleteChar_cursor_ok E1 Hok1) as (E' & -> & _). by eexists.
    - simpl. destruct (editorDeleteChar_cursor_ok E Hok) as (E' & -> & _). by eexists. }
  destruct (_ || _).
  { apply Hbrk. destruct Hok as [Hcy _].
    destruct (c =? PAGE_UP).
    - cbn [screenrows set_cy]. destruct (Z.ltb_spec (screenrows E) 0); [lia|].
      apply move_times_vertical; [by left|]. simpl. lia.
    - match goal with
      | |- ∃ E', (if screenrows ?E1 <? 0 then _ else _) = _ =>
          assert (screenrows E1 = screenrows E ∧ 0 ≤ cy E1) as [Hsr1 Hcy1]
      end.
      { cbn [cy set_cy].
        destruct (_ >? _); unfold numrows; simpl; lia. }
      rewrite Hsr1. destruct (Z.ltb_spec (screenrows E) 0); [lia|].
      apply move_times_vertical; [by right|done]. }
  destruct (_ || _).
  { apply Hbrk. destruct (editorMoveCursor_defined c E Hok) as (E' & -> & _).
    by eexists. }
  destruct (_ || _); [apply Hbrk; by eexists|].
  apply Hbrk. destruct (editorInsertChar_cursor_ok c E Hok) as (E' & -> & _).
  by eexists.
Qed.

(* ================================================================= *)
(** ** Quitting with unsaved changes *)

(** C2 as stated fails at the third press: after one character typed
    in an empty document, the third consecutive quit command still
    returns to the main loop (with the counter at 0); the process
    exits at the fourth. *)
Lemma third_quit_press_keeps_running :
  let io := mk_save_io None true true true "" in
  let E := mk_editor 1 0 0 0 0 22 80 [mk_erow [97] 1 [97]]
             2 None MsgEmpty KILO_QUIT_TIMES in
  let E3 := mk_editor 1 0 0 0 0 22 80 [mk_erow [97] 1 [97]]
              2 None (MsgQuitWarning 1) 0 in
  editorProcessKey io 97 (initEditor 24 80) = Running E
  ∧ dirty E ≠ 0
  ∧ press_quit io (Z.to_nat KILO_QUIT_TIMES) E = Running E3
  ∧ press_quit io (Z.to_nat KILO_QUIT_TIMES + 1) E = Exited 0.
Proof.
  intros io E E3.
  split; [by vm_compute|]. split; [by vm_compute|].
  split; by vm_compute.
Qed.

(** C2, amended.  For a dirty document and a counter at
    [KILO_QUIT_TIMES] = 3, each of the first three consecutive quit
    commands leaves the process running, shows the counter (3, 2, 1) in
    the status message and decrements it, changing nothing else; the
    fourth consecutive quit command exits with status 0.  The quit
    command is the byte Ctrl-Q read from the terminal.  Any other
    key never exits and, when its processing returns, has reset the
    counter to 3; on a state with a valid cursor, a viewport of at
    least one row and a non-negative row offset it always returns. *)
Theorem quit_needs_repeated_presses io E :
  dirty E ≠ 0 → quit_times E = KILO_QUIT_TIMES →
  press_quit io 1 E
  = Running (set_quit_times 2 (editorSetStatusMessage (MsgQuitWarning 3) E))
  ∧ press_quit io 2 E
    = Running (set_quit_times 1 (editorSetStatusMessage (MsgQuitWarning 2) E))
  ∧ press_quit io 3 E
    = Running (set_quit_times 0 (editorSetStatusMessage (MsgQuitWarning 1) E))
  ∧ press_quit io 4 E = Exited 0
  ∧ (∀ inp E0, editorProcessKeypress io (ReadByte (CTRL_KEY CH_q) :: inp) E0
               = Some (editorProcessKey io (CTRL_KEY CH_q) E0, inp))
  ∧ (∀ c E0, c ≠ CTRL_KEY CH_q →
       (∀ status, editorProcessKey io c E0 ≠ Exited status)
       ∧ (∀ E', editorProcessKey io c E0 = Running E' →
                quit_times E' = KILO_QUIT_TIMES)
       ∧ (cursor_ok E0 → 0 ≤ rowoff E0 → 0 < screenrows E0 →
          ∃ E', editorProcessKey io c E0 = Running E')).
Proof.
  intros Hdirty Hq.
  assert (∀ q E1, dirty E1 ≠ 0 → 0 < q → quit_times E1 = q →
          editorProcessKey io (CTRL_KEY CH_q) E1
          = Running (set_quit_times (q - 1)
                       (editorSetStatusMessage (MsgQuitWarning q) E1))) as Hwarn.
  { intros q E1 Hd Hpos Hq1. unfold editorProcessKey.
    cbn [Z.eqb CTRL_KEY CH_q CR Z.land Pos.land Pos.eqb].
    destruct (Z.eqb_spec (dirty E1) 0); [done|].
    rewrite Hq1. destruct (Z.gtb_spec q 0); [|lia]. done. }
  assert (∀ E1, quit_times E1 = 0 →
          editorProcessKey io (CTRL_KEY CH_q) E1 = Exited 0) as Hexit.
  { intros E1 Hq1. unfold editorProcessKey.
    cbn [Z.eqb CTRL_KEY CH_q CR Z.land Pos.land Pos.eqb].
    rewrite Hq1. by rewrite andb_false_r. }
  unfold KILO_QUIT_TIMES in Hq.
  split; [|split; [|split; [|split; [|split]]]].
  - cbn [press_quit]. by rewrite (Hwarn 3 E).
  - cbn [press_quit]. rewrite (Hwarn 3 E) by (done || lia).
    by rewrite (Hwarn 2).
  - cbn [press_quit]. rewrite (Hwarn 3 E) by (done || lia).
    rewrite (Hwarn 2) by (done || lia).
    by rewrite (Hwarn 1).
  - cbn [press_quit]. rewrite (Hwarn 3 E) by (done || lia).
    rewrite (Hwarn 2) by (done || lia).
    rewrite (Hwarn 1) by (done || lia).
    by rewrite Hexit.
  - done.
  - intros c E0 Hc.
    destruct (editorProcessKey_breaks io c E0 Hc) as [o Ho].
    split; [|split].
    + intros status. rewrite Ho. by destruct o.
    + intros E'. rewrite Ho. destruct o; simpl; [|done]. by intros [= <-].
    + by apply editorProcessKey_defined.
Qed.

Lemma quit_needs_repeated_presses_witness :
  let io := mk_save_io None true true true "" in
  let E := mk_editor 1 0 0 0 0 22 80 [editorUpdateRow (mk_erow [97] 0 [])]
             1 None MsgHelp KILO_QUIT_TIMES in
  press_quit io 3 E
  = Running (set_quit_times 0 (editorSetStatusMessage (MsgQuitWarning 1) E))
  ∧ press_quit io 4 E = Exited 0.
Proof.
  intros io E.
  destruct (quit_needs_repeated_presses io E) as (_ & _ & H3 & H4 & _ & _).
  - simpl. lia.
  - reflexivity.
  - by split.
Defined.

(* ================================================================= *)
(** ** Edits undone by a backward delete *)

Lemma row_in_sync_eq a b :
  row_in_sync a → row_in_sync b → chars a = chars b → a = b.
Proof.
  destruct a as [ca sa ra], b as [cb sb rb]. unfold row_in_sync. simpl.
  intros [-> ->] [-> ->] ->. done.
Qed.

Lemma editorUpdateRow_id r s0 rd :
  row_in_sync r → editorUpdateRow (mk_erow (chars r) s0 rd) = r.
Proof.
  intros Hr. apply row_in_sync_eq; [apply editorUpdateRow_in_sync|done|].
  by rewrite editorUpdateRow_chars.
Qed.

Lemma row_at_in_sync E i r :
  renders_in_sync E → row_at E i = Some r → row_in_sync r.
Proof.
  intros HE [_ Hr]%row_at_Some. unfold renders_in_sync in HE.
  rewrite Forall_lookup in HE. by eapply HE.
Qed.

Lemma delete_insert_at {A} n (x : A) l :
  (n ≤ length l)%nat → delete n (insert_at n x l) = l.
Proof.
  intros Hn. unfold insert_at. rewrite delete_take_drop.
  rewrite take_app_length' by (rewrite length_take; lia).
  rewrite drop_app_ge by (rewrite length_take; lia).
  rewrite length_take. replace (S n - n `min` length l)%nat with 1%nat by lia.
  simpl. by rewrite drop_0, take_drop.
Qed.

Lemma editorInsertChar_in_line c E r :
  row_at E (cy E) = Some r → 0 ≤ cx E ≤ size r →
  editorInsertChar c E
  = Some (set_cx (cx E + 1)
            (set_dirty (dirty E + 1)
               (set_row (<[Z.to_nat (cy E) :=
                            editorUpdateRow
                              (mk_erow (insert_at (Z.to_nat (cx E)) (char_of_int c) (chars r))
                                       (rsize r) (render r))]> (row E)) E))).
Proof.
  intros Hr Hcx. pose proof (row_at_lt _ _ _ Hr) as Hcy. unfold editorInsertChar.
  destruct (Z.eqb_spec (cy E) (numrows E)); [lia|].
  by rewrite (editorRowInsertChar_in_range E r (cx E) c Hr Hcx).
Qed.

(** X1.  Typing a character inside a line (or at its end) and then
    pressing Backspace gives back the rows and the cursor there were,
    renders included; the dirty counter has gone up by two. *)
Theorem insert_then_backspace E r c :
  renders_in_sync E → row_at E (cy E) = Some r → 0 ≤ cx E ≤ size r →
  ∃ E1 E2,
    editorInsertChar c E = Some E1
    ∧ editorDeleteChar E1 = Some E2
    ∧ row E2 = row E ∧ cx E2 = cx E ∧ cy E2 = cy E
    ∧ dirty E2 = dirty E + 2.
Proof.
  intros Hsync Hr Hcx. pose proof (row_at_lt _ _ _ Hr) as Hcy.
  pose proof (row_at_in_sync E _ r Hsync Hr) as Hrs.
  assert (row E !! Z.to_nat (cy E) = Some r) as Hlk by (by apply row_at_Some in Hr as [_ ?]).
  rewrite (editorInsertChar_in_line c E r Hr Hcx).
  set (r1 := editorUpdateRow _).
  eexists _, _. split; [done|].
  set (E1 := set_cx _ _).
  assert (row_at E1 (cy E1) = Some r1) as Hr1.
  { apply row_at_Some. split; [simpl; lia|]. subst E1. simpl.
    apply list_lookup_insert_eq. unfold numrows in Hcy. lia. }
  assert (size r1 = size r + 1) as Hsz.
  { unfold r1, size. rewrite editorUpdateRow_chars. cbn [chars].
    unfold size in Hcx. rewrite length_insert_at by lia. lia. }
  rewrite (editorDeleteChar_in_line E1 r1 Hr1) by (subst E1; simpl; lia).
  split; [done|]. cbn [row cx cy dirty set_cx set_dirty set_row E1].
  split; [|split; [lia|split; [done|lia]]].
  rewrite list_insert_insert_eq.
  replace (cx E + 1 - 1) with (cx E) by lia.
  unfold r1 at 1. rewrite editorUpdateRow_chars. cbn [chars].
  rewrite delete_insert_at by (unfold size in Hcx; lia).
  rewrite (editorUpdateRow_id r) by done.
  by apply list_insert_id.
Qed.

Lemma insert_then_backspace_witness :
  let E := mk_editor 1 0 0 0 0 22 80 [mk_erow [97; 98] 2 [97; 98]] 0 None MsgEmpty KILO_QUIT_TIMES in
  ∃ E1 E2,
    editorInsertChar 120 E = Some E1
    ∧ editorDeleteChar E1 = Some E2
    ∧ row E2 = row E ∧ cx E2 = cx E ∧ cy E2 = cy E
    ∧ dirty E2 = dirty E + 2.
Proof.
  intros E. apply (insert_then_backspace E (mk_erow [97; 98] 2 [97; 98]) 120).
  - repeat constructor.
  - reflexivity.
  - vm_compute. split; discriminate.
Defined.

Lemma row_at_split E i r :
  row_at E i = Some r →
  ∃ pre post, row E = pre ++ r :: post ∧ Z.to_nat i = length pre
              ∧ take (Z.to_nat i) (row E) = pre
              ∧ drop (S (Z.to_nat i)) (row E) = post.
Proof.
  intros [Hi Hr]%row_at_Some.
  exists (take (Z.to_nat i) (row E)), (drop (S (Z.to_nat i)) (row E)).
  split; [by rewrite take_drop_middle|]. split; [|done].
  rewrite length_take. apply lookup_lt_Some in Hr. lia.
Qed.

Lemma insert_at_middle {A} (pre post : list A) x :
  insert_at (length pre) x (pre ++ post) = pre ++ x :: post.
Proof.
  unfold insert_at. by rewrite take_app_length, drop_app_length.
Qed.

Lemma insert_middle {A} (pre post : list A) x y :
  <[length pre := x]> (pre ++ y :: post) = pre ++ x :: post.
Proof.
  rewrite insert_app_r_alt by lia. by rewrite Nat.sub_diag.
Qed.

Lemma delete_middle_next {A} (pre post : list A) y z :
  delete (S (length pre)) (pre ++ y :: z :: post) = pre ++ y :: post.
Proof. induction pre as [|a pre IH]; simpl; [done|]. by rewrite IH. Qed.

(** X2.  Pressing Enter on a line splits it: one more row, the cursor
    at column 0 of the next row.  Backspace right after joins the two
    halves again: the rows and the cursor are the ones before Enter,
    renders included, and the dirty counter has gone up by three. *)
Theorem newline_then_backspace E r :
  renders_in_sync E → row_at E (cy E) = Some r → 0 ≤ cx E ≤ size r →
  ∃ E1 E2,
    editorInsertNewline E = Some E1
    ∧ numrows E1 = numrows E + 1 ∧ cy E1 = cy E + 1 ∧ cx E1 = 0
    ∧ editorDeleteChar E1 = Some E2
    ∧ row E2 = row E ∧ cx E2 = cx E ∧ cy E2 = cy E
    ∧ dirty E2 = dirty E + 3.
Proof.
  intros Hsync Hr Hcx. pose proof (row_at_lt _ _ _ Hr) as Hcy.
  pose proof (row_at_in_sync E _ r Hsync Hr) as Hrs.
  destruct (row_at_split E _ r Hr) as (pre & post & Hrows & Hlen & _ & _).
  assert (Z.to_nat (cy E + 1) = S (length pre)) as Hlen1 by lia.
  assert (∃ A B, editorInsertNewline E
                 = Some (set_cx 0 (set_cy (cy E + 1)
                           (set_dirty (dirty E + 1) (set_row (pre ++ A :: B :: post) E))))
                 ∧ chars A ++ chars B = chars r ∧ size A = cx E) as (A & B & -> & HAB & HA).
  { destruct (decide (cx E = 0)) as [Hcx0|Hcx0].
    - exists (editorUpdateRow (mk_erow [] 0 [])), r.
      rewrite editorInsertNewline_at_col0 by (done || lia).
      rewrite Hrows at 1. rewrite Hlen, insert_at_middle.
      split; [done|]. split; [done|]. by rewrite Hcx0.
    - exists (editorUpdateRow (mk_erow (take (Z.to_nat (cx E)) (chars r)) (rsize r) (render r))),
              (editorUpdateRow (mk_erow (drop (Z.to_nat (cx E)) (chars r)) 0 [])).
      rewrite (editorInsertNewline_split E r Hr) by lia.
      rewrite Hrows at 1. rewrite Hlen, Hlen1.
      replace (pre ++ r :: post) with ((pre ++ [r]) ++ post) by (by rewrite <- app_assoc).
      replace (S (length pre)) with (length (pre ++ [r])) by (rewrite length_app; simpl; lia).
      rewrite insert_at_middle. rewrite <- app_assoc. cbn [app].
      rewrite insert_middle.
      split; [done|]. rewrite !editorUpdateRow_chars. cbn [chars].
      split; [apply take_drop|].
      unfold size. rewrite editorUpdateRow_chars. cbn [chars].
      rewrite length_take. unfold size in Hcx. lia. }
  set (E1 := set_cx 0 _).
  assert (row_at E1 (cy E1 - 1) = Some A) as HrA.
  { apply row_at_Some. subst E1. cbn [cy row set_cx set_cy set_dirty set_row].
    split; [lia|]. replace (Z.to_nat (cy E + 1 - 1)) with (length pre) by lia.
    by rewrite list_lookup_middle. }
  assert (row_at E1 (cy E1) = Some B) as HrB.
  { apply row_at_Some. subst E1. cbn [cy row set_cx set_cy set_dirty set_row].
    split; [lia|]. rewrite Hlen1.
    replace (pre ++ A :: B :: post) with ((pre ++ [A]) ++ B :: post)
      by (by rewrite <- app_assoc).
    rewrite list_lookup_middle; [done|]. rewrite length_app. simpl. lia. }
  exists E1. eexists. split; [done|].
  split; [subst E1; unfold numrows; cbn [row set_cx set_cy set_dirty set_row];
          rewrite Hrows, !length_app; simpl; lia|].
  split; [done|]. split; [done|].
  rewrite (editorDeleteChar_join E1 A B) by (done || (subst E1; simpl; lia)).
  split; [done|]. subst E1. cbn [row cx cy dirty set_cx set_cy set_dirty set_row].
  split; [|split; [done|split; [lia|lia]]].
  replace (Z.to_nat (cy E + 1 - 1)) with (length pre) by lia.
  rewrite Hlen1, insert_middle, delete_middle_next, HAB.
  by rewrite (editorUpdateRow_id r), Hrows.
Qed.

Lemma newline_then_backspace_witness :
  let E := mk_editor 1 0 0 0 0 22 80 [mk_erow [97; 98] 2 [97; 98]] 0 None MsgEmpty KILO_QUIT_TIMES in
  ∃ E1 E2,
    editorInsertNewline E = Some E1
    ∧ numrows E1 = numrows E + 1 ∧ cy E1 = cy E + 1 ∧ cx E1 = 0
    ∧ editorDeleteChar E1 = Some E2
    ∧ row E2 = row E ∧ cx E2 = cx E ∧ cy E2 = cy E
    ∧ dirty E2 = dirty E + 3.
Proof.
  intros E. apply (newline_then_backspace E (mk_erow [97; 98] 2 [97; 98])).
  - repeat constructor.
  - reflexivity.
  - vm_compute. split; discriminate.
Defined.

(* ================================================================= *)
(** ** Edits seen in the bytes of the file *)

Lemma doc_bytes_spec E : doc_bytes E = spec_saveBytes (map chars (row E)).
Proof. unfold doc_bytes. by rewrite editorRowsToString_spec. Qed.

Lemma spec_saveBytes_app a b :
  spec_saveBytes (a ++ b) = spec_saveBytes a ++ spec_saveBytes b.
Proof. unfold spec_saveBytes. by rewrite map_app, concat_app. Qed.

Lemma spec_saveBytes_cons l ls :
  spec_saveBytes (l :: ls) = l ++ NEWLINE :: spec_saveBytes ls.
Proof. unfold spec_saveBytes. simpl. by rewrite <- app_assoc. Qed.

Lemma doc_bytes_middle E pre r post :
  row E = pre ++ r :: post →
  doc_bytes E = spec_saveBytes (map chars pre)
                ++ chars r ++ NEWLINE :: spec_saveBytes (map chars post).
Proof.
  intros Hrows. rewrite doc_bytes_spec, Hrows, map_app, spec_saveBytes_app.
  simpl. by rewrite spec_saveBytes_cons.
Qed.

Lemma cursor_offset_middle E pre :
  take (Z.to_nat (cy E)) (row E) = pre →
  cursor_offset E
  = (length (spec_saveBytes (map chars pre)) + Z.to_nat (cx E))%nat.
Proof. intros Hpre. unfold cursor_offset. by rewrite Hpre. Qed.

Lemma insert_at_inner {A} (P M Q : list A) n x :
  (n ≤ length M)%nat →
  insert_at (length P + n)%nat x (P ++ M ++ Q)
  = P ++ (take n M ++ x :: drop n M) ++ Q.
Proof.
  intros Hn. unfold insert_at.
  rewrite take_app_add, drop_app_add.
  rewrite take_app_le, drop_app_le by lia.
  by rewrite <- !app_assoc.
Qed.

Lemma delete_inner {A} (P M Q : list A) n :
  (n < length M)%nat →
  delete (length P + n)%nat (P ++ M ++ Q) = P ++ delete n M ++ Q.
Proof.
  intros Hn. rewrite !delete_take_drop.
  rewrite take_app_add.
  replace (S (length P + n)) with (length P + S n)%nat by lia.
  rewrite drop_app_add.
  rewrite take_app_le, drop_app_le by lia.
  by rewrite <- !app_assoc.
Qed.

(** The rows after [editorInsertNewline] with the cursor on a line:
    the line is replaced by its two parts. *)
Lemma editorInsertNewline_shape E r pre post :
  row_at E (cy E) = Some r → 0 ≤ cx E ≤ size r →
  row E = pre ++ r :: post → Z.to_nat (cy E) = length pre →
  ∃ A B,
    editorInsertNewline E
    = Some (set_cx 0 (set_cy (cy E + 1)
              (set_dirty (dirty E + 1) (set_row (pre ++ A :: B :: post) E))))
    ∧ chars A = take (Z.to_nat (cx E)) (chars r)
    ∧ chars B = drop (Z.to_nat (cx E)) (chars r)
    ∧ row_in_sync A ∧ (row_in_sync r → row_in_sync B).
Proof.
  intros Hr Hcx Hrows Hlen. pose proof (row_at_lt _ _ _ Hr) as Hcy.
  assert (Z.to_nat (cy E + 1) = S (length pre)) as Hlen1 by lia.
  destruct (decide (cx E = 0)) as [Hcx0|Hcx0].
  - exists (editorUpdateRow (mk_erow [] 0 [])), r.
    rewrite editorInsertNewline_at_col0 by (done || lia).
    rewrite Hrows at 1. rewrite Hlen, insert_at_middle.
    split; [done|]. rewrite Hcx0. simpl. rewrite drop_0.
    split; [by rewrite take_0|]. split; [done|].
    split; [apply editorUpdateRow_in_sync|done].
  - exists (editorUpdateRow (mk_erow (take (Z.to_nat (cx E)) (chars r)) (rsize r) (render r))),
           (editorUpdateRow (mk_erow (drop (Z.to_nat (cx E)) (chars r)) 0 [])).
    rewrite (editorInsertNewline_split E r Hr) by lia.
    rewrite Hrows at 1. rewrite Hlen, Hlen1.
    replace (pre ++ r :: post) with ((pre ++ [r]) ++ post) by (by rewrite <- app_assoc).
    replace (S (length pre)) with (length (pre ++ [r])) by (rewrite length_app; simpl; lia).
    rewrite insert_at_middle. rewrite <- app_assoc. cbn [app].
    rewrite insert_middle.
    split; [done|]. rewrite !editorUpdateRow_chars. cbn [chars].
    split; [done|]. split; [done|].
    split; [apply editorUpdateRow_in_sync|]. intros _. apply editorUpdateRow_in_sync.
Qed.

(** [editorInsertChar] with the cursor on a line, in the bytes of the
    file: one byte more at the offset of the cursor, which stays on
    its line. *)
Lemma editorInsertChar_line_bytes c E r :
  row_at E (cy E) = Some r → 0 ≤ cx E ≤ size r →
  ∃ E' r', editorInsertChar c E = Some E'
           ∧ doc_bytes E' = insert_at (cursor_offset E) (char_of_int c) (doc_bytes E)
           ∧ cursor_offset E' = S (cursor_offset E)
           ∧ numrows E' = numrows E
           ∧ row_at E' (cy E') = Some r' ∧ 0 ≤ cx E' ≤ size r'.
Proof.
  intros Hr Hcx. pose proof (row_at_lt _ _ _ Hr) as Hcy.
  destruct (row_at_split E _ r Hr) as (pre & post & Hrows & Hlen & Hpre & _).
  rewrite (editorInsertChar_in_line c E r Hr Hcx).
  set (r1 := editorUpdateRow _).
  exists (set_cx (cx E + 1)
            (set_dirty (dirty E + 1) (set_row (<[Z.to_nat (cy E) := r1]> (row E)) E))), r1.
  split; [done|].
  assert (<[Z.to_nat (cy E) := r1]> (row E) = pre ++ r1 :: post) as Hrows1.
  { by rewrite Hrows, Hlen, insert_middle. }
  split; [|split; [|split; [|split]]].
  - rewrite (doc_bytes_middle _ pre r1 post) by (simpl; exact Hrows1).
    rewrite (doc_bytes_middle E pre r post Hrows).
    rewrite (cursor_offset_middle E pre Hpre).
    rewrite insert_at_inner by (unfold size in Hcx; lia).
    unfold r1. rewrite editorUpdateRow_chars. cbn [chars]. done.
  - unfold cursor_offset. cbn [cx cy row set_cx set_dirty set_row].
    rewrite Hrows1, Hrows, Hlen, !take_app_length. lia.
  - unfold numrows. cbn [row set_cx set_dirty set_row].
    by rewrite length_insert.
  - apply row_at_Some. cbn [row cx cy set_cx set_dirty set_row].
    split; [lia|]. rewrite Hrows1, Hlen. apply list_lookup_middle. done.
  - cbn [cx set_cx set_dirty set_row]. unfold r1.
    rewrite editorUpdateRow_size. unfold size in *. cbn [chars].
    rewrite length_insert_at by lia. lia.
Qed.

(** X3.  [editorInsertChar] seen in the bytes [editorSave] would write.
    With the cursor on a line, the character (as a [char]) is inserted
    at the byte offset of the cursor, the cursor moves one byte on and
    no row is added.  With the cursor on the virtual row after the last
    line, a new line holding the character is appended: the file grows
    by the character and a newline. *)
Theorem insertChar_inserts_byte c E :
  (∀ r, row_at E (cy E) = Some r → 0 ≤ cx E ≤ size r →
     ∃ E', editorInsertChar c E = Some E'
           ∧ doc_bytes E' = insert_at (cursor_offset E) (char_of_int c) (doc_bytes E)
           ∧ cursor_offset E' = S (cursor_offset E)
           ∧ numrows E' = numrows E)
  ∧ (cy E = numrows E → cx E = 0 →
     ∃ E', editorInsertChar c E = Some E'
           ∧ doc_bytes E' = doc_bytes E ++ [char_of_int c; NEWLINE]
           ∧ numrows E' = numrows E + 1
           ∧ cx E' = 1 ∧ cy E' = cy E).
Proof.
  split.
  - intros r Hr Hcx.
    destruct (editorInsertChar_line_bytes c E r Hr Hcx)
      as (E' & r' & Hins & Hbytes & Hoff & Hnum & _).
    by exists E'.
  - intros Hcy Hcx. unfold editorInsertChar.
    rewrite Hcy, Z.eqb_refl.
    rewrite editorInsertRow_in_range by (unfold numrows; lia).
    unfold numrows in *. rewrite Nat2Z.id, insert_at_end.
    set (E1 := set_dirty _ _).
    assert (row_at E1 (cy E1) = Some (editorUpdateRow (mk_erow [] 0 []))) as Hr1.
    { apply row_at_Some. subst E1. simpl. rewrite Hcy.
      split; [lia|]. rewrite Nat2Z.id. by rewrite lookup_app_r, Nat.sub_diag by lia. }
    rewrite (editorRowInsertChar_in_range E1 _ (cx E1) c Hr1)
      by (subst E1; simpl; unfold size; simpl; lia).
    eexists. split; [done|].
    subst E1. cbn [row cx cy dirty set_cx set_dirty set_row].
    split; [|split; [|split; [lia|done]]].
    + rewrite !doc_bytes_spec. cbn [row set_cx set_dirty set_row].
      rewrite Hcy, Nat2Z.id.
      replace (length (row E)) with (length (row E) + 0)%nat at 1 by lia.
      rewrite insert_app_r.
      change (<[0%nat := ?x]> [?y]) with [x].
      rewrite map_app, spec_saveBytes_app.
      f_equal. cbn [map]. rewrite spec_saveBytes_cons.
      rewrite editorUpdateRow_chars. rewrite Hcx. done.
    + rewrite length_insert, length_app. simpl. lia.
Qed.

Lemma insertChar_inserts_byte_witness :
  (let E := mk_editor 1 0 0 0 0 22 80 [mk_erow [97; 98] 2 [97; 98]] 0 None MsgEmpty KILO_QUIT_TIMES in
   ∃ E', editorInsertChar 120 E = Some E'
         ∧ doc_bytes E' = insert_at (cursor_offset E) (char_of_int 120) (doc_bytes E)
         ∧ cursor_offset E' = S (cursor_offset E)
         ∧ numrows E' = numrows E)
  ∧ (let E := initEditor 24 80 in
     ∃ E', editorInsertChar 120 E = Some E'
           ∧ doc_bytes E' = doc_bytes E ++ [char_of_int 120; NEWLINE]
           ∧ numrows E' = numrows E + 1
           ∧ cx E' = 1 ∧ cy E' = cy E).
Proof.
  split; intros E.
  - destruct (insertChar_inserts_byte 120 E) as [Hline _].
    apply (Hline (mk_erow [97; 98] 2 [97; 98])).
    + reflexivity.
    + vm_compute. split; discriminate.
  - destruct (insertChar_inserts_byte 120 E) as [_ Hvirtual].
    apply Hvirtual; reflexivity.
Defined.

(** [editorInsertNewline] with the cursor on a line, in the bytes of
    the file: one newline more at the offset of the cursor, which goes
    to the start of the second part of the line. *)
Lemma editorInsertNewline_line_bytes E r :
  row_at E (cy E) = Some r → 0 ≤ cx E ≤ size r →
  ∃ E' r', editorInsertNewline E = Some E'
           ∧ doc_bytes E' = insert_at (cursor_offset E) NEWLINE (doc_bytes E)
           ∧ cursor_offset E' = S (cursor_offset E)
           ∧ numrows E' = numrows E + 1
           ∧ row_at E' (cy E') = Some r' ∧ 0 ≤ cx E' ≤ size r'.
Proof.
  intros Hr Hcx. pose proof (row_at_lt _ _ _ Hr) as Hcy.
  destruct (row_at_split E _ r Hr) as (pre & post & Hrows & Hlen & Hpre & _).
  destruct (editorInsertNewline_shape E r pre post Hr Hcx Hrows Hlen)
    as (A & B & -> & HA & HB & _).
  eexists _, B. split; [done|]. split; [|split; [|split; [|split]]].
  - rewrite (doc_bytes_middle E pre r post Hrows).
    rewrite (cursor_offset_middle E pre Hpre).
    rewrite insert_at_inner by (unfold size in Hcx; lia).
    rewrite doc_bytes_spec. cbn [row set_cx set_cy set_dirty set_row].
    rewrite map_app, spec_saveBytes_app. cbn [map].
    rewrite !spec_saveBytes_cons, HA, HB.
    by rewrite <- !app_assoc.
  - rewrite (cursor_offset_middle E pre Hpre).
    unfold cursor_offset. cbn [row cx cy set_cx set_cy set_dirty set_row].
    replace (Z.to_nat (cy E + 1)) with (length (pre ++ [A])) by
      (rewrite length_app; simpl; lia).
    replace (pre ++ A :: B :: post) with ((pre ++ [A]) ++ B :: post)
      by (by rewrite <- app_assoc).
    rewrite take_app_length, map_app, spec_saveBytes_app, length_app. cbn [map].
    rewrite spec_saveBytes_cons, HA, length_app, length_take. simpl.
    unfold size in Hcx. lia.
  - unfold numrows. cbn [row set_cx set_cy set_dirty set_row].
    rewrite Hrows, !length_app. simpl. lia.
  - apply row_at_Some. cbn [row cx cy set_cx set_cy set_dirty set_row].
    split; [lia|].
    replace (Z.to_nat (cy E + 1)) with (length (pre ++ [A])) by
      (rewrite length_app; simpl; lia).
    replace (pre ++ A :: B :: post) with ((pre ++ [A]) ++ B :: post)
      by (by rewrite <- app_assoc).
    apply list_lookup_middle. done.
  - cbn [cx set_cx]. pose proof (size_nonneg B). lia.
Qed.

(** X4.  [editorInsertNewline] on a state with a valid cursor inserts
    exactly one newline byte at the byte offset of the cursor in the
    bytes [editorSave] would write, moves the cursor one byte on and
    adds one row; this holds at column 0, inside a line, at its end and
    on the virtual row alike. *)
Theorem insertNewline_inserts_newline E :
  cursor_ok E →
  ∃ E', editorInsertNewline E = Some E'
        ∧ doc_bytes E' = insert_at (cursor_offset E) NEWLINE (doc_bytes E)
        ∧ cursor_offset E' = S (cursor_offset E)
        ∧ numrows E' = numrows E + 1.
Proof.
  intros Hok.
  destruct (cursor_ok_cases E Hok) as [[Hcy Hcx]|(r & Hr & Hcx & Hcy)].
  - rewrite editorInsertNewline_at_col0 by (done || unfold numrows in *; lia).
    eexists. split; [done|].
    assert (Z.to_nat (cy E) = length (row E)) as Hlen by (unfold numrows in Hcy; lia).
    assert (cursor_offset E = length (doc_bytes E)) as Hoff.
    { unfold cursor_offset. rewrite Hlen, Hcx, take_ge, doc_bytes_spec by lia. simpl. lia. }
    assert (spec_saveBytes (map chars (row E ++ [editorUpdateRow (mk_erow [] 0 [])]))
            = doc_bytes E ++ [NEWLINE]) as Hbytes.
    { rewrite map_app, spec_saveBytes_app, doc_bytes_spec. done. }
    rewrite Hoff, insert_at_end.
    split; [|split].
    + rewrite doc_bytes_spec. cbn [row set_cx set_cy set_dirty set_row].
      by rewrite Hlen, insert_at_end.
    + unfold cursor_offset. cbn [row cx cy set_cx set_cy set_dirty set_row].
      rewrite Hlen, insert_at_end.
      rewrite take_ge by (rewrite length_app; simpl; unfold numrows in Hcy; lia).
      rewrite Hbytes, length_app. simpl. lia.
    + unfold numrows. cbn [row set_cx set_cy set_dirty set_row].
      rewrite Hlen, insert_at_end, length_app. simpl. lia.
  - destruct (editorInsertNewline_line_bytes E r Hr Hcx)
      as (E' & r' & Hins & Hbytes & Hoff & Hnum & _).
    by exists E'.
Qed.

Lemma insertNewline_inserts_newline_witness :
  let E := mk_editor 1 0 0 0 0 22 80 [mk_erow [97; 98] 2 [97; 98]] 0 None MsgEmpty KILO_QUIT_TIMES in
  ∃ E', editorInsertNewline E = Some E'
        ∧ doc_bytes E' = insert_at (cursor_offset E) NEWLINE (doc_bytes E)
        ∧ cursor_offset E' = S (cursor_offset E)
        ∧ numrows E' = numrows E + 1.
Proof.
  intros E. apply (insertNewline_inserts_newline E).
  vm_compute. repeat split; discriminate.
Defined.

Lemma row_at_split2 E i prev cur :
  0 < i → row_at E (i - 1) = Some prev → row_at E i = Some cur →
  ∃ pre post, row E = pre ++ prev :: cur :: post
              ∧ Z.to_nat (i - 1) = length pre ∧ Z.to_nat i = S (length pre).
Proof.
  intros Hi Hprev Hcur.
  destruct (row_at_split E _ prev Hprev) as (pre & post0 & Hrows & Hlen & _ & _).
  apply row_at_Some in Hcur as [_ Hcur]. rewrite Hrows in Hcur.
  replace (Z.to_nat i) with (length pre + 1)%nat in Hcur by lia.
  rewrite lookup_app_r in Hcur by lia.
  replace (length pre + 1 - length pre)%nat with 1%nat in Hcur by lia.
  destruct post0 as [|x post]; simplify_eq/=.
  exists pre, post. split; [done|]. lia.
Qed.

(** X5.  [editorDeleteChar] with the cursor on a line, anywhere but at
    the very start of the document, removes exactly the byte before the
    cursor from the bytes [editorSave] would write (a character of the
    line, or the newline that ends the line above) and moves the cursor
    one byte back. *)
Theorem backspace_deletes_byte E r :
  row_at E (cy E) = Some r → 0 ≤ cx E ≤ size r → ¬ (cx E = 0 ∧ cy E = 0) →
  ∃ E', editorDeleteChar E = Some E'
        ∧ (1 ≤ cursor_offset E)%nat
        ∧ doc_bytes E' = delete (cursor_offset E - 1)%nat (doc_bytes E)
        ∧ cursor_offset E' = (cursor_offset E - 1)%nat.
Proof.
  intros Hr Hcx Hnot. pose proof (row_at_lt _ _ _ Hr) as Hcy.
  destruct (decide (cx E = 0)) as [Hcx0|Hcx0].
  - assert (0 < cy E) as Hcy0 by lia.
    destruct (row_at_is_Some E (cy E - 1)) as [prev Hprev]; [lia|].
    destruct (row_at_split2 E _ prev r Hcy0 Hprev Hr)
      as (pre & post & Hrows & Hlen & Hlen1).
    rewrite (editorDeleteChar_join E prev r Hcx0 Hcy0 Hprev Hr).
    eexists. split; [done|].
    set (P := spec_saveBytes (map chars pre)).
    set (Q := spec_saveBytes (map chars post)).
    assert (doc_bytes E = (P ++ chars prev) ++ NEWLINE :: chars r ++ NEWLINE :: Q) as Hb.
    { rewrite (doc_bytes_middle E pre prev (r :: post) Hrows). cbn [map].
      rewrite spec_saveBytes_cons. by rewrite <- !app_assoc. }
    assert (cursor_offset E = S (length (P ++ chars prev))) as Hoff.
    { unfold cursor_offset. rewrite Hlen1, Hcx0, Hrows.
      replace (pre ++ prev :: r :: post) with ((pre ++ [prev]) ++ r :: post)
        by (by rewrite <- app_assoc).
      replace (S (length pre)) with (length (pre ++ [prev]))
        by (rewrite length_app; simpl; lia).
      rewrite take_app_length, map_app, spec_saveBytes_app. cbn [map].
      rewrite spec_saveBytes_cons. fold P.
      rewrite !length_app. simpl. lia. }
    rewrite Hoff, Hb. cbn [Nat.sub]. rewrite Nat.sub_0_r.
    split; [lia|]. rewrite delete_middle.
    cbn [row cx cy set_cx set_cy set_dirty set_row].
    rewrite Hrows, Hlen, Hlen1, insert_middle, delete_middle_next.
    split.
    + rewrite doc_bytes_spec. cbn [row set_cx set_cy set_dirty set_row].
      rewrite map_app, spec_saveBytes_app. cbn [map].
      rewrite spec_saveBytes_cons, editorUpdateRow_chars. cbn [chars].
      fold P Q. by rewrite <- !app_assoc.
    + unfold cursor_offset. cbn [row cx cy set_cx set_cy set_dirty set_row].
      rewrite Hlen, take_app_length. fold P.
      rewrite length_app. unfold size. lia.
  - destruct (row_at_split E _ r Hr) as (pre & post & Hrows & Hlen & Hpre & _).
    rewrite (editorDeleteChar_in_line E r Hr) by lia.
    eexists. split; [done|].
    set (r1 := editorUpdateRow _).
    assert (<[Z.to_nat (cy E) := r1]> (row E) = pre ++ r1 :: post) as Hrows1.
    { by rewrite Hrows, Hlen, insert_middle. }
    rewrite (cursor_offset_middle E pre Hpre).
    split; [lia|]. split.
    + rewrite (doc_bytes_middle _ pre r1 post) by (simpl; exact Hrows1).
      rewrite (doc_bytes_middle E pre r post Hrows).
      replace (length (spec_saveBytes (map chars pre)) + Z.to_nat (cx E) - 1)%nat
        with (length (spec_saveBytes (map chars pre)) + Z.to_nat (cx E - 1))%nat by lia.
      rewrite delete_inner by (unfold size in Hcx; lia).
      unfold r1. by rewrite editorUpdateRow_chars.
    + unfold cursor_offset. cbn [cx cy row set_cx set_dirty set_row].
      rewrite Hrows1, Hlen, !take_app_length. lia.
Qed.

Lemma backspace_deletes_byte_witness :
  let E := mk_editor 1 0 0 0 0 22 80 [mk_erow [97; 98] 2 [97; 98]] 0 None MsgEmpty KILO_QUIT_TIMES in
  ∃ E', editorDeleteChar E = Some E'
        ∧ (1 ≤ cursor_offset E)%nat
        ∧ doc_bytes E' = delete (cursor_offset E - 1)%nat (doc_bytes E)
        ∧ cursor_offset E' = (cursor_offset E - 1)%nat.
Proof.
  intros E. apply (backspace_deletes_byte E (mk_erow [97; 98] 2 [97; 98])).
  - reflexivity.
  - vm_compute. split; discriminate.
  - vm_compute. intros [H _]. discriminate H.
Defined.

(* ================================================================= *)
(** ** The dirty counter *)

Lemma dirty_tracks_refl E : dirty_tracks E E.
Proof. by split. Qed.

Lemma dirty_tracks_trans E1 E2 E3 :
  dirty_tracks E1 E2 → dirty_tracks E2 E3 → dirty_tracks E1 E3.
Proof.
  intros [H1 H1'] [H2 H2']. split; [lia|]. intros Heq.
  rewrite H2', H1' by lia. done.
Qed.

Lemma dirty_tracks_raised E E' : dirty E < dirty E' → dirty_tracks E E'.
Proof. intros H. split; lia. Qed.

Lemma editorInsertRow_dirty at0 s E : dirty_tracks E (editorInsertRow at0 s E).
Proof.
  unfold editorInsertRow. destruct (_ || _); [apply dirty_tracks_refl|].
  apply dirty_tracks_raised. simpl. lia.
Qed.

Lemma editorDelRow_dirty at0 E : dirty_tracks E (editorDelRow at0 E).
Proof.
  unfold editorDelRow. destruct (_ || _); [apply dirty_tracks_refl|].
  apply dirty_tracks_raised. simpl. lia.
Qed.

Lemma editorRowInsertChar_dirty ri at0 c E E' :
  editorRowInsertChar ri at0 c E = Some E' → dirty E' = dirty E + 1.
Proof.
  unfold editorRowInsertChar. intros H.
  destruct (row_at E ri); by simplify_eq/=.
Qed.

Lemma editorRowAppendString_dirty ri s E E' :
  editorRowAppendString ri s E = Some E' → dirty E' = dirty E + 1.
Proof.
  unfold editorRowAppendString. intros H.
  destruct (row_at E ri); by simplify_eq/=.
Qed.

Lemma editorRowDelChar_dirty ri at0 E E' :
  editorRowDelChar ri at0 E = Some E' → dirty_tracks E E'.
Proof.
  unfold editorRowDelChar. intros H.
  destruct (row_at E ri); simplify_eq/=.
  destruct (_ || _); simplify_eq/=; [apply dirty_tracks_refl|].
  apply dirty_tracks_raised. simpl. lia.
Qed.

Lemma apply_op_dirty op E E' : apply_op op E = Some E' → dirty_tracks E E'.
Proof.
  destruct op as [c| |]; simpl; intros Hop.
  - unfold editorInsertChar in Hop.
    destruct (editorRowInsertChar _ _ _ _) as [E2|] eqn:H2; simplify_eq/=.
    apply editorRowInsertChar_dirty in H2.
    apply dirty_tracks_raised. simpl.
    destruct (cy E =? numrows E); [|lia].
    pose proof (editorInsertRow_dirty (numrows E) [] E) as [? _]. lia.
  - unfold editorDeleteChar in Hop.
    destruct (cy E =? numrows E); simplify_eq/=; [apply dirty_tracks_refl|].
    destruct (_ && _); simplify_eq/=; [apply dirty_tracks_refl|].
    destruct (cx E >? 0).
    + destruct (editorRowDelChar _ _ _) as [E1|] eqn:H1; simplify_eq/=.
      apply editorRowDelChar_dirty in H1 as [H1 H1']. by split.
    + destruct (row_at E (cy E - 1)) as [prev|]; simplify_eq/=.
      destruct (row_at E (cy E)) as [cur|]; simplify_eq/=.
      destruct (editorRowAppendString _ _ _) as [E2|] eqn:H2; simplify_eq/=.
      apply editorRowAppendString_dirty in H2. simpl in H2.
      apply dirty_tracks_raised. simpl.
      pose proof (editorDelRow_dirty (cy E2) E2) as [? _]. lia.
  - destruct (Z.eqb_spec (cx E) 0) as [Hcx0|Hcx0].
    { unfold editorInsertNewline in Hop. rewrite Hcx0 in Hop. simplify_eq/=.
      pose proof (editorInsertRow_dirty (cy E) [] E) as [H1 H1']. by split. }
    destruct (row_at E (cy E)) as [r|] eqn:Hr.
    + destruct (decide (0 ≤ cx E ≤ size r)) as [Hcx|Hcx].
      * rewrite (editorInsertNewline_split E r Hr) in Hop by lia. simplify_eq.
        apply dirty_tracks_raised. simpl. lia.
      * unfold editorInsertNewline in Hop. rewrite Hr in Hop.
        destruct (Z.eqb_spec (cx E) 0); [done|]. simpl in Hop.
        destruct (Z.ltb_spec (cx E) 0); [done|].
        destruct (Z.ltb_spec (size r) (cx E)); [done|]. lia.
    + unfold editorInsertNewline in Hop. rewrite Hr in Hop.
      by destruct (Z.eqb_spec (cx E) 0).
Qed.

(** X6.  Along any sequence of character insertions, backward
    deletions and newline insertions that runs without undefined
    behaviour, the dirty counter never goes below its value at the
    start, and in every state where it equals that value the rows are
    the rows of the start: a changed document is never counted as
    unmodified. *)
Theorem edits_raise_dirty ops : ∀ E tr,
  run_ops ops E = Some tr →
  Forall (λ E', dirty E ≤ dirty E' ∧ (dirty E' = dirty E → row E' = row E)) tr.
Proof.
  induction ops as [|op ops IH]; intros E tr Hrun; simpl in Hrun.
  - simplify_eq. constructor.
  - destruct (apply_op op E) as [E1|] eqn:Hop; simplify_eq/=.
    destruct (run_ops ops E1) as [tr1|] eqn:Hrun1; simplify_eq/=.
    pose proof (apply_op_dirty op E E1 Hop) as H1.
    constructor; [exact H1|].
    eapply Forall_impl; [exact (IH E1 tr1 Hrun1)|].
    intros E2 H2. exact (dirty_tracks_trans E E1 E2 H1 H2).
Qed.

Lemma edits_raise_dirty_witness :
  ∃ tr, run_ops [InsertChar 120; DeleteCharBackward] (initEditor 24 80) = Some tr
        ∧ Forall (λ E', dirty (initEditor 24 80) ≤ dirty E'
                        ∧ (dirty E' = dirty (initEditor 24 80)
                           → row E' = row (initEditor 24 80))) tr.
Proof.
  eexists. split; [vm_compute; reflexivity|].
  apply (edits_raise_dirty [InsertChar 120; DeleteCharBackward] (initEditor 24 80)).
  vm_compute. reflexivity.
Defined.

(* ================================================================= *)
(** ** Moving left and right *)

Lemma editorMoveCursor_left_in_line E :
  cursor_ok E → 0 < cx E →
  editorMoveCursor ARROW_LEFT E = Some (set_cx (cx E - 1) E).
Proof.
  intros [Hcy Hcx] Hpos. unfold editorMoveCursor.
  cbn [Z.eqb ARROW_LEFT Pos.eqb].
  destruct (Z.eqb_spec (cx E) 0); [lia|]. cbn [negb mbind option_bind].
  rewrite rowlen_of_defined by (simpl; lia). cbn [mbind option_bind].
  replace (cursor_rowlen (set_cx (cx E - 1) E)) with (cursor_rowlen E) by done.
  cbn [cx set_cx].
  destruct (Z.gtb_spec (cx E - 1) (cursor_rowlen E)); [lia|done].
Qed.

Lemma editorMoveCursor_left_at_start E prev :
  cx E = 0 → 0 < cy E → row_at E (cy E - 1) = Some prev →
  editorMoveCursor ARROW_LEFT E
  = Some (set_cx (size prev) (set_cy (cy E - 1) E)).
Proof.
  intros Hcx Hcy Hprev. unfold editorMoveCursor.
  cbn [Z.eqb ARROW_LEFT Pos.eqb].
  destruct (Z.eqb_spec (cx E) 0); [|lia]. cbn [negb].
  destruct (Z.gtb_spec (cy E) 0); [|lia].
  replace (row_at (set_cy (cy E - 1) E) (cy (set_cy (cy E - 1) E)))
    with (Some prev) by done.
  cbn [mbind option_bind].
  rewrite rowlen_of_defined by (simpl; lia). cbn [mbind option_bind].
  unfold cursor_rowlen. cbn [cx cy set_cx set_cy].
  replace (row_at (set_cx (size prev) (set_cy (cy E - 1) E)) (cy E - 1))
    with (Some prev) by done.
  destruct (Z.gtb_spec (size prev) (size prev)); [lia|done].
Qed.

(** X7.  ARROW_RIGHT and ARROW_LEFT undo each other.  With the cursor
    on a line, Right moves it (one column, or to the start of the next
    row from the end of the line) and Left then brings back the very
    same state.  With a valid cursor anywhere but at the start of the
    document, Left moves it and Right then brings back the same state. *)
Theorem left_right_round_trip E :
  (∀ r, row_at E (cy E) = Some r → 0 ≤ cx E ≤ size r →
     ∃ E1, editorMoveCursor ARROW_RIGHT E = Some E1
           ∧ (cx E1 ≠ cx E ∨ cy E1 ≠ cy E)
           ∧ editorMoveCursor ARROW_LEFT E1 = Some E)
  ∧ (cursor_ok E → ¬ (cx E = 0 ∧ cy E = 0) →
     ∃ E1, editorMoveCursor ARROW_LEFT E = Some E1
           ∧ (cx E1 ≠ cx E ∨ cy E1 ≠ cy E)
           ∧ editorMoveCursor ARROW_RIGHT E1 = Some E).
Proof.
  split.
  - intros r Hr Hcx. pose proof (row_at_lt _ _ _ Hr) as Hcy.
    destruct (decide (cx E = size r)) as [Heq|Hne].
    + rewrite (editorMoveCursor_right_at_end E r Hr Heq).
      eexists. split; [done|]. split; [right; simpl; lia|].
      rewrite (editorMoveCursor_left_at_start _ r); [|done|simpl; lia|].
      * cbn [cx cy set_cx set_cy]. f_equal. unfold size in *.
        destruct E; unfold set_cx, set_cy; simpl in *; f_equal; lia.
      * cbn [cy set_cx set_cy]. by replace (cy E + 1 - 1) with (cy E) by lia.
    + rewrite (editorMoveCursor_right_in_line E r Hr) by lia.
      eexists. split; [done|]. split; [left; simpl; lia|].
      rewrite editorMoveCursor_left_in_line; [| |simpl; lia].
      * f_equal. destruct E; unfold set_cx, set_cy; simpl; f_equal; lia.
      * apply (cursor_ok_row _ r); [done|]. simpl. lia.
  - intros Hok Hnot.
    destruct (decide (cx E = 0)) as [Hcx0|Hcx0].
    + assert (0 < cy E) as Hcy0 by (destruct Hok; lia).
      destruct (row_at_is_Some E (cy E - 1)) as [prev Hprev]; [destruct Hok; lia|].
      rewrite (editorMoveCursor_left_at_start E prev Hcx0 Hcy0 Hprev).
      eexists. split; [done|]. split; [right; simpl; lia|].
      rewrite (editorMoveCursor_right_at_end _ prev); [|done|done].
      f_equal. destruct E; unfold set_cx, set_cy; simpl in *; f_equal; lia.
    + destruct (cursor_ok_cases E Hok) as [[Hcy Hcx]|(r & Hr & Hcx & Hcy)]; [lia|].
      rewrite editorMoveCursor_left_in_line by (done || lia).
      eexists. split; [done|]. split; [left; simpl; lia|].
      rewrite (editorMoveCursor_right_in_line _ r); [|done|simpl; lia].
      f_equal. destruct E; unfold set_cx, set_cy; simpl; f_equal; lia.
Qed.

Lemma left_right_round_trip_witness :
  let E := mk_editor 1 0 0 0 0 22 80 [mk_erow [97; 98] 2 [97; 98]] 0 None MsgEmpty KILO_QUIT_TIMES in
  (∃ E1, editorMoveCursor ARROW_RIGHT E = Some E1
         ∧ (cx E1 ≠ cx E ∨ cy E1 ≠ cy E)
         ∧ editorMoveCursor ARROW_LEFT E1 = Some E)
  ∧ (∃ E1, editorMoveCursor ARROW_LEFT E = Some E1
           ∧ (cx E1 ≠ cx E ∨ cy E1 ≠ cy E)
           ∧ editorMoveCursor ARROW_RIGHT E1 = Some E).
Proof.
  intros E. destruct (left_right_round_trip E) as [Hright Hleft]. split.
  - apply (Hright (mk_erow [97; 98] 2 [97; 98])).
    + reflexivity.
    + vm_compute. split; discriminate.
  - apply Hleft.
    + vm_compute. repeat split; discriminate.
    + vm_compute. intros [H _]. discriminate H.
Defined.

(* ================================================================= *)
(** ** Where cursor movement can take the cursor *)

Lemma set_cursor_eta E : E = set_cx (cx E) (set_cy (cy E) E).
Proof. by destruct E. Qed.

Lemma editorMoveCursor_only_cursor key E E' :
  editorMoveCursor key E = Some E' → E' = set_cx (cx E') (set_cy (cy E') E).
Proof.
  unfold editorMoveCursor. intros H.
  apply bind_Some in H as (E1 & H1 & H2).
  apply bind_Some in H2 as (rl & _ & H3).
  assert (E1 = set_cx (cx E1) (set_cy (cy E1) E)) as HE1.
  { revert H1. destruct (key =? ARROW_LEFT).
    { destruct (negb _); [intros; simplify_eq; reflexivity|].
      destruct (cy E >? 0); [|intros; simplify_eq; apply set_cursor_eta].
      intros (r & _ & H1)%bind_Some. simplify_eq. reflexivity. }
    destruct (key =? ARROW_RIGHT).
    { destruct (cur_row_ptr E); [|intros; simplify_eq; apply set_cursor_eta].
      intros (r & _ & H1)%bind_Some. revert H1.
      destruct (cx E <? size r); [intros; simplify_eq; reflexivity|].
      destruct (cx E =? size r); intros; simplify_eq;
        [reflexivity|apply set_cursor_eta]. }
    destruct (key =? ARROW_UP).
    { destruct (negb _); intros; simplify_eq; [reflexivity|apply set_cursor_eta]. }
    destruct (key =? ARROW_DOWN).
    { destruct (cx E <? numrows E); intros; simplify_eq;
        [reflexivity|apply set_cursor_eta]. }
    intros. simplify_eq. apply set_cursor_eta. }
  revert H3. destruct (cx E1 >? rl); intros; simplify_eq; [|done].
  rewrite HE1. reflexivity.
Qed.

Lemma cursor_snapped E : 0 ≤ cy E ≤ numrows E → 0 ≤ cx E →
  cursor_ok (if cx E >? cursor_rowlen E then set_cx (cursor_rowlen E) E else E).
Proof.
  intros Hcy Hcx. pose proof (cursor_rowlen_nonneg E) as Hrl.
  destruct (Z.gtb_spec (cx E) (cursor_rowlen E)).
  - split; [done|]. simpl. change (cursor_rowlen (set_cx _ E)) with (cursor_rowlen E). lia.
  - split; [done|]. lia.
Qed.

Lemma editorMoveCursor_up_step E :
  0 ≤ cy E ≤ numrows E → 0 ≤ cx E →
  ∃ E', editorMoveCursor ARROW_UP E = Some E'
        ∧ cy E' = Z.max 0 (cy E - 1) ∧ cursor_ok E'.
Proof.
  intros Hcy Hcx. unfold editorMoveCursor.
  cbn [Z.eqb ARROW_LEFT ARROW_RIGHT ARROW_UP Pos.eqb mbind option_bind].
  set (E1 := if negb (cy E =? 0) then set_cy (cy E - 1) E else E).
  assert (cy E1 = Z.max 0 (cy E - 1) ∧ cx E1 = cx E ∧ numrows E1 = numrows E)
    as (Hcy1 & Hcx1 & Hn1).
  { subst E1. destruct (Z.eqb_spec (cy E) 0); simpl; repeat split; lia. }
  rewrite rowlen_of_defined by lia. cbn [mbind option_bind].
  eexists. split; [done|]. split.
  - by destruct (_ >? _).
  - apply cursor_snapped; lia.
Qed.

Lemma move_times_up n : ∀ E,
  0 ≤ cy E ≤ numrows E → 0 ≤ cx E →
  ∃ E', move_times n ARROW_UP E = Some E'
        ∧ cy E' = Z.max 0 (cy E - Z.of_nat n)
        ∧ E' = set_cx (cx E') (set_cy (cy E') E)
        ∧ (0 < n → cursor_ok E')%nat.
Proof.
  induction n as [|n IH]; intros E Hcy Hcx.
  - exists E. split; [done|]. split; [lia|]. split; [apply set_cursor_eta|lia].
  - cbn [move_times].
    destruct (editorMoveCursor_up_step E Hcy Hcx) as (E1 & Hmv & Hcy1 & Hok1).
    pose proof (editorMoveCursor_only_cursor _ _ _ Hmv) as HE1.
    rewrite Hmv. cbn [mbind option_bind].
    destruct Hok1 as [Hcy1' Hcx1'].
    destruct (IH E1 Hcy1') as (E' & Hmt & Hcy' & HE' & Hok'); [lia|].
    exists E'. split; [exact Hmt|]. split; [lia|]. split.
    + rewrite HE', HE1. reflexivity.
    + intros _. destruct n as [|n]; [|apply Hok'; lia].
      simpl in Hmt. injection Hmt as <-. by split.
Qed.

(** X8.  PAGE_UP on a state with a valid cursor, a row offset within
    the document and a viewport of at least one row: the cursor jumps
    to the top row of the viewport and moves up [screenrows] times, so
    it ends on row [max 0 (rowoff - screenrows)] with a valid column;
    rows and dirty counter are unchanged. *)
Theorem page_up_row io E :
  cursor_ok E → 0 ≤ rowoff E ≤ numrows E → 0 < screenrows E →
  ∃ E', editorProcessKey io PAGE_UP E = Running E'
        ∧ cy E' = Z.max 0 (rowoff E - screenrows E)
        ∧ cursor_ok E'
        ∧ row E' = row E ∧ dirty E' = dirty E.
Proof.
  intros [Hcy Hcx] Hro Hsr.
  assert (editorProcessKey io PAGE_UP E
          = break_switch (move_times (Z.to_nat (screenrows E)) ARROW_UP
                                     (set_cy (rowoff E) E))) as ->.
  { unfold editorProcessKey.
    cbn [Z.eqb PAGE_UP PAGE_DOWN CR CTRL_KEY CH_q CH_s CH_h HOME_KEY END_KEY
         BACKSPACE DEL_KEY Z.land Pos.land Pos.eqb orb].
    cbn [screenrows set_cy]. by destruct (Z.ltb_spec (screenrows E) 0); [lia|]. }
  destruct (move_times_up (Z.to_nat (screenrows E)) (set_cy (rowoff E) E))
    as (E' & -> & Hcy' & HE' & Hok'); [simpl; unfold numrows in *; simpl; lia|simpl; lia|].
  eexists. split; [done|]. cbn [cy set_cy set_quit_times] in *.
  split; [lia|]. split.
  - destruct Hok' as [H1 H2]; [lia|]. split; [exact H1|exact H2].
  - rewrite HE'. split; reflexivity.
Qed.

Lemma page_up_row_witness :
  let io := mk_save_io None false false false EmptyString in
  let E := mk_editor 1 0 0 0 0 22 80 [mk_erow [97; 98] 2 [97; 98]] 0 None MsgEmpty KILO_QUIT_TIMES in
  ∃ E', editorProcessKey io PAGE_UP E = Running E'
        ∧ cy E' = Z.max 0 (rowoff E - screenrows E)
        ∧ cursor_ok E'
        ∧ row E' = row E ∧ dirty E' = dirty E.
Proof.
  intros io E. apply (page_up_row io E).
  - vm_compute. repeat split; discriminate.
  - vm_compute. split; discriminate.
  - reflexivity.
Defined.

(* ================================================================= *)
(** ** The cursor past the end of the document *)









(* ================================================================= *)
(** ** Keys that keep the state valid *)

Lemma editorMoveCursor_cursor_ok key E :
  cursor_ok E → (key = ARROW_DOWN → cy E < numrows E) →
  ∃ E', editorMoveCursor key E = Some E' ∧ cursor_ok E' ∧ row E' = row E.
Proof.
  intros Hok Hdown. pose proof Hok as [Hcy Hcx].
  assert (∃ E', editorMoveCursor key E = Some E' ∧ cursor_ok E') as (E' & Hmv & Hok').
  { unfold editorMoveCursor.
    match goal with
    | |- ∃ E', (?blk ≫= _) = _ ∧ _ =>
        assert (∃ E1, blk = Some E1 ∧ 0 ≤ cy E1 ≤ numrows E1 ∧ 0 ≤ cx E1)
          as (E1 & -> & Hcy1 & Hcx1)
    end.
    { destruct (Z.eqb_spec key ARROW_LEFT).
      { destruct (Z.eqb_spec (cx E) 0); simpl;
          [|eexists; split; [done|unfold numrows in *; simpl; lia]].
        destruct (Z.gtb_spec (cy E) 0); [|eexists; split; [done|lia]].
        destruct (row_at_is_Some (set_cy (cy E - 1) E) (cy E - 1)) as [r Hr];
          [unfold numrows in *; simpl; lia|].
        rewrite Hr. simpl. eexists; split; [done|].
        pose proof (size_nonneg r). unfold numrows in *. simpl. lia. }
      destruct (Z.eqb_spec key ARROW_RIGHT).
      { unfold cur_row_ptr. destruct (Z.geb_spec (cy E) (numrows E));
          [eexists; split; [done|lia]|].
        destruct (row_at_is_Some E (cy E)) as [r Hr]; [lia|].
        rewrite Hr. simpl.
        destruct (cx E <? size r);
          [eexists; split; [done|unfold numrows in *; simpl; lia]|].
        destruct (cx E =? size r); eexists;
          (split; [done|unfold numrows in *; simpl; lia]). }
      destruct (Z.eqb_spec key ARROW_UP).
      { eexists; split; [done|].
        destruct (Z.eqb_spec (cy E) 0); unfold numrows in *; simpl; lia. }
      destruct (Z.eqb_spec key ARROW_DOWN) as [Hk|Hk].
      { specialize (Hdown Hk). eexists; split; [done|].
        destruct (cx E <? numrows E); unfold numrows in *; simpl; lia. }
      eexists; split; [done|lia]. }
    cbn [mbind option_bind]. rewrite rowlen_of_defined by lia.
    cbn [mbind option_bind]. eexists. split; [done|].
    by apply cursor_snapped. }
  exists E'. split; [done|]. split; [done|].
  rewrite (editorMoveCursor_only_cursor _ _ _ Hmv). reflexivity.
Qed.

Lemma save_to_disk_keeps io E :
  row (save_to_disk io E) = row E
  ∧ cx (save_to_disk io E) = cx E ∧ cy (save_to_disk io E) = cy E.
Proof.
  unfold save_to_disk. destruct (editorRowsToString E) as [buf len].
  destruct (open_ok io); [destruct (_ && _)|]; done.
Qed.

(** X11.  On a state with a valid cursor and renders in sync, every
    key other than Ctrl-Q, PAGE_UP and PAGE_DOWN, with ARROW_DOWN only
    when the cursor is on a line and Ctrl-S only when the document has
    a file name (so that no prompt is opened), is processed without
    undefined behaviour and without exiting, and leaves a state whose
    cursor is valid and whose renders are in sync. *)
Theorem safe_keys_keep_state_valid io c E :
  cursor_ok E → renders_in_sync E →
  c ≠ CTRL_KEY CH_q → c ≠ PAGE_UP → c ≠ PAGE_DOWN →
  (c = ARROW_DOWN → cy E < numrows E) →
  (c = CTRL_KEY CH_s → filename E ≠ None) →
  ∃ E', editorProcessKey io c E = Running E'
        ∧ cursor_ok E' ∧ renders_in_sync E'.
Proof.
  intros Hok Hsync Hq Hpu Hpd Hdown Hname.
  assert (∀ o, (∃ E', o = Some E' ∧ cursor_ok E' ∧ renders_in_sync E') →
               ∃ E', break_switch o = Running E' ∧ cursor_ok E' ∧ renders_in_sync E')
    as Hbrk.
  { intros o (E' & -> & Hc & Hs). eexists. split; [done|]. split; [exact Hc|exact Hs]. }
  assert (∀ E', row E' = row E → cx E' = cx E → cy E' = cy E →
                cursor_ok E' ∧ renders_in_sync E') as Hsame.
  { intros E' Hr Hx Hy. unfold cursor_ok, cursor_rowlen, row_at, numrows, renders_in_sync in *.
    rewrite Hr, Hx, Hy. done. }
  unfold editorProcessKey.
  destruct (c =? CR).
  { apply Hbrk. destruct (editorInsertNewline_cursor_ok E Hok) as (E' & HE' & Hok').
    exists E'. split; [done|]. split; [done|]. by eapply editorInsertNewline_sync. }
  destruct (Z.eqb_spec c (CTRL_KEY CH_q)); [done|].
  destruct (Z.eqb_spec c (CTRL_KEY CH_s)) as [Hs|_].
  { apply Hbrk. unfold editorSave.
    destruct (filename E) as [name|] eqn:Hfile; [|by destruct (Hname Hs)].
    exists (save_to_disk io E). split; [done|].
    destruct (save_to_disk_keeps io E) as (Hr & Hx & Hy). by apply Hsame. }
  destruct (c =? HOME_KEY).
  { apply Hbrk. eexists. split; [done|]. split; [|done].
    destruct Hok as [Hcy Hcx]. split; [done|]. simpl.
    change (cursor_rowlen (set_cx 0 E)) with (cursor_rowlen E). lia. }
  destruct (c =? END_KEY).
  { apply Hbrk. destruct (Z.ltb_spec (cy E) (numrows E)); [|by eexists].
    destruct (row_at_is_Some E (cy E)) as [r Hr]; [destruct Hok; lia|].
    rewrite Hr. simpl. eexists. split; [done|]. split; [|done].
    apply (cursor_ok_row _ r); [done|]. simpl. pose proof (size_nonneg r). lia. }
  destruct (_ || _).
  { apply Hbrk.
    assert (∃ E1, (if c =? DEL_KEY then editorMoveCursor ARROW_RIGHT E else Some E) = Some E1
                  ∧ cursor_ok E1 ∧ renders_in_sync E1) as (E1 & -> & Hok1 & Hs1).
    { destruct (c =? DEL_KEY); [|by exists E].
      destruct (editorMoveCursor_cursor_ok ARROW_RIGHT E Hok) as (E1 & HE1 & Hok1 & Hr1);
        [done|].
      exists E1. split; [done|]. split; [done|].
      unfold renders_in_sync. by rewrite Hr1. }
    simpl. destruct (editorDeleteChar_cursor_ok E1 Hok1) as (E' & HE' & Hok').
    exists E'. split; [done|]. split; [done|]. by eapply editorDeleteChar_sync. }
  destruct (Z.eqb_spec c PAGE_UP); [done|].
  destruct (Z.eqb_spec c PAGE_DOWN); [done|]. cbn [orb].
  destruct (_ || _).
  { apply Hbrk.
    destruct (editorMoveCursor_cursor_ok c E Hok Hdown) as (E' & HE' & Hok' & Hr').
    exists E'. split; [done|]. split; [done|]. unfold renders_in_sync. by rewrite Hr'. }
  destruct (_ || _); [apply Hbrk; by exists E|].
  apply Hbrk. destruct (editorInsertChar_cursor_ok c E Hok) as (E' & HE' & Hok').
  exists E'. split; [done|]. split; [done|]. by eapply editorInsertChar_sync.
Qed.

Lemma safe_keys_keep_state_valid_witness :
  let io := mk_save_io None true true true EmptyString in
  let E := mk_editor 1 0 0 0 0 22 80 [mk_erow [97; 98] 2 [97; 98]] 1 (Some "a.txt"%string)
                     MsgEmpty KILO_QUIT_TIMES in
  ∃ E', editorProcessKey io (CTRL_KEY CH_s) E = Running E'
        ∧ cursor_ok E' ∧ renders_in_sync E'.
Proof.
  intros io E. apply (safe_keys_keep_state_valid io (CTRL_KEY CH_s) E).
  - vm_compute. repeat split; discriminate.
  - repeat constructor.
  - vm_compute. discriminate.
  - vm_compute. discriminate.
  - vm_compute. discriminate.
  - vm_compute. discriminate.
  - intros _. discriminate.
Defined.

(* ================================================================= *)
(** ** The render form *)

Lemma count_tabs_acc cs : ∀ t, count_tabs cs t = t + count_tabs cs 0.
Proof.
  induction cs as [|c cs IH]; intros t; cbn [count_tabs]; [lia|].
  destruct (c =? TAB); [|apply IH].
  rewrite IH, (IH (0 + 1)). lia.
Qed.

Lemma pad_bounds col : (1 ≤ 8 - col mod 8 ≤ 8)%nat.
Proof. pose proof (Nat.mod_upper_bound col 8). lia. Qed.

Lemma renderOf_from_length cs : ∀ col,
  Z.of_nat (length cs) ≤ Z.of_nat (length (renderOf_from col cs))
  ∧ Z.of_nat (length (renderOf_from col cs))
    ≤ Z.of_nat (length cs) + count_tabs cs 0 * 7.
Proof.
  induction cs as [|c cs IH]; intros col; cbn [renderOf_from count_tabs length]; [lia|].
  destruct (c =? TAB).
  - rewrite count_tabs_acc, length_app, length_replicate.
    pose proof (pad_bounds col).
    specialize (IH (col + (8 - col mod 8))%nat). lia.
  - specialize (IH (S col)). cbn [length]. lia.
Qed.

Lemma renderOf_from_no_tab cs : ∀ col, TAB ∉ renderOf_from col cs.
Proof.
  induction cs as [|c cs IH]; intros col; simpl.
  - apply not_elem_of_nil.
  - destruct (Z.eqb_spec c TAB).
    + apply not_elem_of_app. split; [|apply IH].
      intros Hin%elem_of_replicate_inv. discriminate Hin.
    + apply not_elem_of_cons. split; [congruence|apply IH].
Qed.

Lemma renderOf_from_plain cs : ∀ col, TAB ∉ cs → renderOf_from col cs = cs.
Proof.
  induction cs as [|c cs IH]; intros col Hcs; simpl; [done|].
  apply not_elem_of_cons in Hcs as [Hc Hcs].
  destruct (Z.eqb_spec c TAB); [congruence|]. by rewrite IH.
Qed.

(** X12.  What [editorUpdateRow] leaves in [render]: no tab byte, at
    least as many bytes as the line has, and, with the terminating NUL,
    no more than the [size + tabs * 7 + 1] bytes it allocated; for a
    line without tabs the render is the line itself. *)
Theorem render_fits_and_has_no_tab r :
  (TAB ∉ render (editorUpdateRow r))
  ∧ size r ≤ rsize (editorUpdateRow r)
  ∧ rsize (editorUpdateRow r) + 1 ≤ render_alloc r
  ∧ (TAB ∉ chars r → render (editorUpdateRow r) = chars r).
Proof.
  destruct (editorUpdateRow_in_sync r) as [Hrender Hrsize].
  rewrite editorUpdateRow_chars in Hrender.
  rewrite Hrsize, Hrender. unfold renderOf, render_alloc, size, KILO_TAB_STOP.
  pose proof (renderOf_from_length (chars r) 0) as [Hlo Hhi].
  split; [apply renderOf_from_no_tab|].
  split; [lia|]. split; [lia|].
  apply renderOf_from_plain.
Qed.

Lemma render_fits_and_has_no_tab_witness :
  render (editorUpdateRow (mk_erow [97; 98] 0 [])) = [97; 98].
Proof.
  destruct (render_fits_and_has_no_tab (mk_erow [97; 98] 0 [])) as (_ & _ & _ & Hplain).
  apply Hplain. vm_compute.
  intros H. repeat (apply elem_of_cons in H as [H|H]; [discriminate H|]).
  by apply elem_of_nil in H.
Defined.

Lemma renderOf_from_app l1 : ∀ col l2,
  renderOf_from col (l1 ++ l2)
  = renderOf_from col l1
    ++ renderOf_from (col + length (renderOf_from col l1)) l2.
Proof.
  induction l1 as [|c l1 IH]; intros col l2; cbn [app renderOf_from length].
  - by rewrite Nat.add_0_r.
  - destruct (c =? TAB).
    + rewrite IH, <- app_assoc, length_app, length_replicate.
      by rewrite Nat.add_assoc.
    + rewrite IH. cbn [app length]. do 3 f_equal. lia.
Qed.

Lemma fold_logicalToVisual_render l : ∀ col : nat,
  fold_left logicalToVisual_step l (Z.of_nat col)
  = Z.of_nat (col + length (renderOf_from col l)).
Proof.
  induction l as [|c l IH]; intros col; cbn [fold_left renderOf_from length].
  - by rewrite Nat.add_0_r.
  - unfold logicalToVisual_step at 2. destruct (c =? TAB).
    + pose proof (pad_bounds col) as Hpad.
      replace (Z.of_nat col + (8 - 1 - Z.of_nat col `mod` 8) + 1)
        with (Z.of_nat (col + (8 - col mod 8)))
        by (rewrite Nat2Z.inj_add, Nat2Z.inj_sub, Nat2Z.inj_mod by lia; lia).
      rewrite IH, length_app, length_replicate. lia.
    + replace (Z.of_nat col + 1) with (Z.of_nat (S col)) by lia.
      rewrite IH. cbn [length]. lia.
Qed.

(** X13.  For a row whose render is in sync and a column within the
    line, [editorRowCxtoRx] returns an index into the render, and the
    render up to that index is the rendering of the line up to the
    column; for the column at the end of the line it is the length of
    the render. *)
Theorem rx_indexes_render r cx0 :
  row_in_sync r → 0 ≤ cx0 ≤ size r →
  ∃ v, editorRowCxtoRx r cx0 = Some v
       ∧ 0 ≤ v ≤ rsize r
       ∧ take (Z.to_nat v) (render r) = renderOf (take (Z.to_nat cx0) (chars r))
       ∧ (cx0 = size r → v = rsize r).
Proof.
  intros [Hrender Hrsize] Hcx.
  rewrite editorRowCxtoRx_spec by lia. eexists. split; [done|].
  unfold logicalToVisual.
  pose proof (fold_logicalToVisual_render (take (Z.to_nat cx0) (chars r)) 0) as Hv.
  cbn [Nat.add] in Hv. change (Z.of_nat 0) with 0 in Hv. rewrite Hv.
  fold (renderOf (take (Z.to_nat cx0) (chars r))).
  assert (render r = renderOf (take (Z.to_nat cx0) (chars r))
                     ++ renderOf_from (length (renderOf (take (Z.to_nat cx0) (chars r))))
                                      (drop (Z.to_nat cx0) (chars r))) as Hsplit.
  { rewrite Hrender. unfold renderOf.
    rewrite <- (take_drop (Z.to_nat cx0) (chars r)) at 1.
    by rewrite renderOf_from_app. }
  rewrite Hrsize.
  assert (length (render r)
          = (length (renderOf (take (Z.to_nat cx0) (chars r)))
             + length (renderOf_from (length (renderOf (take (Z.to_nat cx0) (chars r))))
                                     (drop (Z.to_nat cx0) (chars r))))%nat) as Hlen
    by (rewrite Hsplit at 1; apply length_app).
  split; [lia|].
  split.
  - rewrite Nat2Z.id. rewrite Hsplit at 1. by rewrite take_app_length.
  - intros ->. unfold size. rewrite Nat2Z.id, take_ge by lia. by rewrite Hrender.
Qed.

Lemma rx_indexes_render_witness :
  let r := editorUpdateRow (mk_erow [9; 97] 0 []) in
  ∃ v, editorRowCxtoRx r 1 = Some v
       ∧ 0 ≤ v ≤ rsize r
       ∧ take (Z.to_nat v) (render r) = renderOf (take (Z.to_nat 1) (chars r))
       ∧ (1 = size r → v = rsize r).
Proof.
  intros r. apply (rx_indexes_render r 1).
  - split; reflexivity.
  - vm_compute. split; discriminate.
Defined.

(* ================================================================= *)
(** ** Loading any file *)

Lemma read_line_spec fp :
  ∃ body tail,
    (read_line fp).1 = body ++ tail
    ∧ fp = (body ++ tail) ++ (read_line fp).2
    ∧ (NEWLINE ∉ body)
    ∧ (tail = [NEWLINE] ∨ tail = [] ∧ (read_line fp).2 = []).
Proof.
  induction fp as [|c fp IH]; simpl.
  - exists [], []. split; [done|]. split; [done|].
    split; [apply not_elem_of_nil|]. by right.
  - destruct (Z.eqb_spec c NEWLINE) as [->|Hc].
    + exists [], [NEWLINE]. split; [done|]. split; [done|].
      split; [apply not_elem_of_nil|]. by left.
    + destruct IH as (body & tail & Hl & Hfp & Hbody & Htail).
      destruct (read_line fp) as [l rest]. simpl in *.
      exists (c :: body), tail. split; [by rewrite Hl|].
      split; [by rewrite Hfp at 1|].
      split; [|done]. apply not_elem_of_cons. by split.
Qed.

Lemma strip_loop_le l n : (strip_loop l n ≤ n)%nat.
Proof.
  induction n as [|n IH]; simpl; [lia|].
  destruct (l !! n) as [c|]; [|lia]. destruct (_ || _); lia.
Qed.

Lemma strip_loop_last l n :
  (n ≤ length l)%nat →
  last (take (strip_loop l n) l) ≠ Some NEWLINE
  ∧ last (take (strip_loop l n) l) ≠ Some CR.
Proof.
  induction n as [|n IH]; intros Hn; cbn [strip_loop].
  - rewrite take_0. by split.
  - destruct (lookup_lt_is_Some_2 l n) as [c Hc]; [lia|]. rewrite Hc.
    destruct ((c =? NEWLINE) || (c =? CR)) eqn:Hstrip; [apply IH; lia|].
    apply orb_false_elim in Hstrip as [H1%Z.eqb_neq H2%Z.eqb_neq].
    rewrite (take_S_r l n c Hc), last_snoc. split; congruence.
Qed.

Lemma stripped_line_plain fp :
  plain_line (take (strip_loop (read_line fp).1 (length (read_line fp).1))
                   (read_line fp).1).
Proof.
  destruct (read_line_spec fp) as (body & tail & Hl & _ & Hbody & Htail).
  set (l := (read_line fp).1) in *.
  split; [|by apply strip_loop_last].
  assert (strip_loop l (length l) ≤ length body)%nat as Hk.
  { destruct Htail as [->|[-> _]].
    - rewrite Hl, length_app. simpl. rewrite Nat.add_1_r. cbn [strip_loop].
      rewrite lookup_app_r, Nat.sub_diag by lia. simpl. apply strip_loop_le.
    - rewrite Hl, app_nil_r. apply strip_loop_le. }
  rewrite Hl in Hk |- *. rewrite take_app_le by exact Hk.
  intros Hin. apply Hbody.
  apply elem_of_take in Hin as (i & Hi & _). by eapply list_elem_of_lookup_2.
Qed.

Lemma read_line_nonempty c fp : (read_line (c :: fp)).1 ≠ [].
Proof.
  simpl. destruct (c =? NEWLINE); [done|]. by destruct (read_line fp).
Qed.

Lemma getline_consumes fp line rest :
  getline fp = Some (line, rest) → (length rest < length fp)%nat.
Proof.
  unfold getline. destruct fp as [|c fp]; [done|]. intros Hget.
  assert (read_line (c :: fp) = (line, rest)) as Hrd by congruence.
  destruct (read_line_spec (c :: fp)) as (body & tail & Hl & Hfp & _ & _).
  pose proof (read_line_nonempty c fp) as Hne.
  rewrite Hrd in Hl, Hfp, Hne. cbn [fst snd] in *.
  rewrite Hfp, <- Hl, length_app. destruct line; [done|]. simpl. lia.
Qed.

Lemma open_loop_any fuel : ∀ fp E,
  (length fp ≤ fuel)%nat →
  renders_in_sync E → Forall plain_line (map chars (row E)) →
  (open_loop fuel fp E).2 = []
  ∧ renders_in_sync (open_loop fuel fp E).1
  ∧ Forall plain_line (map chars (row (open_loop fuel fp E).1)).
Proof.
  induction fuel as [|fuel IH]; intros fp E Hfuel Hsync Hplain.
  - destruct fp; [done|simpl in Hfuel; lia].
  - cbn [open_loop]. destruct (getline fp) as [[line rest]|] eqn:Hget.
    + pose proof (getline_consumes _ _ _ Hget) as Hlt.
      apply IH; [lia|by apply editorInsertRow_sync|].
      rewrite editorInsertRow_in_range by (unfold numrows; lia).
      cbn [row set_dirty set_row]. unfold numrows. rewrite Nat2Z.id, insert_at_end.
      rewrite map_app. apply Forall_app. split; [done|].
      cbn [map]. rewrite editorUpdateRow_chars. cbn [chars].
      constructor; [|constructor].
      unfold getline in Hget. destruct fp as [|c fp]; [done|].
      assert (read_line (c :: fp) = (line, rest)) as Hrd by congruence.
      pose proof (stripped_line_plain (c :: fp)) as Hp. by rewrite Hrd in Hp.
    + split; [|done]. unfold getline in Hget. by destruct fp.
Qed.

(** X14.  [editorOpen] on a fresh editor, for any file content: the
    whole content is read; no row holds a newline or ends in a
    carriage return; every render is in sync; the document is
    unmodified and the cursor at the origin.  Loading what a save of
    that document writes gives the same lines again, and saving those
    the same bytes: load after save is the identity on loaded
    documents. *)
Theorem load_any_file name content rows cols :
  let E := editorOpen name content (initEditor rows cols) in
  (open_loop (length content) content
             (set_filename (Some name) (initEditor rows cols))).2 = []
  ∧ Forall plain_line (map chars (row E))
  ∧ renders_in_sync E
  ∧ (dirty E = 0 ∧ cx E = 0 ∧ cy E = 0)
  ∧ map chars (row (editorOpen name (doc_bytes E) (initEditor rows cols)))
    = map chars (row E)
  ∧ doc_bytes (editorOpen name (doc_bytes E) (initEditor rows cols)) = doc_bytes E.
Proof.
  intros E.
  destruct (open_loop_any (length content) content
              (set_filename (Some name) (initEditor rows cols)))
    as (Hrest & Hsync & Hplain); [done|by constructor|by constructor|].
  assert (Forall plain_line (map chars (row E))) as HplainE by exact Hplain.
  split; [done|]. split; [done|]. split; [exact Hsync|].
  split.
  { subst E. unfold editorOpen. cbn [dirty cx cy set_dirty].
    destruct (open_loop_cursor (length content) content
                (set_filename (Some name) (initEditor rows cols))) as [-> ->]. done. }
  assert (map chars (row (editorOpen name (doc_bytes E) (initEditor rows cols)))
          = map chars (row E)) as Hagain.
  { rewrite doc_bytes_spec.
    destruct (open_loop_lines (map chars (row E))
                (length (spec_saveBytes (map chars (row E))))
                (set_filename (Some name) (initEditor rows cols)) HplainE
                (length_spec_saveBytes _)) as (E' & HE' & Hrow).
    unfold editorOpen at 1. rewrite HE'. cbn [fst row set_dirty]. rewrite Hrow.
    cbn [row set_filename initEditor app]. rewrite <- list_fmap_compose.
    rewrite <- (list_fmap_id (map chars (row E))) at 2. apply list_fmap_ext.
    intros i l _. simpl. apply editorUpdateRow_chars. }
  split; [exact Hagain|].
  unfold doc_bytes at 1. rewrite editorRowsToString_spec. cbn [fst].
  rewrite Hagain. symmetry. apply doc_bytes_spec.
Qed.

Lemma open_loop_lines_then ls : ∀ fuel rest E,
  Forall plain_line ls →
  ∃ E', open_loop (length ls + fuel) (spec_saveBytes ls ++ rest) E
        = open_loop fuel rest E'
        ∧ row E' = row E ++ map (λ l, editorUpdateRow (mk_erow l 0 [])) ls.
Proof.
  induction ls as [|l ls IH]; intros fuel rest E Hls.
  - exists E. split; [done|]. simpl. by rewrite app_nil_r.
  - apply Forall_cons in Hls as [[Hnl Hcr] Hls].
    rewrite spec_saveBytes_cons. cbn [length Nat.add open_loop].
    rewrite <- app_assoc. cbn [app].
    rewrite getline_line by done.
    rewrite strip_loop_line by done.
    rewrite take_app_length.
    rewrite editorInsertRow_in_range by (unfold numrows; lia).
    unfold numrows. rewrite Nat2Z.id, insert_at_end.
    destruct (IH fuel rest (set_dirty (dirty E + 1)
                         (set_row (row E ++ [editorUpdateRow (mk_erow l 0 [])]) E))
                Hls) as (E' & HE' & Hrow).
    exists E'. split; [exact HE'|].
    rewrite Hrow. simpl. by rewrite <- app_assoc.
Qed.

Lemma getline_last_line l :
  NEWLINE ∉ l → l ≠ [] → getline l = Some (l, []).
Proof.
  intros Hl Hne.
  assert (read_line l = (l, [])) as Hrd.
  { clear Hne. induction l as [|c l IH]; simpl; [done|].
    apply not_elem_of_cons in Hl as [Hc Hl].
    destruct (Z.eqb_spec c NEWLINE); [done|]. by rewrite (IH Hl). }
  unfold getline. rewrite Hrd. by destruct l.
Qed.

Lemma strip_loop_plain l :
  plain_line l → strip_loop l (length l) = length l.
Proof.
  intros [Hnl Hcr]. destruct (last l) as [c|] eqn:Hlast.
  - apply last_Some in Hlast as [l' ->].
    rewrite length_app. simpl. rewrite Nat.add_1_r. cbn [strip_loop].
    rewrite lookup_app_r, Nat.sub_diag by lia. simpl.
    apply not_elem_of_app in Hnl as [_ Hc%not_elem_of_cons]. destruct Hc as [Hc _].
    destruct (Z.eqb_spec c NEWLINE); [done|].
    destruct (Z.eqb_spec c CR); [congruence|]. done.
  - apply last_None in Hlast as ->. done.
Qed.

(** X15.  A file whose last line is not empty and has no final newline
    is loaded with that text as its last row, and a save writes the
    file with a newline added at its end (for lines without carriage
    return before the newline). *)
Theorem final_newline_added name rows cols ls l :
  Forall plain_line ls → plain_line l → l ≠ [] →
  map chars (row (editorOpen name (spec_saveBytes ls ++ l) (initEditor rows cols)))
  = ls ++ [l]
  ∧ doc_bytes (editorOpen name (spec_saveBytes ls ++ l) (initEditor rows cols))
    = (spec_saveBytes ls ++ l) ++ [NEWLINE].
Proof.
  intros Hls Hl Hne.
  assert (map chars (row (editorOpen name (spec_saveBytes ls ++ l) (initEditor rows cols)))
          = ls ++ [l]) as Hrows.
  { unfold editorOpen.
    assert (∃ k, length (spec_saveBytes ls ++ l) = (length ls + S k)%nat) as [k ->].
    { exists (length (spec_saveBytes ls) - length ls + (length l - 1))%nat.
      rewrite length_app. pose proof (length_spec_saveBytes ls).
      destruct l; [done|]. simpl. lia. }
    destruct (open_loop_lines_then ls (S k) l
                (set_filename (Some name) (initEditor rows cols)) Hls)
      as (E' & -> & Hrow).
    cbn [open_loop]. rewrite getline_last_line by (done || apply Hl).
    rewrite strip_loop_plain by done. rewrite take_ge by lia.
    rewrite editorInsertRow_in_range by (unfold numrows; lia).
    unfold numrows. rewrite Nat2Z.id, insert_at_end.
    assert (∀ E0, open_loop k [] E0 = (E0, [])) as -> by (intros; by destruct k).
    cbn [fst row set_dirty set_row]. rewrite Hrow.
    cbn [row set_filename initEditor app].
    rewrite map_app. cbn [map]. rewrite editorUpdateRow_chars. cbn [chars].
    f_equal. rewrite <- list_fmap_compose.
    rewrite <- (list_fmap_id ls) at 2. apply list_fmap_ext.
    intros i x _. simpl. apply editorUpdateRow_chars. }
  split; [exact Hrows|].
  rewrite doc_bytes_spec, Hrows, spec_saveBytes_app.
  rewrite spec_saveBytes_cons. unfold spec_saveBytes at 2. simpl.
  by rewrite <- !app_assoc.
Qed.

Lemma final_newline_added_witness :
  map chars (row (editorOpen "f" (spec_saveBytes [[97]] ++ [98]) (initEditor 24 80)))
  = [[97]] ++ [[98]]
  ∧ doc_bytes (editorOpen "f" (spec_saveBytes [[97]] ++ [98]) (initEditor 24 80))
    = (spec_saveBytes [[97]] ++ [98]) ++ [NEWLINE].
Proof.
  assert (∀ c, plain_line [c] ↔ c ≠ NEWLINE ∧ c ≠ CR) as Hone.
  { intros c. unfold plain_line. rewrite not_elem_of_cons. simpl.
    split; [intros [[? _] ?]; split; congruence
           |intros [? ?]; repeat split; [congruence|apply not_elem_of_nil|congruence]]. }
  apply (final_newline_added "f" 24 80 [[97]] [98]).
  - constructor; [|constructor]. apply Hone. vm_compute. split; discriminate.
  - apply Hone. vm_compute. split; discriminate.
  - discriminate.
Defined.

(* ================================================================= *)
(** ** Waiting for a key, and read errors *)

Lemma editorReadKey_skip pre rest :
  Forall read_waits pre → editorReadKey (pre ++ rest) = editorReadKey rest.
Proof.
  induction 1 as [|t pre [-> | ->] _ IH]; simpl; done.
Qed.

(** X16.  [editorReadKey] while no key arrives.  Reads that time out
    or fail with EAGAIN before the first byte are skipped; the call
    never returns exactly when every read is of that kind; it dies
    exactly when, after such reads only, a read fails with another
    error.  A read that fails inside an escape sequence does not die:
    the key is Escape. *)
Theorem editorReadKey_waits_and_dies :
  (∀ pre rest, Forall read_waits pre →
     editorReadKey (pre ++ rest) = editorReadKey rest)
  ∧ (∀ inp, editorReadKey inp = Blocked ↔ Forall read_waits inp)
  ∧ (∀ inp, editorReadKey inp = Died ↔
            ∃ pre rest, Forall read_waits pre ∧ inp = pre ++ ReadError false :: rest)
  ∧ (∀ rest,
       editorReadKey (ReadByte ESC :: ReadError false :: rest) = Key ESC rest
       ∧ editorReadKey (ReadByte ESC :: ReadByte LBRACKET :: ReadError false :: rest)
         = Key ESC rest).
Proof.
  split; [exact editorReadKey_skip|]. split; [|split; [|done]].
  - intros inp. split.
    + induction inp as [|[c| |[|]] inp IH]; simpl; intros H.
      * constructor.
      * destruct (c =? ESC); [by destruct (read_escape inp)|done].
      * constructor; [by left|by apply IH].
      * constructor; [by right|by apply IH].
      * done.
    + intros H. rewrite <- (app_nil_r inp). by rewrite editorReadKey_skip.
  - intros inp. split.
    + induction inp as [|[c| |[|]] inp IH]; simpl; intros H.
      * done.
      * destruct (c =? ESC); [by destruct (read_escape inp)|done].
      * destruct (IH H) as (pre & rest & Hpre & ->).
        exists (ReadTimeout :: pre), rest. split; [|done]. constructor; [by left|done].
      * destruct (IH H) as (pre & rest & Hpre & ->).
        exists (ReadError true :: pre), rest. split; [|done]. constructor; [by right|done].
      * exists [], inp. by split.
    + intros (pre & rest & Hpre & ->). by rewrite editorReadKey_skip.
Qed.

Lemma editorReadKey_waits_and_dies_witness :
  editorReadKey ([ReadTimeout; ReadError true] ++ [ReadByte 97]) = editorReadKey [ReadByte 97]
  ∧ editorReadKey [ReadTimeout; ReadError true] = Blocked
  ∧ editorReadKey [ReadTimeout; ReadError false; ReadByte 97] = Died.
Proof.
  destruct editorReadKey_waits_and_dies as (Hskip & Hblocked & Hdied & _).
  assert (Forall read_waits [ReadTimeout; ReadError true]) as Hw
    by (constructor; [left; reflexivity|constructor; [right; reflexivity|constructor]]).
  split; [|split].
  - apply Hskip. exact Hw.
  - apply Hblocked. exact Hw.
  - apply Hdied. exists [ReadTimeout], [ReadByte 97]. split; [|reflexivity].
    constructor; [left; reflexivity|constructor].
Defined.

(* ================================================================= *)
(** ** The prompt *)

Lemma editorReadKey_consumes inp c rest :
  editorReadKey inp = Key c rest → (length rest < length inp)%nat.
Proof.
  induction inp as [|[b| |[|]] inp IH]; simpl; intros H; try done.
  - destruct (b =? ESC).
    + unfold read_escape in H.
      destruct inp as [|[s0| |e0] r0]; simpl in H; simplify_eq/=; try lia.
      destruct r0 as [|[s1| |e1] r1]; simpl in H; simplify_eq/=; try lia.
      destruct (s0 =? LBRACKET).
      * destruct ((s1 >=? CH_0) && (s1 <=? CH_9)); simplify_eq/=; [|lia].
        destruct r1 as [|[s2| |e2] r2]; simpl in H; simplify_eq/=; try lia.
        destruct (s2 =? TILDE); simplify_eq/=; lia.
      * destruct (s0 =? CH_O); simplify_eq/=; lia.
    + simplify_eq. lia.
  - specialize (IH H). lia.
  - specialize (IH H). lia.
Qed.

(** The bound on the rounds of the prompt is never reached. *)
Lemma prompt_loop_fuel fuel : ∀ buf inp,
  (length inp < fuel)%nat → prompt_loop fuel buf inp ≠ PromptOutOfFuel.
Proof.
  induction fuel as [|fuel IH]; intros buf inp Hfuel; [lia|].
  cbn [prompt_loop]. destruct (editorReadKey inp) as [c rest| |] eqn:Hkey; try done.
  pose proof (editorReadKey_consumes _ _ _ Hkey) as Hlt.
  destruct (c =? ESC); [done|].
  destruct (c =? CR).
  { destruct (negb _); [done|]. apply IH. lia. }
  destruct (iscntrl c) as [b|]; [|done].
  destruct (negb b && _); apply IH; lia.
Qed.

Lemma printable_key c :
  printable c →
  (c =? DEL_KEY) = false ∧ (c =? CTRL_KEY CH_h) = false ∧ (c =? BACKSPACE) = false
  ∧ (c =? ESC) = false ∧ (c =? CR) = false
  ∧ iscntrl c = Some false ∧ (c <? 128) = true ∧ char_of_int c = c.
Proof.
  unfold printable. intros Hc.
  repeat (split; [apply Z.eqb_neq; vm_compute; intros ->; lia|]).
  split; [|split].
  - unfold iscntrl.
    destruct (Z.ltb_spec c (-1)); [lia|]. destruct (Z.gtb_spec c 255); [lia|].
    simpl. f_equal.
    destruct (Z.ltb_spec c 32); [lia|]. destruct (Z.eqb_spec c 127); [lia|].
    by rewrite andb_false_r.
  - apply Z.ltb_lt. lia.
  - unfold char_of_int. rewrite Z.mod_small by lia. lia.
Qed.

Lemma prompt_loop_typed s : ∀ fuel buf rest,
  Forall printable s →
  prompt_loop (length s + fuel) buf (map ReadByte s ++ rest)
  = prompt_loop fuel (buf ++ s) rest.
Proof.
  induction s as [|c s IH]; intros fuel buf rest Hs.
  - simpl. by rewrite app_nil_r.
  - apply Forall_cons in Hs as [Hc Hs].
    destruct (printable_key c Hc) as (H1 & H2 & H3 & H4 & H5 & H6 & H7 & H8).
    cbn [length Nat.add map app prompt_loop editorReadKey].
    rewrite H4, H1, H2, H3, H5, H6, H7, H8. cbn [orb negb andb].
    rewrite IH by done. rewrite H4. by rewrite <- (app_assoc buf [c] s).
Qed.

(** X17.  [editorPrompt]: printable ASCII characters typed one after
    the other and then Enter make the prompt return exactly the text
    typed, provided it is not empty, with the input that follows left
    unread. *)
Theorem prompt_returns_typed_text s rest :
  Forall printable s → s ≠ [] →
  editorPrompt_keys (map ReadByte s ++ ReadByte CR :: rest)
  = PromptReturn (Some s) rest.
Proof.
  intros Hs Hne. unfold editorPrompt_keys.
  rewrite length_app, length_map. cbn [length].
  replace (S (length s + S (length rest))) with (length s + S (S (length rest)))%nat by lia.
  rewrite prompt_loop_typed by done.
  cbn [prompt_loop editorReadKey app Z.eqb CR ESC DEL_KEY CTRL_KEY CH_h BACKSPACE
       Z.land Pos.land Pos.eqb orb].
  destruct s; [done|]. done.
Qed.

Lemma prompt_returns_typed_text_witness :
  editorPrompt_keys (map ReadByte [97; 46; 99] ++ ReadByte CR :: [ReadByte 120])
  = PromptReturn (Some [97; 46; 99]) [ReadByte 120].
Proof.
  apply (prompt_returns_typed_text [97; 46; 99] [ReadByte 120]).
  - repeat constructor; vm_compute; discriminate.
  - discriminate.
Defined.

Lemma prompt_loop_fuel_indep fuel : ∀ fuel' buf inp,
  (length inp < fuel)%nat → (length inp < fuel')%nat →
  prompt_loop fuel buf inp = prompt_loop fuel' buf inp.
Proof.
  induction fuel as [|fuel IH]; intros fuel' buf inp Hf Hf'; [lia|].
  destruct fuel' as [|fuel']; [lia|].
  cbn [prompt_loop]. destruct (editorReadKey inp) as [c rest| |] eqn:Hkey; try done.
  pose proof (editorReadKey_consumes _ _ _ Hkey) as Hlt.
  destruct (c =? ESC); [done|].
  destruct (c =? CR).
  { destruct (negb _); [done|]. apply IH; lia. }
  destruct (iscntrl c) as [b|]; [|done].
  destruct (negb b && _); apply IH; lia.
Qed.

Lemma editorPrompt_keys_typed s rest :
  Forall printable s →
  editorPrompt_keys (map ReadByte s ++ rest) = prompt_loop (S (length rest)) s rest.
Proof.
  intros Hs. unfold editorPrompt_keys.
  rewrite length_app, length_map.
  replace (S (length s + length rest)) with (length s + S (length rest))%nat by lia.
  by rewrite prompt_loop_typed.
Qed.

Lemma prompt_loop_key fuel buf inp c rest :
  editorReadKey inp = Key c rest →
  prompt_loop (S fuel) buf inp =
    let buf1 :=
      if (c =? DEL_KEY) || (c =? CTRL_KEY CH_h) || (c =? BACKSPACE)
      then (if negb (Z.of_nat (length buf) =? 0) then removelast buf else buf)
      else buf in
    if c =? ESC then PromptReturn None rest
    else if c =? CR then
      if negb (Z.of_nat (length buf1) =? 0) then PromptReturn (Some buf1) rest
      else prompt_loop fuel buf1 rest
    else
      match iscntrl c with
      | None => PromptUndefined
      | Some b =>
          if negb b && (c <? 128)
          then prompt_loop fuel (buf1 ++ [char_of_int c]) rest
          else prompt_loop fuel buf1 rest
      end.
Proof. intros Hkey. cbn [prompt_loop]. by rewrite Hkey. Qed.

Lemma editorReadKey_byte k rest :
  (k =? ESC) = false → editorReadKey (ReadByte k :: rest) = Key k rest.
Proof. intros Hk. cbn [editorReadKey]. by rewrite Hk. Qed.

(** X18.  Editing at the prompt of [editorPrompt], after any printable
    text typed.  Backspace or Ctrl-H right after a character removes
    it again, whatever follows.  On the empty buffer Backspace, Ctrl-H
    and Enter are ignored.  Any other control character but Escape is
    ignored.  The Escape key (a lone escape byte or an escape sequence
    that is not recognised) makes the prompt return NULL. *)
Theorem prompt_line_editing s :
  Forall printable s →
  (∀ x k rest, printable x → k = BACKSPACE ∨ k = CTRL_KEY CH_h →
     editorPrompt_keys (map ReadByte (s ++ [x]) ++ ReadByte k :: rest)
     = editorPrompt_keys (map ReadByte s ++ rest))
  ∧ (∀ k rest, k = BACKSPACE ∨ k = CTRL_KEY CH_h ∨ k = CR →
       editorPrompt_keys (ReadByte k :: rest) = editorPrompt_keys rest)
  ∧ (∀ k rest, 0 ≤ k < 32 → k ≠ CR → k ≠ ESC → k ≠ CTRL_KEY CH_h →
       editorPrompt_keys (map ReadByte s ++ ReadByte k :: rest)
       = editorPrompt_keys (map ReadByte s ++ rest))
  ∧ (∀ inp rest, editorReadKey inp = Key ESC rest →
       editorPrompt_keys (map ReadByte s ++ inp) = PromptReturn None rest).
Proof.
  intros Hs. repeat split.
  - intros x k rest Hx Hk.
    rewrite !editorPrompt_keys_typed by (try apply Forall_app; auto).
    assert ((k =? ESC) = false ∧ (k =? CR) = false
            ∧ ((k =? DEL_KEY) || (k =? CTRL_KEY CH_h) || (k =? BACKSPACE)) = true
            ∧ iscntrl k = Some true) as (Hesc & Hcr & Hdel & Hctl)
      by (destruct Hk as [-> | ->]; by vm_compute).
    cbn [length].
    rewrite (prompt_loop_key _ _ _ k rest) by by apply editorReadKey_byte.
    cbv zeta. rewrite Hesc, Hcr, Hdel, Hctl.
    rewrite length_app. cbn [length].
    replace (Z.of_nat (length s + 1) =? 0) with false by (symmetry; apply Z.eqb_neq; lia).
    cbn [negb andb]. rewrite removelast_last.
    apply prompt_loop_fuel_indep; lia.
  - intros k rest Hk. unfold editorPrompt_keys.
    cbn [length].
    assert ((k =? ESC) = false) as Hesc by (destruct Hk as [-> | [-> | ->]]; by vm_compute).
    rewrite (prompt_loop_key _ _ _ k rest) by by apply editorReadKey_byte.
    destruct Hk as [-> | [-> | ->]]; reflexivity.
  - intros k rest Hk Hcr Hesc Hh.
    rewrite !editorPrompt_keys_typed by done.
    cbn [length].
    assert ((k =? ESC) = false) as Hk1 by by apply Z.eqb_neq.
    assert ((k =? CR) = false) as Hk2 by by apply Z.eqb_neq.
    assert ((k =? CTRL_KEY CH_h) = false) as Hk3 by by apply Z.eqb_neq.
    assert ((k =? DEL_KEY) = false) as Hk4 by (apply Z.eqb_neq; vm_compute; intros ->; lia).
    assert ((k =? BACKSPACE) = false) as Hk5 by (apply Z.eqb_neq; vm_compute; intros ->; lia).
    assert (iscntrl k = Some true) as Hk6.
    { unfold iscntrl.
      destruct (Z.ltb_spec k (-1)); [lia|]. destruct (Z.gtb_spec k 255); [lia|].
      destruct (Z.leb_spec 0 k); [|lia]. destruct (Z.ltb_spec k 32); [|lia]. done. }
    rewrite (prompt_loop_key _ _ _ k rest) by by apply editorReadKey_byte.
    cbv zeta. rewrite Hk1, Hk2, Hk3, Hk4, Hk5, Hk6.
    cbn [orb negb andb].
    apply prompt_loop_fuel_indep; lia.
  - intros inp rest Hkey.
    rewrite editorPrompt_keys_typed by done.
    by rewrite (prompt_loop_key _ _ _ _ _ Hkey).
Qed.

Lemma prompt_line_editing_witness :
  editorPrompt_keys (map ReadByte ([97] ++ [98]) ++ ReadByte BACKSPACE :: [ReadByte CR])
  = editorPrompt_keys (map ReadByte [97] ++ [ReadByte CR])
  ∧ editorPrompt_keys (ReadByte CR :: [ReadByte 97; ReadByte CR]) = editorPrompt_keys [ReadByte 97; ReadByte CR]
  ∧ editorPrompt_keys (map ReadByte [97] ++ ReadByte 9 :: [ReadByte CR])
    = editorPrompt_keys (map ReadByte [97] ++ [ReadByte CR])
  ∧ editorPrompt_keys (map ReadByte [97] ++ [ReadByte ESC]) = PromptReturn None [].
Proof.
  assert (Forall printable [97]) as Hs by (repeat constructor; unfold printable; lia).
  destruct (prompt_line_editing [97] Hs) as (H1 & H2 & H3 & H4).
  split; [|split; [|split]].
  - apply H1; [unfold printable; lia | by left].
  - apply H2. by right; right.
  - apply H3; [lia | by vm_compute..].
  - apply H4. reflexivity.
Defined.

(** X19.  At the prompt, a key whose code is not a value of
    [unsigned char] nor EOF (the arrow, Home, End, Page and Delete keys,
    coded from 1000 on, and the bytes 0x80 to 0xFE read into a signed
    [char]) is passed to [iscntrl]: the behaviour is undefined. *)
Theorem prompt_special_key_undefined s inp c rest :
  Forall printable s →
  editorReadKey inp = Key c rest →
  c < -1 ∨ 255 < c →
  editorPrompt_keys (map ReadByte s ++ inp) = PromptUndefined.
Proof.
  intros Hs Hkey Hc.
  rewrite editorPrompt_keys_typed by done.
  rewrite (prompt_loop_key _ _ _ _ _ Hkey). cbv zeta.
  assert ((c =? ESC) = false) as -> by (apply Z.eqb_neq; vm_compute; intros ->; lia).
  assert ((c =? CR) = false) as -> by (apply Z.eqb_neq; vm_compute; intros ->; lia).
  assert (iscntrl c = None) as ->; [|done].
  unfold iscntrl.
  destruct (Z.ltb_spec c (-1)); [done|]. destruct (Z.gtb_spec c 255); [done|]. lia.
Qed.

Lemma prompt_special_key_undefined_witness :
  editorPrompt_keys (map ReadByte [97] ++ [ReadByte ESC; ReadByte LBRACKET; ReadByte 65])
  = PromptUndefined.
Proof.
  apply (prompt_special_key_undefined [97] _ ARROW_UP []).
  - repeat constructor; unfold printable; lia.
  - reflexivity.
  - right. vm_compute. reflexivity.
Defined.

(* ================================================================= *)
(** ** Drawing the rows *)

Lemma abAppend_all ab s len :
  len = Z.of_nat (length s) → abAppend ab s len = Some (ab ++ s).
Proof.
  intros ->. unfold abAppend.
  destruct (Z.ltb_spec (Z.of_nat (length s)) 0); [lia|].
  destruct (Z.ltb_spec (Z.of_nat (length s)) (Z.of_nat (length s))); [lia|].
  simpl. by rewrite Nat2Z.id, firstn_all.
Qed.

Lemma abAppend_take ab s len :
  0 ≤ len ≤ Z.of_nat (length s) → abAppend ab s len = Some (ab ++ take (Z.to_nat len) s).
Proof.
  intros H. unfold abAppend.
  destruct (Z.ltb_spec len 0); [lia|].
  destruct (Z.ltb_spec (Z.of_nat (length s)) len); [lia|]. done.
Qed.

Lemma pad_spaces_spec n : ∀ ab, pad_spaces n ab = Some (ab ++ replicate n SPACE).
Proof.
  induction n as [|n IH]; intros ab; cbn [pad_spaces replicate].
  - by rewrite app_nil_r.
  - rewrite (abAppend_all ab [SPACE] 1) by done. cbn [mbind option_bind]. rewrite IH.
    by rewrite <- (app_assoc ab [SPACE]).
Qed.

Lemma draw_welcome_spec E ab :
  0 ≤ screencols E →
  ∃ t, draw_welcome E ab = Some (ab ++ t) ∧ Z.of_nat (length t) ≤ screencols E.
Proof.
  intros Hcols. unfold draw_welcome.
  change (Z.of_nat (length welcome_text)) with 28.
  set (wl := if 28 >? screencols E then screencols E else 28).
  assert (0 ≤ wl ≤ 28 ∧ wl ≤ screencols E) as Hwl
    by (subst wl; destruct (Z.gtb_spec 28 (screencols E)); lia).
  set (pad := (screencols E - wl) ÷ 2).
  assert (0 ≤ pad ∧ 2 * pad ≤ screencols E - wl) as Hpad.
  { subst pad. rewrite Z.quot_div_nonneg by lia.
    pose proof (Z.div_pos (screencols E - wl) 2).
    pose proof (Z.mul_div_le (screencols E - wl) 2). lia. }
  destruct (Z.eqb_spec pad 0) as [Hz|Hnz].
  - simpl. rewrite Hz. simpl.
    rewrite abAppend_take by (change (Z.of_nat (length welcome_text)) with 28; lia).
    eexists. split; [done|]. rewrite length_take. lia.
  - rewrite (abAppend_all ab [TILDE] 1) by done. simpl.
    rewrite pad_spaces_spec. simpl.
    rewrite abAppend_take by (change (Z.of_nat (length welcome_text)) with 28; lia).
    eexists (TILDE :: replicate (Z.to_nat (pad - 1)) SPACE ++ take (Z.to_nat wl) welcome_text).
    split.
    + f_equal. rewrite <- !app_assoc. done.
    + cbn [length]. rewrite length_app, length_replicate, length_take. lia.
Qed.

Lemma draw_row_spec E y ab :
  renders_in_sync E → 0 < screencols E → 0 ≤ coloff E → 0 ≤ y + rowoff E →
  ∃ t, draw_row E y ab = Some (ab ++ t ++ ERASE_LINE ++ CRLF)
       ∧ Z.of_nat (length t) ≤ screencols E
       ∧ (∀ r, row_at E (y + rowoff E) = Some r →
            t = take (Z.to_nat (screencols E)) (drop (Z.to_nat (coloff E)) (render r)))
       ∧ (numrows E ≤ y + rowoff E → 0 < numrows E → t = [TILDE]).
Proof.
  intros Hsync Hcols Hcoloff Hy. unfold draw_row.
  assert (∀ ab1 t, ab1 = ab ++ t →
            (ab2 ← abAppend ab1 ERASE_LINE 3; abAppend ab2 CRLF 2)
            = Some (ab ++ t ++ ERASE_LINE ++ CRLF)) as Htail.
  { intros ab1 t ->. rewrite (abAppend_all (ab ++ t) ERASE_LINE 3) by done.
    cbn [mbind option_bind].
    rewrite (abAppend_all _ CRLF 2) by done. by rewrite <- !app_assoc. }
  destruct (Z.geb_spec (y + rowoff E) (numrows E)) as [Hge|Hlt].
  - assert (row_at E (y + rowoff E) = None) as Hnone by (apply row_at_None; lia).
    destruct ((y =? screenrows E ÷ 3) && (numrows E =? 0)) eqn:Hw.
    + destruct (draw_welcome_spec E ab) as (t & -> & Ht); [lia|].
      cbn [mbind option_bind]. exists t. rewrite (Htail _ t) by done.
      split; [done|]. split; [done|]. split.
      * intros r Hr. congruence.
      * apply andb_prop in Hw as [_ Hw%Z.eqb_eq]. lia.
    + rewrite (abAppend_all ab [TILDE] 1) by done. cbn [mbind option_bind]. exists [TILDE].
      rewrite (Htail _ [TILDE]) by done.
      split; [done|]. split; [simpl; lia|]. split; [|done].
      intros r Hr. congruence.
  - destruct (row_at_is_Some E (y + rowoff E)) as [r Hr]; [lia|]. rewrite Hr. cbn [mbind option_bind].
    destruct (row_at_in_sync E _ r Hsync Hr) as [_ Hrsize].
    destruct (Z.ltb_spec (coloff E) 0); [lia|].
    set (len0 := if rsize r - coloff E <? 0 then 0 else rsize r - coloff E).
    set (len := if len0 >? screencols E then screencols E else len0).
    assert (len = Z.min (screencols E) (Z.max 0 (rsize r - coloff E))) as Hlen.
    { subst len len0. destruct (Z.ltb_spec (rsize r - coloff E) 0);
        match goal with |- context [?a >? ?b] => destruct (Z.gtb_spec a b) end; lia. }
    rewrite abAppend_take by (rewrite length_drop; lia).
    cbn [mbind option_bind].
    assert (take (Z.to_nat len) (drop (Z.to_nat (coloff E)) (render r))
            = take (Z.to_nat (screencols E)) (drop (Z.to_nat (coloff E)) (render r))) as Htake.
    { destruct (Z.le_gt_cases (screencols E) (Z.max 0 (rsize r - coloff E))).
      - f_equal. lia.
      - rewrite !take_ge; [done|rewrite length_drop; lia..]. }
    rewrite Htake.
    eexists. rewrite (Htail _ _ eq_refl).
    split; [done|]. split; [|split].
    + rewrite length_take. lia.
    + intros r' Hr'. congruence.
    + lia.
Qed.

Lemma draw_rows_loop_spec E n : ∀ y ab,
  renders_in_sync E → 0 < screencols E → 0 ≤ coloff E → 0 ≤ y + rowoff E →
  ∃ texts,
    draw_rows_loop n y E ab
    = Some (ab ++ concat (map (λ t, t ++ ERASE_LINE ++ CRLF) texts))
    ∧ length texts = n
    ∧ Forall (λ t, Z.of_nat (length t) ≤ screencols E) texts
    ∧ (∀ (i : nat) r, (i < n)%nat → row_at E (y + Z.of_nat i + rowoff E) = Some r →
         texts !! i = Some (take (Z.to_nat (screencols E))
                                 (drop (Z.to_nat (coloff E)) (render r))))
    ∧ (∀ i : nat, (i < n)%nat → numrows E ≤ y + Z.of_nat i + rowoff E → 0 < numrows E →
         texts !! i = Some [TILDE]).
Proof.
  induction n as [|n IH]; intros y ab Hsync Hcols Hcoloff Hy.
  - exists []. simpl. rewrite app_nil_r.
    split; [done|]. split; [done|]. split; [constructor|]. split; intros; lia.
  - cbn [draw_rows_loop].
    destruct (draw_row_spec E y ab Hsync Hcols Hcoloff Hy) as (t & -> & Hw & Hrow & Htilde).
    cbn [mbind option_bind].
    destruct (IH (y + 1) (ab ++ t ++ ERASE_LINE ++ CRLF) Hsync Hcols Hcoloff)
      as (texts & -> & Hlen & Hall & Hrows & Htildes); [lia|].
    exists (t :: texts). split; [|split; [|split; [|split]]].
    + simpl. by rewrite <- !app_assoc.
    + simpl. by rewrite Hlen.
    + by constructor.
    + intros [|i] r Hi Hr.
      * simpl. f_equal. apply Hrow.
        by replace (y + rowoff E) with (y + Z.of_nat 0 + rowoff E) by lia.
      * simpl. apply Hrows; [lia|].
        by replace (y + 1 + Z.of_nat i) with (y + Z.of_nat (S i)) by lia.
    + intros [|i] Hi Hge Hpos.
      * simpl. f_equal. apply Htilde; [lia|done].
      * simpl. apply Htildes; [lia| lia |done].
Qed.

Lemma logicalToVisual_bounds r cx0 :
  row_in_sync r → 0 ≤ cx0 ≤ size r →
  0 ≤ logicalToVisual (chars r) (Z.to_nat cx0) ≤ rsize r.
Proof.
  intros [Hrender Hrsize] Hcx. unfold logicalToVisual.
  pose proof (fold_logicalToVisual_render (take (Z.to_nat cx0) (chars r)) 0) as Hv.
  cbn [Nat.add] in Hv. change (Z.of_nat 0) with 0 in Hv. rewrite Hv.
  assert (render r = renderOf_from 0 (take (Z.to_nat cx0) (chars r))
                     ++ renderOf_from (0 + length (renderOf_from 0 (take (Z.to_nat cx0) (chars r))))
                                      (drop (Z.to_nat cx0) (chars r))) as Hsplit.
  { rewrite Hrender. unfold renderOf.
    rewrite <- (take_drop (Z.to_nat cx0) (chars r)) at 1.
    by rewrite renderOf_from_app. }
  rewrite Hrsize, Hsplit, length_app. lia.
Qed.

(** X20.  [editorScroll] followed by [editorDrawRows], as
    [editorRefreshScreen] calls them, on a state with a valid cursor,
    renders in sync, a viewport of at least one row and one column and
    offsets that are not negative.  The scroll changes neither rows nor
    cursor, keeps the offsets non-negative and puts the cursor inside
    the viewport.  The drawing appends exactly [screenrows] lines, each
    followed by erase-line and CR LF and none wider than the screen; a
    line of the document shows its render from column [coloff] on, cut
    to the screen width; a line below a non-empty document shows a
    tilde; and the cell under the terminal cursor shows the byte of the
    render at [rx]. *)
Theorem refresh_shows_cursor_cell E ab :
  cursor_ok E → renders_in_sync E →
  0 < screenrows E → 0 < screencols E → 0 ≤ rowoff E → 0 ≤ coloff E →
  ∃ E' texts,
    editorScroll E = Some E'
    ∧ row E' = row E ∧ cx E' = cx E ∧ cy E' = cy E
    ∧ 0 ≤ rowoff E' ∧ 0 ≤ coloff E'
    ∧ 0 ≤ cy E' - rowoff E' < screenrows E' ∧ 0 ≤ rx E' - coloff E' < screencols E'
    ∧ editorDrawRows E' ab
      = Some (ab ++ concat (map (λ t, t ++ ERASE_LINE ++ CRLF) texts))
    ∧ Z.of_nat (length texts) = screenrows E'
    ∧ Forall (λ t, Z.of_nat (length t) ≤ screencols E') texts
    ∧ (∀ (y : nat) r, row_at E' (Z.of_nat y + rowoff E') = Some r → Z.of_nat y < screenrows E' →
         texts !! y = Some (take (Z.to_nat (screencols E'))
                                 (drop (Z.to_nat (coloff E')) (render r))))
    ∧ (∀ y : nat, numrows E' ≤ Z.of_nat y + rowoff E' → Z.of_nat y < screenrows E' →
         0 < numrows E' → texts !! y = Some [TILDE])
    ∧ (∀ r, row_at E' (cy E') = Some r →
         ∃ t, texts !! Z.to_nat (cy E' - rowoff E') = Some t
              ∧ t !! Z.to_nat (rx E' - coloff E') = render r !! Z.to_nat (rx E')).
Proof.
  intros Hok Hsync Hrows Hcols Hrowoff Hcoloff.
  assert (∀ r, row_at E (cy E) = Some r → cx E ≤ size r) as Hcx.
  { intros r Hr. destruct Hok as [_ Hcx]. unfold cursor_rowlen in Hcx.
    rewrite Hr in Hcx. lia. }
  rewrite editorScroll_closed_form by (destruct Hok; auto; lia).
  set (E' := set_coloff _ _).
  assert (0 ≤ visual_column E) as Hv0.
  { unfold visual_column. destruct (row_at E (cy E)) as [r|] eqn:Hr; [|lia].
    apply (logicalToVisual_bounds r (cx E)); [by eapply row_at_in_sync|].
    destruct Hok as [_ Hc]. unfold cursor_rowlen in Hc. rewrite Hr in Hc. lia. }
  pose proof (scroll_clamp_reveals (rowoff E) (cy E) (screenrows E) Hrows) as Hvr.
  pose proof (scroll_clamp_reveals (coloff E) (visual_column E) (screencols E) Hcols) as Hvc.
  assert (0 ≤ scroll_clamp (rowoff E) (cy E) (screenrows E)) as Hro.
  { unfold scroll_clamp. destruct Hok as [Hcy _].
    destruct (Z.ltb_spec (cy E) (rowoff E));
      match goal with |- context [?a >=? ?b] => destruct (Z.geb_spec a b) end; lia. }
  assert (0 ≤ scroll_clamp (coloff E) (visual_column E) (screencols E)) as Hco.
  { unfold scroll_clamp.
    destruct (Z.ltb_spec (visual_column E) (coloff E));
      match goal with |- context [?a >=? ?b] => destruct (Z.geb_spec a b) end; lia. }
  assert (renders_in_sync E') as Hsync' by exact Hsync.
  destruct (draw_rows_loop_spec E' (Z.to_nat (screenrows E')) 0 ab Hsync')
    as (texts & Hdraw & Hlen & Hall & Hshow & Htil); [exact Hcols|exact Hco|exact Hro|].
  exists E', texts.
  assert (∀ (y : nat) r, row_at E' (Z.of_nat y + rowoff E') = Some r →
            Z.of_nat y < screenrows E' →
            texts !! y = Some (take (Z.to_nat (screencols E'))
                                    (drop (Z.to_nat (coloff E')) (render r)))) as Hslice.
  { intros y r Hr Hy. apply Hshow; [lia|]. exact Hr. }
  assert (cy E' = cy E) as Ecy by reflexivity.
  assert (rx E' = visual_column E) as Erx by reflexivity.
  assert (rowoff E' = scroll_clamp (rowoff E) (cy E) (screenrows E)) as Ero by reflexivity.
  assert (coloff E' = scroll_clamp (coloff E) (visual_column E) (screencols E)) as Eco
    by reflexivity.
  assert (screenrows E' = screenrows E) as Esr by reflexivity.
  assert (screencols E' = screencols E) as Esc by reflexivity.
  split; [done|]. do 3 (split; [reflexivity|]).
  split; [exact Hro|]. split; [exact Hco|].
  split; [lia|]. split; [lia|].
  split; [exact Hdraw|]. split; [lia|]. split; [exact Hall|]. split; [exact Hslice|].
  split; [intros y Hy1 Hy2 Hy3; apply Htil; [lia|exact Hy1|exact Hy3]|].
  intros r Hr.
  eexists. split.
  - apply Hslice; [|lia].
    rewrite Z2Nat.id by lia.
    by replace (cy E' - rowoff E' + rowoff E') with (cy E') by lia.
  - rewrite lookup_take_lt by lia. rewrite lookup_drop. f_equal. lia.
Qed.

Lemma refresh_shows_cursor_cell_witness :
  let E := mk_editor 1 0 0 0 0 22 80 [mk_erow [97; 98] 2 [97; 98]] 0 None MsgEmpty KILO_QUIT_TIMES in
  ∃ E' texts,
    editorScroll E = Some E'
    ∧ editorDrawRows E' [] = Some (concat (map (λ t, t ++ ERASE_LINE ++ CRLF) texts))
    ∧ Z.of_nat (length texts) = 22
    ∧ texts !! 0%nat = Some [97; 98]
    ∧ texts !! 1%nat = Some [TILDE].
Proof.
  intros E.
  destruct (refresh_shows_cursor_cell E [])
    as (E' & texts & Hscroll & Hrow & _ & _ & _ & _ & _ & _ & Hdraw & Hlen & _
        & Hslice & Htilde & _).
  - vm_compute. repeat split; discriminate.
  - repeat constructor.
  - reflexivity.
  - reflexivity.
  - vm_compute. discriminate.
  - vm_compute. discriminate.
  - exists E', texts. split; [exact Hscroll|]. split; [exact Hdraw|].
    vm_compute in Hscroll. injection Hscroll as <-.
    split; [exact Hlen|]. split.
    + apply (Hslice 0%nat (mk_erow [97; 98] 2 [97; 98])); reflexivity.
    + apply (Htilde 1%nat); vm_compute; (reflexivity || discriminate).
Defined.

(* ================================================================= *)
(** ** The status bar *)

Lemma digits_length fuel : ∀ (k : nat) n acc,
  0 ≤ n < 10 ^ Z.of_nat (S k) →
  (length (digits fuel n acc) ≤ length acc + S k)%nat.
Proof.
  induction fuel as [|fuel IH]; intros k n acc Hn; cbn [digits]; [lia|].
  destruct (Z.eqb_spec (n / 10) 0) as [Hz|Hnz]; [cbn [length]; lia|].
  destruct k as [|k].
  { change (10 ^ Z.of_nat 1) with 10 in Hn. rewrite Z.div_small in Hnz by lia. done. }
  specialize (IH k (n / 10) ((CH_0 + n mod 10) :: acc)).
  cbn [length] in IH. etrans; [apply IH|lia].
  split; [apply Z.div_pos; lia|].
  apply Z.div_lt_upper_bound; [lia|].
  replace (Z.of_nat (S (S k))) with (1 + Z.of_nat (S k)) in Hn by lia.
  rewrite Z.pow_add_r in Hn by lia. lia.
Qed.

Lemma digits_app fuel : ∀ n acc, digits fuel n acc = digits fuel n [] ++ acc.
Proof.
  induction fuel as [|fuel IH]; intros n acc; cbn [digits]; [done|].
  destruct (n / 10 =? 0); [done|].
  rewrite IH, (IH _ [_]). by rewrite <- app_assoc.
Qed.

Lemma digits_value fuel : ∀ n,
  0 ≤ n < 2 ^ Z.of_nat fuel → decimal_value (digits fuel n []) = n.
Proof.
  induction fuel as [|fuel IH]; intros n Hn; cbn [digits].
  - change (2 ^ Z.of_nat 0) with 1 in Hn. unfold decimal_value. simpl. lia.
  - pose proof (Z.div_mod n 10 ltac:(lia)) as Hdm.
    pose proof (Z.mod_pos_bound n 10 ltac:(lia)) as Hm.
    destruct (Z.eqb_spec (n / 10) 0) as [Hz|Hnz].
    + unfold decimal_value, CH_0. simpl. lia.
    + rewrite digits_app. unfold decimal_value. rewrite fold_left_app. simpl.
      fold (decimal_value (digits fuel (n / 10) [])). rewrite IH; [unfold CH_0; lia|].
      split; [apply Z.div_pos; lia|].
      apply Z.div_lt_upper_bound; [lia|].
      replace (Z.of_nat (S fuel)) with (1 + Z.of_nat fuel) in Hn by lia.
      rewrite Z.pow_add_r in Hn by lia. lia.
Qed.

(** The digits [fmt_d] gives denote the number: the bound on the
    rounds of [digits] is never reached. *)
Lemma fmt_d_value n : 0 ≤ n → decimal_value (fmt_d n) = n.
Proof.
  intros Hn. unfold fmt_d. destruct (Z.ltb_spec n 0); [lia|].
  apply digits_value. split; [done|].
  destruct (decide (n = 0)) as [->|]; [done|].
  pose proof (Z.log2_spec n ltac:(lia)) as [_ Hlog].
  pose proof (Z.log2_nonneg n).
  replace (Z.of_nat (S (Z.to_nat (Z.log2 n)))) with (Z.succ (Z.log2 n)) by lia. done.
Qed.

Lemma digits_grows fuel : ∀ n acc, (length acc ≤ length (digits fuel n acc))%nat.
Proof.
  induction fuel as [|fuel IH]; intros n acc; cbn [digits]; [lia|].
  destruct (n / 10 =? 0); [cbn [length]; lia|].
  etrans; [|apply IH]. cbn [length]. lia.
Qed.

Lemma fmt_d_length n :
  - 2 ^ 31 ≤ n < 2 ^ 31 →
  (1 ≤ length (fmt_d n) ≤ 11)%nat ∧ (0 ≤ n → (length (fmt_d n) ≤ 10)%nat).
Proof.
  intros Hn. unfold fmt_d.
  assert (∀ fuel m acc, (1 ≤ length (digits (S fuel) m acc))%nat) as Hpos.
  { intros fuel m acc. cbn [digits].
    destruct (m / 10 =? 0); [cbn [length]; lia|].
    etrans; [|apply digits_grows]. cbn [length]. lia. }
  destruct (Z.ltb_spec n 0).
  - pose proof (digits_length (S (Z.to_nat (Z.log2 (- n)))) 9 (- n) []) as Hd.
    cbn [length]. cbn [length] in Hd.
    split; [|lia]. split; [lia|].
    assert (0 ≤ - n < 10 ^ Z.of_nat 10) by (change (10 ^ Z.of_nat 10) with 10000000000; lia).
    specialize (Hd H0). lia.
  - pose proof (digits_length (S (Z.to_nat (Z.log2 n))) 9 n []) as Hd.
    cbn [length] in Hd.
    assert (0 ≤ n < 10 ^ Z.of_nat 10) by (change (10 ^ Z.of_nat 10) with 10000000000; lia).
    specialize (Hd H0). pose proof (Hpos (Z.to_nat (Z.log2 n)) n []). lia.
Qed.

Lemma status_pad_spec sc rstatus fuel : ∀ len ab,
  (Z.to_nat (sc - len) < fuel)%nat → rstatus ≠ [] →
  status_pad fuel len sc rstatus (Z.of_nat (length rstatus)) ab
  = Some (ab ++ if decide (len + Z.of_nat (length rstatus) ≤ sc)
                then replicate (Z.to_nat (sc - len - Z.of_nat (length rstatus))) SPACE
                     ++ rstatus
                else replicate (Z.to_nat (sc - len)) SPACE).
Proof.
  induction fuel as [|fuel IH]; intros len ab Hfuel Hne; [lia|].
  assert (0 < Z.of_nat (length rstatus)) as Hrlen by (destruct rstatus; [done|simpl; lia]).
  cbn [status_pad].
  destruct (Z.ltb_spec len sc) as [Hlt|Hge].
  - destruct (Z.eqb_spec (sc - len) (Z.of_nat (length rstatus))) as [Heq|Hneq].
    + rewrite abAppend_all by done.
      rewrite decide_True by lia.
      replace (Z.to_nat (sc - len - Z.of_nat (length rstatus))) with 0%nat by lia. done.
    + rewrite (abAppend_all ab [SPACE] 1) by done. cbn [mbind option_bind].
      rewrite IH by (done || lia).
      f_equal. rewrite <- app_assoc. f_equal.
      destruct (decide (len + Z.of_nat (length rstatus) ≤ sc)).
      * rewrite decide_True by lia.
        replace (Z.to_nat (sc - len - Z.of_nat (length rstatus)))
          with (S (Z.to_nat (sc - (len + 1) - Z.of_nat (length rstatus)))) by lia.
        done.
      * rewrite decide_False by lia.
        replace (Z.to_nat (sc - len)) with (S (Z.to_nat (sc - (len + 1)))) by lia.
        done.
  - rewrite decide_False by lia.
    replace (Z.to_nat (sc - len)) with 0%nat by lia. by rewrite app_nil_r.
Qed.

Lemma status_text_length E :
  numrows E < 2 ^ 31 → (length (status_text E) ≤ 50)%nat.
Proof.
  intros Hn. unfold status_text.
  assert (0 ≤ numrows E) by (unfold numrows; lia).
  destruct (fmt_d_length (numrows E)) as [_ Hd]; [lia|]. specialize (Hd H).
  rewrite !length_app, length_take.
  change (length (bytes_of_string " - ")) with 3%nat.
  change (length (bytes_of_string " lines ")) with 7%nat.
  destruct (dirty E =? 0); [cbn [length]|change (length (bytes_of_string "(modified)")) with 10%nat];
    lia.
Qed.

Lemma rstatus_text_length E :
  numrows E < 2 ^ 31 → - 2 ^ 31 ≤ cy E + 1 < 2 ^ 31 →
  (1 ≤ length (rstatus_text E) ≤ 22)%nat.
Proof.
  intros Hn Hcy. unfold rstatus_text.
  assert (0 ≤ numrows E) by (unfold numrows; lia).
  destruct (fmt_d_length (numrows E)) as [_ Hd]; [lia|]. specialize (Hd H).
  destruct (fmt_d_length (cy E + 1)) as [Hc _]; [lia|].
  rewrite !length_app. change (length (bytes_of_string "/")) with 1%nat. lia.
Qed.

(** X21.  [editorDrawStatusBar], for a screen width that is not
    negative and values in the range of [int]: between the two colour
    sequences the bar is exactly [screencols] bytes wide.  When the
    file/lines text and the row/rows text both fit, the bar is the
    first, spaces, and the second flush right; otherwise it is the
    first cut to the screen width and padded with spaces, and the
    second is not shown. *)
Theorem status_bar_fills_width E ab :
  0 ≤ screencols E → numrows E < 2 ^ 31 → - 2 ^ 31 ≤ cy E + 1 < 2 ^ 31 →
  ∃ bar,
    editorDrawStatusBar E ab = Some (ab ++ INVERT ++ bar ++ NORMAL ++ CRLF)
    ∧ Z.of_nat (length bar) = screencols E
    ∧ (Z.of_nat (length (status_text E) + length (rstatus_text E)) ≤ screencols E →
         bar = status_text E
               ++ replicate (Z.to_nat (screencols E) - length (status_text E)
                             - length (rstatus_text E)) SPACE
               ++ rstatus_text E)
    ∧ (screencols E < Z.of_nat (length (status_text E) + length (rstatus_text E)) →
         bar = take (Z.to_nat (screencols E)) (status_text E)
               ++ replicate (Z.to_nat (screencols E) - length (status_text E)) SPACE).
Proof.
  intros Hcols Hn Hcy.
  pose proof (status_text_length E Hn) as Hsl.
  pose proof (rstatus_text_length E Hn Hcy) as Hrl.
  unfold editorDrawStatusBar, snprintf80.
  rewrite (abAppend_all ab INVERT 4) by done. cbn [mbind option_bind].
  rewrite (take_ge (status_text E)), (take_ge (rstatus_text E)) by lia.
  set (status := status_text E) in *. set (rstatus := rstatus_text E) in *.
  set (len := if Z.of_nat (length status) >? screencols E then screencols E
              else Z.of_nat (length status)).
  assert (len = Z.min (Z.of_nat (length status)) (screencols E)) as Hlen
    by (subst len; destruct (Z.gtb_spec (Z.of_nat (length status)) (screencols E)); lia).
  rewrite abAppend_take by lia. cbn [mbind option_bind].
  rewrite status_pad_spec by (lia || (intros Hnil; rewrite Hnil in Hrl; simpl in Hrl; lia)).
  cbn [mbind option_bind].
  rewrite (abAppend_all _ NORMAL 3) by done. cbn [mbind option_bind].
  rewrite (abAppend_all _ CRLF 2) by done.
  exists (take (Z.to_nat len) status
          ++ if decide (len + Z.of_nat (length rstatus) ≤ screencols E)
             then replicate (Z.to_nat (screencols E - len - Z.of_nat (length rstatus))) SPACE
                  ++ rstatus
             else replicate (Z.to_nat (screencols E - len)) SPACE).
  split; [by rewrite <- !app_assoc|].
  destruct (decide (len + Z.of_nat (length rstatus) ≤ screencols E)) as [Hfit|Hnofit].
  - assert (len = Z.of_nat (length status)) as Hfull by lia.
    split; [|split].
    + rewrite !length_app, length_take, length_replicate. lia.
    + intros _. rewrite take_ge by lia. do 3 f_equal. lia.
    + intros Hno. lia.
  - split; [|split].
    + rewrite !length_app, length_take, length_replicate. lia.
    + intros Hyes. lia.
    + intros _. f_equal; [|f_equal; lia].
      destruct (decide (Z.of_nat (length status) ≤ screencols E)).
      * by rewrite !take_ge by lia.
      * f_equal. lia.
Qed.

Lemma status_bar_fills_width_witness :
  let E := mk_editor 1 0 0 0 0 22 80 [mk_erow [97; 98] 2 [97; 98]] 0 None MsgEmpty KILO_QUIT_TIMES in
  ∃ bar,
    editorDrawStatusBar E [] = Some (INVERT ++ bar ++ NORMAL ++ CRLF)
    ∧ Z.of_nat (length bar) = 80
    ∧ bar = status_text E ++ replicate 57 SPACE ++ rstatus_text E.
Proof.
  intros E.
  destruct (status_bar_fills_width E []) as (bar & Hbar & Hlen & Hfit & _).
  - vm_compute. discriminate.
  - reflexivity.
  - vm_compute. split; [discriminate|reflexivity].
  - exists bar. split; [exact Hbar|]. split; [exact Hlen|].
    apply Hfit. vm_compute. discriminate.
Defined.

(* ================================================================= *)
(** ** The outcomes of a save *)

Lemma save_to_disk_outcomes io E :
  filename (save_to_disk io E) = filename E
  ∧ (open_ok io = true → ftruncate_ok io = true → write_ok io = true →
       dirty (save_to_disk io E) = 0
       ∧ statusmsg (save_to_disk io E) = MsgBytesWritten (Z.of_nat (length (doc_bytes E))))
  ∧ (open_ok io = false →
       dirty (save_to_disk io E) = dirty E
       ∧ statusmsg (save_to_disk io E) = MsgSaveError (strerror_errno io))
  ∧ (open_ok io = true → ftruncate_ok io && write_ok io = false →
       save_to_disk io E = E).
Proof.
  unfold save_to_disk. rewrite doc_bytes_spec, editorRowsToString_spec.
  destruct (open_ok io), (ftruncate_ok io), (write_ok io); simpl; repeat split; done.
Qed.

Lemma prompt_loop_nonempty fuel : ∀ buf inp name rest,
  prompt_loop fuel buf inp = PromptReturn (Some name) rest → name ≠ [].
Proof.
  induction fuel as [|fuel IH]; intros buf inp name rest; cbn [prompt_loop]; [done|].
  destruct (editorReadKey inp) as [c r| |]; try done.
  cbv zeta.
  match goal with |- context [PromptReturn (Some ?b) r] => set (buf1 := b) end.
  destruct (c =? ESC); [done|].
  destruct (c =? CR).
  { destruct (Z.eqb_spec (Z.of_nat (length buf1)) 0) as [|Hlen]; cbn [negb].
    - apply IH.
    - intros [= <- _] ->. done. }
  destruct (iscntrl c) as [b|]; [|done].
  destruct (negb b && _); apply IH.
Qed.

Lemma editorScroll_keeps E E1 :
  editorScroll E = Some E1 →
  row E1 = row E ∧ cx E1 = cx E ∧ cy E1 = cy E
  ∧ dirty E1 = dirty E ∧ filename E1 = filename E ∧ statusmsg E1 = statusmsg E.
Proof.
  unfold editorScroll. intros (E0 & H0 & H1)%bind_Some.
  assert (row E0 = row E ∧ cx E0 = cx E ∧ cy E0 = cy E
          ∧ dirty E0 = dirty E ∧ filename E0 = filename E ∧ statusmsg E0 = statusmsg E)
    as (Hr & Hx & Hy & Hd & Hf & Hm).
  { revert H0. destruct (cy E <? numrows E); [|by intros [= <-]].
    intros (r & _ & (v & _ & [= <-])%bind_Some)%bind_Some. done. }
  injection H1 as <-.
  repeat match goal with |- context [if ?b then _ else _] => destruct b end; done.
Qed.

(** X22.  The outcomes of [editorSave], the prompt read key by key, on
    a state with a valid cursor.  With a file name no key is read and
    the call returns, rows, cursor and name kept: when [open],
    [ftruncate] and [write] succeed the dirty counter is reset and the
    message gives the number of bytes of the document; when [open]
    fails the dirty counter is kept and the message is the I/O error;
    when [ftruncate] or [write] fails the dirty counter is kept and no
    message is set.  Without a file name the call ends as the prompt
    does: it dies, waits forever or is undefined when the prompt is;
    when the prompt returns NULL, the name stays unset, rows, cursor
    and dirty counter are kept and the message is "Save aborted"; when
    it returns a name, that name is not empty, it is kept whatever
    follows, and the file is written with the same three outcomes. *)
Theorem save_outcomes io inp E :
  cursor_ok E →
  (∀ name, filename E = Some name →
     ∃ E', editorSave_keys io inp E = SaveReturns E' inp
           ∧ row E' = row E ∧ cx E' = cx E ∧ cy E' = cy E
           ∧ filename E' = Some name
           ∧ disk_outcome io E E')
  ∧ (filename E = None →
     match editorPrompt_keys inp with
     | PromptReturn None rest =>
         ∃ E', editorSave_keys io inp E = SaveReturns E' rest
               ∧ row E' = row E ∧ cx E' = cx E ∧ cy E' = cy E
               ∧ filename E' = None ∧ dirty E' = dirty E
               ∧ statusmsg E' = MsgSaveAborted
     | PromptReturn (Some name) rest =>
         name ≠ []
         ∧ ∃ E', editorSave_keys io inp E = SaveReturns E' rest
                 ∧ row E' = row E ∧ cx E' = cx E ∧ cy E' = cy E
                 ∧ filename E' = Some (string_of_bytes name)
                 ∧ disk_outcome io (editorSetStatusMessage MsgEmpty E) E'
     | PromptDied => editorSave_keys io inp E = SaveDied
     | PromptBlocked => editorSave_keys io inp E = SaveWaits
     | PromptUndefined => editorSave_keys io inp E = SaveUndefined
     | PromptOutOfFuel => False
     end).
Proof.
  intros Hok. split.
  - intros name Hname. unfold editorSave_keys. rewrite Hname.
    exists (save_to_disk io E). split; [done|].
    destruct (save_to_disk_keeps io E) as (Hr & Hx & Hy).
    destruct (save_to_disk_outcomes io E) as (Hf & Hgood & Hopen & Hsilent).
    do 3 (split; [done|]). split; [by rewrite Hf|].
    split; [exact Hgood|]. split; [exact Hopen|].
    intros Ho Hw. by rewrite (Hsilent Ho Hw).
  - intros Hname. unfold editorSave_keys. rewrite Hname.
    destruct (editorScroll_defined E Hok) as [E1 HE1]. rewrite HE1.
    destruct (editorScroll_keeps E E1 HE1) as (Hr1 & Hx1 & Hy1 & Hd1 & _ & _).
    pose proof (prompt_loop_fuel (S (length inp)) [] inp (Nat.lt_succ_diag_r _)) as Hfuel.
    fold (editorPrompt_keys inp) in Hfuel.
    destruct (editorPrompt_keys inp) as [[name|] rest| | | |] eqn:Hprompt; try done.
    + split; [by apply (prompt_loop_nonempty _ _ _ _ _ Hprompt)|].
      set (E2 := set_filename _ _).
      exists (save_to_disk io E2). split; [done|].
      destruct (save_to_disk_keeps io E2) as (Hr & Hx & Hy).
      destruct (save_to_disk_outcomes io E2) as (Hf & Hgood & Hopen & Hsilent).
      split; [by rewrite Hr|]. split; [by rewrite Hx|]. split; [by rewrite Hy|].
      split; [by rewrite Hf|].
      assert (doc_bytes E2 = doc_bytes (editorSetStatusMessage MsgEmpty E)) as Hdoc.
      { rewrite !doc_bytes_spec. change (row E2) with (row E1). by rewrite Hr1. }
      split; [|split].
      * intros Ho Ht Hw. rewrite <- Hdoc. by apply Hgood.
      * intros Ho. destruct (Hopen Ho) as [Hd Hm]. split; [rewrite Hd; exact Hd1|exact Hm].
      * intros Ho Hw. rewrite (Hsilent Ho Hw). split; [exact Hd1|reflexivity].
    + eexists. split; [done|]. by repeat split.
Qed.

Lemma save_outcomes_witness :
  let io := mk_save_io None true true false EmptyString in
  let inp := map ReadByte [97; 46; 99] ++ [ReadByte CR] in
  ∃ E', editorSave_keys io inp (initEditor 24 80) = SaveReturns E' []
        ∧ filename E' = Some "a.c"%string
        ∧ dirty E' = 0 ∧ statusmsg E' = MsgEmpty.
Proof.
  intros io inp.
  destruct (save_outcomes io inp (initEditor 24 80)) as [_ Hprompt].
  { vm_compute. repeat split; discriminate. }
  specialize (Hprompt eq_refl).
  change (editorPrompt_keys inp) with (PromptReturn (Some [97; 46; 99]) []) in Hprompt.
  destruct Hprompt as (_ & E' & Hsave & _ & _ & _ & Hname & _ & _ & Hsilent).
  destruct Hsilent as [Hd Hm]; [reflexivity..|].
  exists E'. split; [exact Hsave|]. split; [exact Hname|]. split; [exact Hd|exact Hm].
Defined.

(* ================================================================= *)
(** ** Typing text *)

Lemma printable_or_enter_not_escape c :
  printable c ∨ c = CR → (c =? ESC) = false.
Proof.
  unfold printable. intros [Hc | ->]; [|done].
  apply Z.eqb_neq. vm_compute. intros ->. lia.
Qed.

Lemma editorProcessKey_printable io c E :
  printable c → editorProcessKey io c E = break_switch (editorInsertChar c E).
Proof.
  unfold printable. intros Hc. unfold editorProcessKey.
  assert (∀ k, (k < 32 ∨ 126 < k) → (c =? k) = false) as Hne
    by (intros k Hk; apply Z.eqb_neq; lia).
  rewrite !Hne by (vm_compute; intuition congruence). done.
Qed.

(** One text key with the cursor on a line. *)
Lemma text_key_step io c E r :
  renders_in_sync E → row_at E (cy E) = Some r → 0 ≤ cx E ≤ size r →
  printable c ∨ c = CR →
  ∃ E' r', editorProcessKey io c E = Running E'
           ∧ renders_in_sync E'
           ∧ row_at E' (cy E') = Some r' ∧ 0 ≤ cx E' ≤ size r'
           ∧ doc_bytes E' = insert_at (cursor_offset E) (typed_byte c) (doc_bytes E)
           ∧ cursor_offset E' = S (cursor_offset E).
Proof.
  intros Hsync Hr Hcx [Hc | ->].
  - destruct (editorInsertChar_line_bytes c E r Hr Hcx)
      as (E' & r' & Hins & Hbytes & Hoff & _ & Hr' & Hcx').
    rewrite editorProcessKey_printable, Hins by done.
    exists (set_quit_times KILO_QUIT_TIMES E'), r'.
    split; [done|]. split; [by apply (editorInsertChar_sync c E E')|].
    split; [exact Hr'|]. split; [exact Hcx'|].
    destruct (printable_key c Hc) as (_ & _ & _ & _ & Hcr & _ & _ & Hchar).
    unfold typed_byte. rewrite Hcr. rewrite Hchar in Hbytes. done.
  - destruct (editorInsertNewline_line_bytes E r Hr Hcx)
      as (E' & r' & Hins & Hbytes & Hoff & _ & Hr' & Hcx').
    unfold editorProcessKey. rewrite Z.eqb_refl, Hins.
    exists (set_quit_times KILO_QUIT_TIMES E'), r'.
    split; [done|]. split; [by apply (editorInsertNewline_sync E E')|].
    done.
Qed.

Lemma insert_at_block {A} (l : list A) n x xs :
  (n ≤ length l)%nat →
  take (S n) (insert_at n x l) ++ xs ++ drop (S n) (insert_at n x l)
  = take n l ++ (x :: xs) ++ drop n l.
Proof.
  intros Hn. unfold insert_at.
  rewrite take_app_ge by (rewrite length_take; lia).
  rewrite drop_app_ge by (rewrite length_take; lia).
  rewrite length_take.
  replace (S n - n `min` length l)%nat with 1%nat by lia.
  cbn [take drop]. rewrite take_0, drop_0. by rewrite <- app_assoc.
Qed.

Lemma cursor_offset_le E r :
  row_at E (cy E) = Some r → 0 ≤ cx E ≤ size r →
  (cursor_offset E ≤ length (doc_bytes E))%nat.
Proof.
  intros Hr Hcx.
  destruct (row_at_split E _ r Hr) as (pre & post & Hrows & Hlen & Hpre & _).
  rewrite (cursor_offset_middle E pre Hpre), (doc_bytes_middle E pre r post Hrows).
  rewrite !length_app. unfold size in Hcx. lia.
Qed.

(** X23.  Typing text.  From a state with the cursor on a line and the
    renders in sync, the main loop fed printable ASCII characters and
    Enter keys processes them all and then waits for the next key; the
    bytes [editorSave] would write are then those of before with the
    text typed, Enter as a newline, inserted at the byte offset of the
    cursor, and the cursor stands right after that text, on a line,
    with every render in sync. *)
Theorem typed_text_reaches_file io s : ∀ E r,
  renders_in_sync E → row_at E (cy E) = Some r → 0 ≤ cx E ≤ size r →
  Forall (λ c, printable c ∨ c = CR) s →
  ∃ E', main_loop (S (length s)) io (map ReadByte s) E = MainWaits E'
        ∧ doc_bytes E'
          = take (cursor_offset E) (doc_bytes E) ++ map typed_byte s
            ++ drop (cursor_offset E) (doc_bytes E)
        ∧ cursor_offset E' = (cursor_offset E + length s)%nat
        ∧ renders_in_sync E' ∧ cursor_ok E'.
Proof.
  induction s as [|c s IH]; intros E r Hsync Hr Hcx Hs.
  - cbn [length map main_loop].
    rewrite editorScroll_closed_form
      by (pose proof (row_at_lt _ _ _ Hr); try lia; intros r0 Hr0; rewrite Hr in Hr0;
          injection Hr0 as <-; lia).
    set (E1 := set_coloff _ _).
    exists E1. split; [done|].
    split; [|split; [|split]].
    + cbn [map app]. change (doc_bytes E1) with (doc_bytes E). by rewrite take_drop.
    + change (cursor_offset E1) with (cursor_offset E). lia.
    + exact Hsync.
    + split; [pose proof (row_at_lt _ _ _ Hr); exact (conj (proj1 H) (Z.lt_le_incl _ _ (proj2 H)))|].
      unfold cursor_rowlen. change (row_at E1 (cy E1)) with (row_at E (cy E)).
      rewrite Hr. exact Hcx.
  - apply Forall_cons in Hs as [Hc Hs].
    cbn [length map main_loop].
    rewrite editorScroll_closed_form
      by (pose proof (row_at_lt _ _ _ Hr); try lia; intros r0 Hr0; rewrite Hr in Hr0;
          injection Hr0 as <-; lia).
    set (E1 := set_coloff _ _).
    assert (row_at E1 (cy E1) = Some r) as Hr1 by exact Hr.
    destruct (text_key_step io c E1 r Hsync Hr1 Hcx Hc)
      as (E2 & r2 & Hkey & Hsync2 & Hr2 & Hcx2 & Hbytes & Hoff).
    change (doc_bytes E1) with (doc_bytes E) in Hbytes.
    change (cursor_offset E1) with (cursor_offset E) in Hbytes, Hoff.
    unfold editorProcessKeypress. cbn [editorReadKey].
    rewrite (printable_or_enter_not_escape c Hc).
    rewrite Hkey.
    destruct (IH E2 r2 Hsync2 Hr2 Hcx2 Hs) as (E' & Hloop & Hdoc & Hoff' & Hsync' & Hok').
    exists E'. split; [exact Hloop|].
    split; [|split; [lia|done]].
    rewrite Hdoc, Hoff, Hbytes. cbn [map].
    apply insert_at_block. by apply (cursor_offset_le E r).
Qed.

Lemma typed_text_reaches_file_witness :
  let io := mk_save_io None false false false EmptyString in
  let E := mk_editor 1 0 0 0 0 22 80 [mk_erow [97; 98] 2 [97; 98]] 0 None MsgEmpty
                     KILO_QUIT_TIMES in
  ∃ E', main_loop 4 io (map ReadByte [120; CR; 121]) E = MainWaits E'
        ∧ doc_bytes E' = [97; 120; NEWLINE; 121; 98; NEWLINE]
        ∧ cursor_offset E' = 4%nat
        ∧ renders_in_sync E' ∧ cursor_ok E'.
Proof.
  intros io E.
  apply (typed_text_reaches_file io [120; CR; 121] E (mk_erow [97; 98] 2 [97; 98])).
  - repeat constructor.
  - reflexivity.
  - vm_compute. split; discriminate.
  - constructor; [left; vm_compute; split; discriminate|].
    constructor; [right; reflexivity|].
    constructor; [left; vm_compute; split; discriminate|].
    constructor.
Defined.

(** The save of the key dispatch, whose prompt answers from [io], is
    the save with the prompt read key by key whenever that prompt
    returns. *)
Lemma editorSave_keys_returns io inp E ans rest :
  filename E = None → editorPrompt_keys inp = PromptReturn ans rest →
  editorSave_keys io inp E
  = match editorSave (mk_save_io (string_of_bytes <$> ans) (open_ok io) (ftruncate_ok io)
                                 (write_ok io) (strerror_errno io)) E with
    | Some E' => SaveReturns E' rest
    | None => SaveUndefined
    end.
Proof.
  intros Hname Hprompt. unfold editorSave_keys, editorSave, editorPrompt.
  rewrite Hname, Hprompt.
  destruct (editorScroll E) as [E1|]; [|done].
  cbn [mbind option_bind]. by destruct ans.
Qed.

(* ================================================================= *)
(** ** The render cache in every state the program reaches *)






